(** * The training console script static/js/main.js

    A shallow embedding of the script of the training console, in two
    parts.

    The first part is section 7 ("PROCESSING OVERLAY"): the module-level
    run identity [overlayRunId], the overlay elements, the cooperative tasks
    created by [runOverlaySequence], [typewriterLine] and
    [showProcessingSuccess], and the browser's task queue that resumes
    them.

    The second part is the console around the overlay: [escapeHtml], the
    selection of files ([isSupportedFile], [fileKey], [addFiles]),
    [bytesToSize], the progress bar and its simulation, the elements of the
    page with [renderFileList], and the two [async] handlers
    [uploadAndIngest] and [runCrawl].

    Conventions of the embedding.
    - A JavaScript string is the list of its UTF-16 code units.
    - A JavaScript number is [jsnum] in the first part: NaN, the two
      infinities, or a finite value.  Finite values are taken integral (the
      caller passes an array length); on them every operation used here is
      exact.  The percentage of the progress bar is a binary64 double.  The
      size and the date of a file are natural numbers.
    - The elements looked up once at load time ([processingOverlay],
      [processingLines], ...) are fields of the state, [None] when the page
      has no such element.  Elements made by [document.createElement] live
      in [heap], named by their allocation index.
    - An [async] function is written in continuation-passing style: every
      [await sleep(ms)] stores the rest of the function as a [Kont] in the
      task queue [pending].  Awaiting a promise that is already settled
      resumes in a microtask, before any other task: it is run in place.
      The handlers of the second part are given by how they start and how
      they resume from each [await].
    - Every primitive effect of the first part is also recorded in [trace]
      (newest first); the second part records what it asks of the overlay,
      of [fetch] and of [alert] in [calls] (oldest first). *)

From Stdlib Require Import ZArith String Ascii Lia Bool DecimalN Floats.
From stdpp Require Import base tactics option list numbers.

Local Open Scope Z_scope.

(** ** Numbers and values *)

Inductive jsnum := NaN | PosInf | NegInf | Fin (z : Z).

(** A JavaScript value as far as the sequencer looks at it: the count hint is
    only tested against [undefined] (default parameter) and converted with
    [Number].  [VOther c] is any string, bigint, symbol or object, given by
    what [Number] makes of it; [None] when the conversion throws. *)
Inductive jsval :=
  | VUndefined
  | VNull
  | VBool (b : bool)
  | VNumber (n : jsnum)
  | VOther (conv : option jsnum).

#[global] Instance jsnum_eq_dec : EqDecision jsnum.
Proof. solve_decision. Defined.
#[global] Instance jsval_eq_dec : EqDecision jsval.
Proof. solve_decision. Defined.

Inductive Exn := TypeError.

(** [Number(v)] *)
Definition Number (v : jsval) : Exn + jsnum :=
  match v with
  | VUndefined => inr NaN
  | VNull => inr (Fin 0)
  | VBool true => inr (Fin 1)
  | VBool false => inr (Fin 0)
  | VNumber n => inr n
  | VOther (Some n) => inr n
  | VOther None => inl TypeError
  end.

(** Truthiness of a number: NaN and zero are falsy. *)
Definition truthy (n : jsnum) : bool :=
  match n with
  | NaN => false
  | Fin 0 => false
  | _ => true
  end.

(** [a || b] on numbers *)
Definition js_or (a b : jsnum) : jsnum := if truthy a then a else b.

Definition Math_max (a b : jsnum) : jsnum :=
  match a, b with
  | NaN, _ | _, NaN => NaN
  | PosInf, _ | _, PosInf => PosInf
  | NegInf, x | x, NegInf => x
  | Fin x, Fin y => Fin (Z.max x y)
  end.

Definition Math_min (a b : jsnum) : jsnum :=
  match a, b with
  | NaN, _ | _, NaN => NaN
  | NegInf, _ | _, NegInf => NegInf
  | PosInf, x | x, PosInf => x
  | Fin x, Fin y => Fin (Z.min x y)
  end.

Definition inf_of_sign (positive : bool) : jsnum :=
  if positive then PosInf else NegInf.

(** [a * b] *)
Definition js_mul (a b : jsnum) : jsnum :=
  match a, b with
  | NaN, _ | _, NaN => NaN
  | Fin x, Fin y => Fin (x * y)
  | Fin x, PosInf | PosInf, Fin x =>
      if x =? 0 then NaN else inf_of_sign (0 <? x)
  | Fin x, NegInf | NegInf, Fin x =>
      if x =? 0 then NaN else inf_of_sign (x <? 0)
  | PosInf, PosInf | NegInf, NegInf => PosInf
  | PosInf, NegInf | NegInf, PosInf => NegInf
  end.

(** A parameter with a default value: [function f(x = d)]. *)
Definition default_param (v d : jsval) : jsval :=
  match v with
  | VUndefined => d
  | _ => v
  end.

(** ** Strings *)

Definition jsstring := list N.

Definition str (s : string) : jsstring :=
  map N_of_ascii (list_ascii_of_string s).

Definition OVERLAY_LINES : list jsstring :=
  [ str "Okay, Uploading your Files to my workspace.. This won't take long!";
    str "Now I'm reading through all the text in your documents. Fascinating stuff!";
    str "Breaking down the contents into small chapters so that i can understand it better.";
    str "Converting everything into a format my AI brain can process. This is where the magic happens!";
    str "Building my knowledge index.. Almost there!";
    str "Perfect I've learned everything from your documents. I'm ready to use this new knowledge.";
    str "Thank you for these interesting new information !" ].

Definition LINE_TYPE_SPEED_MS : Z := 60.
Definition LINE_GAP_BASE_MS : Z := 210.
Definition LINE_FADE_MS : Z := 350.

(** The completion message; U+2014 is the dash between its two halves. *)
Definition SUCCESS_MSG : jsstring :=
  str "Done. Training complete " ++ [8212%N] ++
  str " I'm ready to answer using your Files.".

(** ** The document *)

Inductive child := CText (c : N) | CElem (id : nat).

#[global] Instance child_eq_dec : EqDecision child.
Proof. solve_decision. Defined.

Record Elem := mkElem {
  classes : list string;
  ariaHidden : option string;
  styleDisplay : option string;
  kids : list child
}.

Definition new_elem (cls : list string) : Elem :=
  {| classes := cls; ariaHidden := None; styleDisplay := None; kids := [] |}.

Definition set_kids (ks : list child) (e : Elem) : Elem :=
  {| classes := classes e; ariaHidden := ariaHidden e;
     styleDisplay := styleDisplay e; kids := ks |}.

Definition set_classes (cs : list string) (e : Elem) : Elem :=
  {| classes := cs; ariaHidden := ariaHidden e;
     styleDisplay := styleDisplay e; kids := kids e |}.

Definition set_aria (a : string) (e : Elem) : Elem :=
  {| classes := classes e; ariaHidden := Some a;
     styleDisplay := styleDisplay e; kids := kids e |}.

Definition set_display (d : string) (e : Elem) : Elem :=
  {| classes := classes e; ariaHidden := ariaHidden e;
     styleDisplay := Some d; kids := kids e |}.

Definition has_class (c : string) (e : Elem) : bool :=
  existsb (String.eqb c) (classes e).

(** [classList.add(c)] and [classList.remove(c)] *)
Definition class_add (c : string) (e : Elem) : Elem :=
  if has_class c e then e else set_classes (classes e ++ [c]) e.

Definition class_remove (c : string) (e : Elem) : Elem :=
  set_classes (List.filter (fun d => negb (String.eqb c d)) (classes e)) e.

#[global] Arguments has_class : simpl never.
#[global] Arguments class_add : simpl never.
#[global] Arguments class_remove : simpl never.

Definition is_child (id : nat) (c : child) : bool :=
  match c with
  | CElem j => Nat.eqb id j
  | CText _ => false
  end.

(** Taking element [id] out of a child list. *)
Definition drop_child (id : nat) (e : Elem) : Elem :=
  set_kids (List.filter (fun c => negb (is_child id c)) (kids e)) e.

Definition push_child (c : child) (e : Elem) : Elem :=
  set_kids (kids e ++ [c]) e.

(** The code units directly under an element (a caret span holds none). *)
Fixpoint text_of (ks : list child) : jsstring :=
  match ks with
  | [] => []
  | CText c :: ks' => c :: text_of ks'
  | CElem _ :: ks' => text_of ks'
  end.

Definition textContent (e : Elem) : jsstring := text_of (kids e).

(** References to elements. *)
Inductive ElRef :=
  | ROverlay | RLines | RTitle | RSub | RDots
  | RNode (id : nat).

#[global] Instance ElRef_eq_dec : EqDecision ElRef.
Proof. solve_decision. Defined.

(** ** Tasks *)

Record RunCtx := mkRunCtx {
  container : ElRef;
  runId : Z;
  useNodes : bool;
  gapMs : jsnum
}.

(** Who awaits a [typewriterLine] call. *)
Inductive TwRet :=
  | RetOverlay (ctx : RunCtx) (currentNode : option nat) (rest : list jsstring)
  | RetSuccess (rid : Z).

(** The rest of an async function at an [await sleep(...)]. *)
Inductive Kont :=
  | KFade (ctx : RunCtx) (currentNode : nat) (line : jsstring)
          (rest : list jsstring)
  | KChar (el : ElRef) (s : jsstring) (i : nat) (rid : Z) (caret : nat)
          (ret : TwRet)
  | KGap (ctx : RunCtx) (currentNode : option nat) (rest : list jsstring)
  | KSettle (rid : Z).

Inductive Task :=
  | TTimer (ms : jsnum) (k : Kont)
  | TFrame (node : nat).

(** ** Effects, as recorded in the trace *)

Inductive Effect :=
  | FxRunId (now : Z)
  | FxClear (r : ElRef)
  | FxCreate (id : nat)
  | FxAppendChild (parent : ElRef) (id : nat)
  | FxAppendText (parent : ElRef) (c : N)
  | FxRemove (id : nat)
  | FxClassAdd (r : ElRef) (c : string)
  | FxClassRemove (r : ElRef) (c : string)
  | FxSetAttr (r : ElRef) (a v : string)
  | FxSleep (ms : jsnum)
  | FxFrame (id : nat)
  | FxUi (what : string)
  | FxRejected.

(** What changes an element of the page. *)
Definition is_mutation (fx : Effect) : bool :=
  match fx with
  | FxClear _ | FxAppendChild _ _ | FxAppendText _ _ | FxRemove _
  | FxClassAdd _ _ | FxClassRemove _ _ | FxSetAttr _ _ _ | FxUi _ => true
  | _ => false
  end.

Definition is_sleep (fx : Effect) : bool :=
  match fx with
  | FxSleep _ => true
  | _ => false
  end.

Definition is_text (fx : Effect) : bool :=
  match fx with
  | FxAppendText _ _ => true
  | _ => false
  end.

(** ** The state of the module and of the page *)

Record Lottie := mkLottie {
  lottieOverlayEl : option string;   (* the element and its data-lottie-url *)
  windowLottie : bool;               (* typeof window.lottie !== "undefined" *)
  overlayLottie : option bool;       (* the animation, and whether it plays *)
  overlayLottieLoaded : bool
}.

Record State := mkState {
  overlayRunId : Z;
  processingOverlay : option Elem;
  processingLines : option Elem;
  processingTitle : option Elem;
  processingSub : option Elem;
  dots : option Elem;
  heap : list Elem;
  lottie : Lottie;
  selectedFiles : list string;
  selectedTrainType : string;
  pending : list Task;
  trace : list Effect
}.

Definition set_runId (z : Z) (st : State) : State :=
  mkState z (processingOverlay st) (processingLines st) (processingTitle st)
    (processingSub st) (dots st) (heap st) (lottie st) (selectedFiles st)
    (selectedTrainType st) (pending st) (trace st).

Definition set_heap (h : list Elem) (st : State) : State :=
  mkState (overlayRunId st) (processingOverlay st) (processingLines st)
    (processingTitle st) (processingSub st) (dots st) h (lottie st)
    (selectedFiles st) (selectedTrainType st) (pending st) (trace st).

Definition set_lottie (l : Lottie) (st : State) : State :=
  mkState (overlayRunId st) (processingOverlay st) (processingLines st)
    (processingTitle st) (processingSub st) (dots st) (heap st) l
    (selectedFiles st) (selectedTrainType st) (pending st) (trace st).

Definition set_files (fs : list string) (st : State) : State :=
  mkState (overlayRunId st) (processingOverlay st) (processingLines st)
    (processingTitle st) (processingSub st) (dots st) (heap st) (lottie st)
    fs (selectedTrainType st) (pending st) (trace st).

Definition set_trainType (t : string) (st : State) : State :=
  mkState (overlayRunId st) (processingOverlay st) (processingLines st)
    (processingTitle st) (processingSub st) (dots st) (heap st) (lottie st)
    (selectedFiles st) t (pending st) (trace st).

Definition set_pending (p : list Task) (st : State) : State :=
  mkState (overlayRunId st) (processingOverlay st) (processingLines st)
    (processingTitle st) (processingSub st) (dots st) (heap st) (lottie st)
    (selectedFiles st) (selectedTrainType st) p (trace st).

Definition record (fx : Effect) (st : State) : State :=
  mkState (overlayRunId st) (processingOverlay st) (processingLines st)
    (processingTitle st) (processingSub st) (dots st) (heap st) (lottie st)
    (selectedFiles st) (selectedTrainType st) (pending st) (fx :: trace st).

(** Reading and updating the element behind a reference. *)
Definition get_el (r : ElRef) (st : State) : option Elem :=
  match r with
  | ROverlay => processingOverlay st
  | RLines => processingLines st
  | RTitle => processingTitle st
  | RSub => processingSub st
  | RDots => dots st
  | RNode id => heap st !! id
  end.

(** Applying [f] to every element of the page and of the heap. *)
Definition map_all (f : Elem -> Elem) (st : State) : State :=
  mkState (overlayRunId st) (f <$> processingOverlay st)
    (f <$> processingLines st) (f <$> processingTitle st)
    (f <$> processingSub st) (f <$> dots st) (f <$> heap st) (lottie st)
    (selectedFiles st) (selectedTrainType st) (pending st) (trace st).

Definition upd_el (r : ElRef) (f : Elem -> Elem) (st : State) : State :=
  match r with
  | ROverlay =>
      mkState (overlayRunId st) (f <$> processingOverlay st)
        (processingLines st) (processingTitle st) (processingSub st)
        (dots st) (heap st) (lottie st) (selectedFiles st)
        (selectedTrainType st) (pending st) (trace st)
  | RLines =>
      mkState (overlayRunId st) (processingOverlay st)
        (f <$> processingLines st) (processingTitle st) (processingSub st)
        (dots st) (heap st) (lottie st) (selectedFiles st)
        (selectedTrainType st) (pending st) (trace st)
  | RTitle =>
      mkState (overlayRunId st) (processingOverlay st) (processingLines st)
        (f <$> processingTitle st) (processingSub st) (dots st) (heap st)
        (lottie st) (selectedFiles st) (selectedTrainType st) (pending st)
        (trace st)
  | RSub =>
      mkState (overlayRunId st) (processingOverlay st) (processingLines st)
        (processingTitle st) (f <$> processingSub st) (dots st) (heap st)
        (lottie st) (selectedFiles st) (selectedTrainType st) (pending st)
        (trace st)
  | RDots =>
      mkState (overlayRunId st) (processingOverlay st) (processingLines st)
        (processingTitle st) (processingSub st) (f <$> dots st) (heap st)
        (lottie st) (selectedFiles st) (selectedTrainType st) (pending st)
        (trace st)
  | RNode id => set_heap (alter f id (heap st)) st
  end.

(** ** A state monad with exceptions *)

Definition M (A : Type) : Type := State -> (Exn + A) * State.

Definition ret {A} (a : A) : M A := fun st => (inr a, st).

Definition bind {A B} (m : M A) (f : A -> M B) : M B :=
  fun st =>
    match m st with
    | (inl e, st') => (inl e, st')
    | (inr a, st') => f a st'
    end.

Definition throw {A} (e : Exn) : M A := fun st => (inl e, st).

Definition gets {A} (f : State -> A) : M A := fun st => (inr (f st), st).

Definition modify (f : State -> State) : M unit := fun st => (inr tt, f st).

Definition lift {A} (r : Exn + A) : M A := fun st => (r, st).

Declare Scope sm_scope.
Delimit Scope sm_scope with sm.
Notation "x <- m ;; k" := (bind m (fun x => k))
  (at level 20, m at level 99, k at level 200, only parsing) : sm_scope.
Notation "m >> k" := (bind m (fun _ => k))
  (at level 100, k at level 200, right associativity, only parsing) : sm_scope.
Local Open Scope sm_scope.

Definition emit (fx : Effect) : M unit := modify (record fx).

Definition when (b : bool) (m : M unit) : M unit := if b then m else ret tt.

(** An async function called without [await], and the task queue running a
    callback: an exception does not reach the caller, it rejects the
    promise. *)
Definition async_call (m : M unit) : M unit :=
  fun st =>
    match m st with
    | (inl _, st') => (inr tt, record FxRejected st')
    | r => r
    end.

(** ** Primitives of the page *)

(** [if (el)]: is the reference non-null? *)
Definition present (r : ElRef) : M bool :=
  gets (fun st => match get_el r st with Some _ => true | None => false end).

(** Using a property of the element behind [r]; a null reference throws. *)
Definition deref (r : ElRef) : M Elem :=
  fun st =>
    match get_el r st with
    | Some e => (inr e, st)
    | None => (inl TypeError, st)
    end.

Definition on_el (r : ElRef) (f : Elem -> Elem) (fx : Effect) : M unit :=
  deref r >> modify (upd_el r f) >> emit fx.

(** [document.createElement(..)] followed by the assignment of [className];
    the new element has no parent. *)
Definition createElement (cls : list string) : M nat :=
  fun st =>
    let id := length (heap st) in
    (inr id, record (FxCreate id) (set_heap (heap st ++ [new_elem cls]) st)).

(** [x.remove()]: the element leaves its parent, if it has one. *)
Definition remove (id : nat) : M unit :=
  modify (map_all (drop_child id)) >> emit (FxRemove id).

(** [el.appendChild(x)]: [x] leaves its parent and becomes the last child. *)
Definition appendChild (r : ElRef) (id : nat) : M unit :=
  deref r >>
  modify (map_all (drop_child id)) >>
  modify (upd_el r (push_child (CElem id))) >>
  emit (FxAppendChild r id).

(** [el.append(ch)] with a one-unit string. *)
Definition appendText (r : ElRef) (c : N) : M unit :=
  on_el r (push_child (CText c)) (FxAppendText r c).

(** [await sleep(ms)]: the rest of the function waits in the task queue. *)
Definition sleep (ms : jsnum) (k : Kont) : M unit :=
  modify (fun st => set_pending (pending st ++ [TTimer ms k]) st) >>
  emit (FxSleep ms).

Definition requestAnimationFrame (node : nat) : M unit :=
  modify (fun st => set_pending (pending st ++ [TFrame node]) st) >>
  emit (FxFrame node).

(** ** Lottie *)

Definition initOverlayLottie : M unit :=
  l <- gets lottie ;;
  if overlayLottieLoaded l then ret tt
  else match lottieOverlayEl l with
       | None => ret tt
       | Some url =>
           if negb (windowLottie l) then ret tt
           else if String.eqb url EmptyString then ret tt
           else modify (set_lottie
                          (mkLottie (lottieOverlayEl l) (windowLottie l)
                             (Some false) true))
       end.

(** [overlayLottie?.goToAndPlay(0, true)] and [overlayLottie?.stop()] *)
Definition lottie_set_playing (b : bool) : M unit :=
  l <- gets lottie ;;
  match overlayLottie l with
  | None => ret tt
  | Some _ =>
      modify (set_lottie
                (mkLottie (lottieOverlayEl l) (windowLottie l) (Some b)
                   (overlayLottieLoaded l)))
  end.

(** ** The sequencer *)

Definition cancelOverlaySequence : M unit :=
  modify (fun st => set_runId (overlayRunId st + 1) st) >>
  (now <- gets overlayRunId ;; emit (FxRunId now)) >>
  (b <- present RLines ;; when b (on_el RLines (set_kids []) (FxClear RLines))) >>
  (b <- present RSub ;; when b (on_el RSub (set_kids []) (FxClear RSub))) >>
  (b <- present RDots ;; when b (on_el RDots (set_kids []) (FxClear RDots))).

Definition ensureLinesContainer : M (option ElRef) :=
  b <- present RLines ;;
  if b then ret (Some RLines)
  else (c <- present RSub ;; ret (if c then Some RSub else None)).

(** [ch === "." || ch === "!" || ch === "?" || ch === ","] *)
Definition is_pause (ch : N) : bool :=
  (ch =? 46)%N || (ch =? 33)%N || (ch =? 63)%N || (ch =? 44)%N.

Definition char_delay (ch : N) : Z :=
  let extra := if is_pause ch then LINE_TYPE_SPEED_MS * 3 else 0 in
  LINE_TYPE_SPEED_MS + extra.

(** What follows [await typewriterLine(...)] in the caller. *)
Definition after_typewriter (ret : TwRet) : M unit :=
  match ret with
  | RetOverlay ctx cur rest => sleep (gapMs ctx) (KGap ctx cur rest)
  | RetSuccess rid => sleep (Fin 240) (KSettle rid)
  end.

(** The [for] loop of [typewriterLine], entered at index [i]; it runs up to
    the next [await sleep]. *)
Definition typewriter_loop (el : ElRef) (s : jsstring) (i : nat) (rid : Z)
    (caret : nat) (ret : TwRet) : M unit :=
  match s !! i with
  | Some ch =>
      now <- gets overlayRunId ;;
      if negb (rid =? now) then after_typewriter ret
      else
        remove caret >>
        appendText el ch >>
        appendChild el caret >>
        sleep (Fin (char_delay ch)) (KChar el s i rid caret ret)
  | None =>
      remove caret >>
      after_typewriter ret
  end.

Definition typewriterLine (el : ElRef) (text : jsstring) (rid : Z)
    (ret : TwRet) : M unit :=
  let s := text in
  on_el el (set_kids []) (FxClear el) >>
  caret <- createElement ["tw-caret"%string] ;;
  appendChild el caret >>
  typewriter_loop el s 0 rid caret ret.

(** The body of the [for (const line of OVERLAY_LINES)] loop after the fade. *)
Definition overlay_line (ctx : RunCtx) (cur : option nat) (line : jsstring)
    (rest : list jsstring) : M unit :=
  if useNodes ctx then
    node <- createElement ["status-line"%string] ;;
    appendChild (container ctx) node >>
    requestAnimationFrame node >>
    typewriterLine (RNode node) line (runId ctx)
      (RetOverlay ctx (Some node) rest)
  else
    typewriterLine (container ctx) line (runId ctx) (RetOverlay ctx cur rest).

(** The loop over the remaining lines, up to the next [await sleep]. *)
Definition overlay_loop (ctx : RunCtx) (cur : option nat)
    (lines : list jsstring) : M unit :=
  match lines with
  | [] => ret tt
  | line :: rest =>
      now <- gets overlayRunId ;;
      if negb (runId ctx =? now) then ret tt
      else
        match (if useNodes ctx then cur else None) with
        | Some n =>
            on_el (RNode n) (class_remove "show") (FxClassRemove (RNode n) "show") >>
            on_el (RNode n) (class_add "hide") (FxClassAdd (RNode n) "hide") >>
            sleep (Fin LINE_FADE_MS) (KFade ctx n line rest)
        | None => overlay_line ctx cur line rest
        end
  end.

(** [Math.max(1, Number(filesCount) || 1)] *)
Definition count_of (n : jsnum) : jsnum := Math_max (Fin 1) (js_or n (Fin 1)).

(** [Math.min(1200, LINE_GAP_BASE_MS * count)] *)
Definition gap_of (count : jsnum) : jsnum :=
  Math_min (Fin 1200) (js_mul (Fin LINE_GAP_BASE_MS) count).

Definition runOverlaySequence_on (lines : list jsstring) (filesCount : jsval)
    : M unit :=
  let filesCount := default_param filesCount (VNumber (Fin 1)) in
  c <- ensureLinesContainer ;;
  match c with
  | None => ret tt
  | Some container =>
      modify (fun st => set_runId (overlayRunId st + 1) st) >>
      rid <- gets overlayRunId ;;
      emit (FxRunId rid) >>
      let useNodes := bool_decide (container = RLines) in
      on_el container (set_kids []) (FxClear container) >>
      n <- lift (Number filesCount) ;;
      let count := count_of n in
      let gapMs := gap_of count in
      overlay_loop (mkRunCtx container rid useNodes gapMs) None lines
  end.

Definition runOverlaySequence : jsval -> M unit :=
  runOverlaySequence_on OVERLAY_LINES.

Definition hideProcessingOverlay : M unit :=
  cancelOverlaySequence >>
  lottie_set_playing false >>
  b <- present ROverlay ;;
  if negb b then ret tt
  else
    on_el ROverlay (class_add "hidden") (FxClassAdd ROverlay "hidden") >>
    on_el ROverlay (set_aria "true") (FxSetAttr ROverlay "aria-hidden" "true").

Definition showProcessingOverlay_on (lines : list jsstring)
    (filesCount : jsval) : M unit :=
  let filesCount := default_param filesCount (VNumber (Fin 1)) in
  b <- present ROverlay ;;
  if negb b then ret tt
  else
    cancelOverlaySequence >>
    (t <- present RTitle ;;
     when t (on_el RTitle (set_display "none")
               (FxSetAttr RTitle "style.display" "none"))) >>
    on_el ROverlay (class_remove "hidden") (FxClassRemove ROverlay "hidden") >>
    on_el ROverlay (set_aria "false") (FxSetAttr ROverlay "aria-hidden" "false") >>
    initOverlayLottie >>
    lottie_set_playing true >>
    async_call (runOverlaySequence_on lines filesCount).

Definition showProcessingOverlay : jsval -> M unit :=
  showProcessingOverlay_on OVERLAY_LINES.

(** [renderFileList], [setTrainingTypeLabel] and [hideTrainTypeError] touch
    only elements outside the overlay; they are recorded by name. *)
Definition clearFilesAfterSuccess : M unit :=
  modify (set_files []) >> emit (FxUi "renderFileList").

Definition resetTrainingType : M unit :=
  modify (set_trainType "") >>
  emit (FxUi "setTrainingTypeLabel") >>
  emit (FxUi "hideTrainTypeError").

Definition showProcessingSuccess_with (msg : jsstring) : M unit :=
  cancelOverlaySequence >>
  c <- ensureLinesContainer ;;
  match c with
  | None => hideProcessingOverlay
  | Some container =>
      rid <- gets overlayRunId ;;
      if bool_decide (container = RLines) then
        node <- createElement ["status-line"%string; "show"%string] ;;
        appendChild container node >>
        typewriterLine (RNode node) msg rid (RetSuccess rid)
      else
        typewriterLine container msg rid (RetSuccess rid)
  end.

Definition showProcessingSuccess : M unit :=
  showProcessingSuccess_with SUCCESS_MSG.

(** ** Resuming a task *)

Definition resume (k : Kont) : M unit :=
  match k with
  | KFade ctx n line rest =>
      remove n >>
      overlay_line ctx None line rest
  | KChar el s i rid caret ret =>
      typewriter_loop el s (S i) rid caret ret
  | KGap ctx cur rest =>
      overlay_loop ctx cur rest
  | KSettle _ =>
      clearFilesAfterSuccess >>
      hideProcessingOverlay >>
      resetTrainingType
  end.

Definition run_task (t : Task) : M unit :=
  match t with
  | TTimer _ k => resume k
  | TFrame n => on_el (RNode n) (class_add "show") (FxClassAdd (RNode n) "show")
  end.

(** The task queue runs the [k]-th pending task. *)
Definition fire (k : nat) (st : State) : State :=
  match pending st !! k with
  | None => st
  | Some t => snd (async_call (run_task t) (set_pending (delete k (pending st)) st))
  end.

(** What can happen to the sequencer: its three entry points are called, or
    a pending task runs. *)
Inductive Event :=
  | EvStart (filesCount : jsval)
  | EvSuccess
  | EvHide
  | EvFire (k : nat).

Definition step (st : State) (ev : Event) : State :=
  match ev with
  | EvStart v => snd (showProcessingOverlay v st)
  | EvSuccess => snd (async_call showProcessingSuccess st)
  | EvHide => snd (hideProcessingOverlay st)
  | EvFire k => fire k st
  end.

Definition run_events (evs : list Event) (st : State) : State :=
  fold_left step evs st.

(** ** Observations *)

(** The elements of the page, without the module's own variables. *)
Definition dom_of (st : State) :=
  (processingOverlay st, processingLines st, processingTitle st,
   processingSub st, dots st, heap st).

(** What the narration container shows: the text of each status line under
    [processingLines], or the text of the legacy [processingSub]. *)
Definition line_texts (h : list Elem) (ks : list child) : list jsstring :=
  omap (fun c => match c with
                 | CElem id => textContent <$> h !! id
                 | CText _ => None
                 end) ks.

Definition shown_lines (st : State) : list jsstring :=
  match processingLines st with
  | Some e => line_texts (heap st) (kids e)
  | None =>
      match processingSub st with
      | Some e => [textContent e]
      | None => []
      end
  end.

(** The run a continuation belongs to. *)
Definition twret_run (r : TwRet) : Z :=
  match r with
  | RetOverlay ctx _ _ => runId ctx
  | RetSuccess rid => rid
  end.

Definition kont_run (k : Kont) : Z :=
  match k with
  | KFade ctx _ _ _ => runId ctx
  | KChar _ _ _ rid _ _ => rid
  | KGap ctx _ _ => runId ctx
  | KSettle rid => rid
  end.

Definition timer_of (rid : Z) (t : Task) : bool :=
  match t with
  | TTimer _ k => kont_run k =? rid
  | TFrame _ => false
  end.

(** The position of the first pending timer of run [rid]. *)
Fixpoint next_timer (rid : Z) (l : list Task) : option nat :=
  match l with
  | [] => None
  | t :: l' => if timer_of rid t then Some 0%nat else S <$> next_timer rid l'
  end.

(** The task queue runs the pending timer of run [rid], if there is one. *)
Definition advance (rid : Z) (st : State) : State :=
  match next_timer rid (pending st) with
  | Some k => fire k st
  | None => st
  end.

(** No timer of run [rid] among the tasks. *)
Definition quiet (rid : Z) (l : list Task) : Prop :=
  Forall (fun t => timer_of rid t = false) l.

(** The effects recorded since an earlier state, oldest first. *)
Definition since (st0 st : State) : list Effect :=
  rev (take (length (trace st) - length (trace st0)) (trace st)).

(** "Sentence-ending punctuation", as the specification words it: the full
    stop, the exclamation mark and the question mark. *)
Definition sentence_ending (ch : N) : bool :=
  (ch =? 46)%N || (ch =? 33)%N || (ch =? 63)%N.

Definition positive_finite (n : jsnum) : Prop :=
  exists z, n = Fin z /\ 0 < z.

(** The container [ensureLinesContainer] returns. *)
Definition container_of (st : State) : option ElRef :=
  match processingLines st with
  | Some _ => Some RLines
  | None =>
      match processingSub st with
      | Some _ => Some RSub
      | None => None
      end
  end.

(** The state [cancelOverlaySequence] leaves. *)
Definition clear_present (r : ElRef) (st : State) : State :=
  match get_el r st with
  | Some _ => record (FxClear r) (upd_el r (set_kids []) st)
  | None => st
  end.

Definition bumped (st : State) : State :=
  record (FxRunId (overlayRunId st + 1)) (set_runId (overlayRunId st + 1) st).

Definition cancelled (st : State) : State :=
  clear_present RDots (clear_present RSub (clear_present RLines (bumped st))).

(** The state in which [runOverlaySequence] enters its loop. *)
Definition started (c : ElRef) (st : State) : State :=
  record (FxClear c) (upd_el c (set_kids []) (bumped st)).

(** Two pages to run the sequencer on: one with the [processingLines]
    container, one with the legacy elements only. *)
Definition lines_page : State :=
  mkState 0 (Some (new_elem ["hidden"%string])) (Some (new_elem [])) None None
    None [] (mkLottie None false None false) ["a.pdf"%string] "pharma" [] [].

Definition legacy_page : State :=
  mkState 0 (Some (new_elem ["hidden"%string])) None (Some (new_elem []))
    (Some (new_elem [])) (Some (new_elem [])) []
    (mkLottie None false None false) ["a.pdf"%string] "pharma" [] [].

(** The timer [after_typewriter] leaves in the queue. *)
Definition after_timer (ret : TwRet) : Task :=
  match ret with
  | RetOverlay ctx cur rest => TTimer (gapMs ctx) (KGap ctx cur rest)
  | RetSuccess rid => TTimer (Fin 240) (KSettle rid)
  end.

(** What typing into [el] with the caret [c] leaves alone: the module's
    variables, the size of the heap and, but for a child [c], every element
    other than [el]. *)
Record same_but (el : ElRef) (c : nat) (s s' : State) : Prop := mkSameBut {
  sb_runId : overlayRunId s' = overlayRunId s;
  sb_files : selectedFiles s' = selectedFiles s;
  sb_heap : length (heap s') = length (heap s);
  sb_others : forall r, r <> el -> get_el r s' = drop_child c <$> get_el r s
}.

(** The code units appended by the recorded effects, oldest first. *)
Fixpoint chars_of (tr : list Effect) : list N :=
  match tr with
  | [] => []
  | FxAppendText _ c :: tr' => chars_of tr' ++ [c]
  | _ :: tr' => chars_of tr'
  end.

(** The state after [document.createElement], [className = cls] and
    [processingLines.appendChild(node)]. *)
Definition with_node (cls : list string) (x : State) : State :=
  let m := length (heap x) in
  record (FxAppendChild RLines m)
    (upd_el RLines (push_child (CElem m))
       (map_all (drop_child m)
          (record (FxCreate m) (set_heap (heap x ++ [new_elem cls]) x)))).

(** Following a run through its lines.  [s] is the state in which the run
    has just entered its loop on [lines]; [nodes] tells the multi-node path
    from the legacy one, [first] the first line from the later ones, which
    start with a fade.  For each line in turn, once the run's own timers have
    fired as often as the line has characters (and once more for the fade),
    the container shows exactly that line and the characters typed so far
    are those of the lines so far; one more timer, the gap, enters the loop
    on the remaining lines.  After the last line the run has no timer left,
    the run identity is still its own and the selected files are as they
    were. *)
Fixpoint narrates (rid : Z) (nodes first : bool) (lines : list jsstring)
    (typed : list N) (files : list string) (s : State) : Prop :=
  match lines with
  | [] =>
      next_timer rid (pending s) = None /\
      overlayRunId s = rid /\
      chars_of (trace s) = typed /\
      selectedFiles s = files
  | l :: rest =>
      let fade := if nodes && negb first then 1%nat else 0%nat in
      let sG := Nat.iter (fade + length l) (advance rid) s in
      shown_lines sG = [l] /\
      chars_of (trace sG) = typed ++ l /\
      overlayRunId sG = rid /\
      narrates rid nodes false rest (typed ++ l) files (advance rid sG)
  end.

(** The number of times the run's timers fire from start to end. *)
Fixpoint run_ticks (nodes first : bool) (lines : list jsstring) : nat :=
  match lines with
  | [] => 0
  | l :: rest =>
      run_ticks nodes false rest +
      S ((if nodes && negb first then 1 else 0) + length l)
  end.

(** The states in which a run that is still current enters its loop. *)
Record at_loop (rid : Z) (ctx : RunCtx) (nodes first : bool)
    (cur : option nat) (s : State) : Prop := mkAtLoop {
  al_run : overlayRunId s = rid;
  al_ctx : runId ctx = rid;
  al_nodes : useNodes ctx = nodes;
  al_quiet : quiet rid (pending s);
  al_page :
    if nodes then
      container ctx = RLines /\
      exists e, processingLines s = Some e /\
        if first then cur = None /\ kids e = []
        else exists n, cur = Some n /\ kids e = [CElem n] /\
                       is_Some (heap s !! n)
    else
      container ctx = RSub /\ cur = None /\
      processingLines s = None /\ is_Some (processingSub s)
}.

(** No character has been appended between two states. *)
Definition silent (a b : State) : Prop :=
  chars_of (trace b) = chars_of (trace a).

(** ... and the run identity is the same. *)
Definition held (a b : State) : Prop :=
  overlayRunId b = overlayRunId a /\ silent a b.

(** A run on [lines_page] taken to the fade between its first two lines:
    the start, the frame callback, the 66 character timers of the first
    line and the gap timer. *)
Definition fade_events : list Event :=
  EvStart (VNumber (Fin 1)) :: repeat (EvFire 0%nat) 68.

Definition in_fade : State := run_events fade_events lines_page.

(** [keeps P R m]: started where [P] holds, [m] ends (normally or by an
    exception) in a state related to the first by [R].  [R] is a preorder
    and [P] is stable under it, so the property follows the binds. *)
Class Rely (P : State -> Prop) (R : State -> State -> Prop) : Prop := {
  rely_refl : forall st, R st st;
  rely_trans : forall a b c, R a b -> R b c -> R a c;
  rely_stable : forall a b, P a -> R a b -> P b
}.

Definition keeps (P : State -> Prop) (R : State -> State -> Prop)
    {A} (m : M A) : Prop :=
  forall st, P st -> R st (snd (m st)).

(** What no computation of the sequencer undoes: the run identity never
    decreases, the trace and the task queue are only extended, the heap only
    grows, and an element that exists keeps existing. *)
Record evolves (a b : State) : Prop := mkEvolves {
  ev_runId : overlayRunId a <= overlayRunId b;
  ev_trace : exists new, trace b = new ++ trace a;
  ev_pending : exists new, pending b = pending a ++ new;
  ev_heap : (length (heap a) <= length (heap b))%nat;
  ev_present : forall r, is_Some (get_el r a) -> is_Some (get_el r b)
}.

(** A pending task at a glance: the delay and the run of a timer. *)
Definition task_view (t : Task) : option (jsnum * Z) :=
  match t with
  | TTimer ms k => Some (ms, kont_run k)
  | TFrame _ => None
  end.

(** No pending timer is ahead of the run identity: the identity a timer
    carries, and the one of the caller it returns to, are at most [now]. *)
Definition kont_bound (now : Z) (k : Kont) : Prop :=
  kont_run k <= now /\
  match k with
  | KChar _ _ _ _ _ ret => twret_run ret <= now
  | _ => True
  end.

Definition task_bound (now : Z) (t : Task) : Prop :=
  match t with
  | TTimer _ k => kont_bound now k
  | TFrame _ => True
  end.

Definition tasks_bounded (st : State) : Prop :=
  Forall (task_bound (overlayRunId st)) (pending st).

(** The run identity has not decreased and the tasks scheduled in between
    are not ahead of it. *)
Record adds_bounded (a b : State) : Prop := mkAddsBounded {
  ab_runId : overlayRunId a <= overlayRunId b;
  ab_new : exists new, pending b = pending a ++ new /\
                       Forall (task_bound (overlayRunId b)) new
}.

(** *** An announcement among the tasks of earlier runs *)

(** A task left behind by an earlier overlay run, as an announcement of run
    [rid] can find it pending: a frame callback, or a timer of a run before
    [rid] that returns to [runOverlaySequence]; the nodes it holds were
    created before the heap had [h] elements. *)
Definition earlier_task (rid : Z) (h : nat) (t : Task) : Prop :=
  match t with
  | TFrame _ => True
  | TTimer _ (KFade ctx n _ _) =>
      runId ctx < rid /\ useNodes ctx = true /\ (n < h)%nat
  | TTimer _ (KChar _ _ _ r c (RetOverlay ctx _ _)) =>
      r < rid /\ runId ctx < rid /\ (c < h)%nat
  | TTimer _ (KGap ctx _ _) => runId ctx < rid
  | TTimer _ _ => False
  end.

(** A node other than [m] that exists and holds no text. *)
Definition blank_node (m x : nat) (s : State) : Prop :=
  x <> m /\ exists e, heap s !! x = Some e /\ textContent e = [].

Definition blank_child (m : nat) (s : State) (c : child) : Prop :=
  exists x, c = CElem x /\ blank_node m x s.

(** The element the announcement types into: a node of its own, or the
    legacy [processingSub]. *)
Definition target (nodes : bool) (m : nat) : ElRef :=
  if nodes then RNode m else RSub.

(** The announcement's element holds [txt] and the container shows nothing
    else: under [processingLines] the other children are nodes without
    text. *)
Definition announces (nodes : bool) (m : nat) (txt : jsstring) (s : State)
    : Prop :=
  if nodes then
    exists eL e l1 l2,
      processingLines s = Some eL /\ kids eL = l1 ++ CElem m :: l2 /\
      Forall (blank_child m s) (l1 ++ l2) /\
      heap s !! m = Some e /\ textContent e = txt
  else
    processingLines s = None /\
    exists e, processingSub s = Some e /\ textContent e = txt.

(** What a task of an earlier run leaves as it is when it runs while [rid]
    is current: the run identity, the characters typed, the text of every
    element, what the announcement shows; it adds tasks of earlier runs
    only. *)
Record undisturbed (rid : Z) (nodes : bool) (m : nat) (a b : State) : Prop :=
  mkUndisturbed {
  ud_runId : overlayRunId b = overlayRunId a;
  ud_chars : chars_of (trace b) = chars_of (trace a);
  ud_heap : (length (heap a) <= length (heap b))%nat;
  ud_pending : exists new, pending b = pending a ++ new /\
                           Forall (earlier_task rid m) new;
  ud_text : forall r e, get_el r a = Some e ->
              exists e', get_el r b = Some e' /\ textContent e' = textContent e;
  ud_shown : forall txt, announces nodes m txt a -> announces nodes m txt b
}.

(** The schedules of run [rid] among other tasks: [s'] is reached from [s]
    by firing pending tasks, [n] of them the first pending timer of [rid],
    the others frames or timers of other runs, in any order. *)
Inductive interleaved (rid : Z) : nat -> State -> State -> Prop :=
  | il_done s : interleaved rid 0 s s
  | il_own n s s' :
      interleaved rid n (advance rid s) s' -> interleaved rid (S n) s s'
  | il_other n k t s s' :
      pending s !! k = Some t -> timer_of rid t = false ->
      interleaved rid n (fire k s) s' -> interleaved rid n s s'.

(** Run [rid] is the current one and node [m] has been created. *)
Definition current (rid : Z) (m : nat) (s : State) : Prop :=
  overlayRunId s = rid /\ (m < length (heap s))%nat.

(** The timer an announcement of [msg] has pending after [n] of its timers
    have fired: the next character's, or at the end the settle timer. *)
Definition own_timer (rid : Z) (el : ElRef) (c : nat) (msg : jsstring)
    (n : nat) (t : Task) : Prop :=
  if decide (n < length msg)%nat then
    exists ms, t = TTimer ms (KChar el msg n rid c (RetSuccess rid))
  else t = TTimer (Fin 240) (KSettle rid).

(** The announcement of run [rid] after [n] of its timers have fired, among
    tasks of earlier runs. *)
Definition announcing (rid : Z) (nodes : bool) (m c : nat) (msg : jsstring)
    (typed : list N) (n : nat) (s : State) : Prop :=
  current rid m s /\
  announces nodes m (take (S n) msg) s /\
  chars_of (trace s) = typed ++ take (S n) msg /\
  exists pre t post,
    pending s = pre ++ t :: post /\
    own_timer rid (target nodes m) c msg n t /\
    Forall (earlier_task rid m) (pre ++ post).

(** ** Escaping text for [innerHTML] *)

(** [s.replaceAll(pat, by)] for a pattern of one code unit and a replacement
    without [$]. *)
Definition replaceAll (pat : N) (by_ : jsstring) (s : jsstring) : jsstring :=
  flat_map (fun c => if (c =? pat)%N then by_ else [c]) s.

Definition escapeHtml (s : jsstring) : jsstring :=
  replaceAll 39 (str "&#039;")
    (replaceAll 34 (str "&quot;")
       (replaceAll 62 (str "&gt;")
          (replaceAll 60 (str "&lt;")
             (replaceAll 38 (str "&amp;") s)))).

(** The entity that stands for a code unit, or the unit itself. *)
Definition entity (c : N) : jsstring :=
  if (c =? 38)%N then str "&amp;"
  else if (c =? 60)%N then str "&lt;"
  else if (c =? 62)%N then str "&gt;"
  else if (c =? 34)%N then str "&quot;"
  else if (c =? 39)%N then str "&#039;"
  else [c].

(** The code units with a meaning in HTML text or in an attribute value. *)
Definition html_special (c : N) : bool :=
  (c =? 38)%N || (c =? 60)%N || (c =? 62)%N || (c =? 34)%N || (c =? 39)%N.

(** ** Selecting files *)

(** A [File] as the script reads it: [size] and [lastModified] are the
    non-negative integers the browser supplies; a template literal prints
    them in decimal. *)
Record File := mkFile {
  file_name : jsstring;
  file_size : N;
  file_lastModified : N;
  file_type : jsstring
}.

Fixpoint digits (d : Decimal.uint) : jsstring :=
  match d with
  | Decimal.Nil => []
  | Decimal.D0 d => 48%N :: digits d
  | Decimal.D1 d => 49%N :: digits d
  | Decimal.D2 d => 50%N :: digits d
  | Decimal.D3 d => 51%N :: digits d
  | Decimal.D4 d => 52%N :: digits d
  | Decimal.D5 d => 53%N :: digits d
  | Decimal.D6 d => 54%N :: digits d
  | Decimal.D7 d => 55%N :: digits d
  | Decimal.D8 d => 56%N :: digits d
  | Decimal.D9 d => 57%N :: digits d
  end.

(** [String(n)] for a non-negative integer. *)
Definition decimal (n : N) : jsstring := digits (N.to_uint n).

(** [s.toLowerCase()] on the letters A to Z; other code units are left as
    they are. *)
Definition lower_unit (c : N) : N :=
  if ((65 <=? c) && (c <=? 90))%N then (c + 32)%N else c.

Definition toLowerCase (s : jsstring) : jsstring := map lower_unit s.

(** [/suf$/.test(s)] for a literal [suf]. *)
Definition ends_with (suf s : jsstring) : bool :=
  bool_decide (suf `suffix_of` s).

(** [/\.pdf$/i] is tested as [/\.pdf$/] on the lower-cased name. *)
Definition isPdf (file : File) : bool :=
  let nameOk := ends_with (str ".pdf") (toLowerCase (file_name file)) in
  let typeOk :=
    bool_decide (toLowerCase (file_type file) = str "application/pdf") in
  nameOk || typeOk.

Definition isSupportedFile (file : File) : bool :=
  let name := toLowerCase (file_name file) in
  let type := toLowerCase (file_type file) in
  let typeOk :=
    existsb (fun ext => ends_with (str ext) name)
      [".pdf"; ".doc"; ".docx"; ".txt"]%string in
  let mimeOk :=
    bool_decide
      (type ∈ [ str "application/pdf";
                str "application/vnd.openxmlformats-officedocument.wordprocessingml.document";
                str "text/plain" ]) in
  typeOk || mimeOk.

Definition fileKey (file : File) : jsstring :=
  file_name file ++ str "::" ++ decimal (file_size file) ++ str "::" ++
  decimal (file_lastModified file).

(** The loop of [addFiles] over the supported incoming files.  The [Set]
    [existing] is only asked [has] and told [add]: it is kept as the list
    of the keys put into it. *)
Fixpoint addFiles_loop (incoming : list File) (selected : list File)
    (existing : list jsstring) (added : nat) : list File * nat :=
  match incoming with
  | [] => (selected, added)
  | f :: rest =>
      let k := fileKey f in
      if bool_decide (k ∈ existing) then
        addFiles_loop rest selected existing added
      else
        addFiles_loop rest (selected ++ [f]) (existing ++ [k]) (S added)
  end.

(** ** Sizes for the file list *)

(** [x.toFixed(d)] for a double [x = num / den] that is at least 0, with
    [d] 0 or 1 ([one] says which): the integer nearest to [x * 10^d], the
    larger one of two, printed with [d] digits after the point. *)
Definition toFixed (num den : Z) (one : bool) : jsstring :=
  if one then
    let r := (2 * num * 10 + den) / (2 * den) in
    decimal (Z.to_N (r / 10)) ++ str "." ++ decimal (Z.to_N (r mod 10))
  else
    let r := (2 * num + den) / (2 * den) in
    decimal (Z.to_N r).

(** The [while] loop of [bytesToSize]; [v] is [n / den], and dividing it by
    1024 multiplies [den].  The loop runs at most twice, [units] having
    three entries. *)
Fixpoint bytesToSize_loop (fuel : nat) (n den : Z) (i : nat) : Z * nat :=
  match fuel with
  | O => (den, i)
  | S fuel =>
      if (1024 * den <=? n) && (i <? 3 - 1)%nat then
        bytesToSize_loop fuel n (den * 1024) (S i)
      else (den, i)
  end.

(** [bytesToSize(bytes)] for the size of a file, a non-negative integer
    below 2^53: on these [n / 1024] and the further divisions are exact. *)
Definition bytesToSize (bytes : N) : jsstring :=
  let n := Z.of_N bytes in
  if n <? 1024 then decimal bytes ++ str " B"
  else
    let units := [str "KB"; str "MB"; str "GB"] in
    let '(den, i) := bytesToSize_loop 2 n 1024 0 in
    toFixed n den (negb (10 * den <=? n)) ++ str " " ++ nth i units [].

(** ** The progress bar *)

(** [Math.max] and [Math.min] on two doubles: NaN if either is NaN, and
    [+0] is larger than [-0]. *)
Definition Math_maxf (a b : float) : float :=
  if PrimFloat.is_nan a || PrimFloat.is_nan b then nan
  else if (a <? b)%float then b
  else if (b <? a)%float then a
  else if PrimFloat.get_sign a then b else a.

Definition Math_minf (a b : float) : float :=
  if PrimFloat.is_nan a || PrimFloat.is_nan b then nan
  else if (a <? b)%float then a
  else if (b <? a)%float then b
  else if PrimFloat.get_sign a then a else b.

Definition clamp (num min max : float) : float :=
  Math_maxf min (Math_minf max num).

(** [x || 0] on a number: NaN and the zeros are falsy. *)
Definition or_zero (x : float) : float :=
  if PrimFloat.is_nan x || PrimFloat.is_zero x then 0%float else x.

(** [Math.round(x)], the integer nearest to [x] with ties towards
    [+Infinity], for a finite [x]. *)
Definition Math_round (x : float) : option Z :=
  match Prim2SF x with
  | S754_zero _ => Some 0
  | S754_finite s m e =>
      let v := if s then Z.neg m else Z.pos m in
      Some (if 0 <=? e then v * 2 ^ e
            else (2 * v + 2 ^ (- e)) / 2 ^ (1 - e))
  | _ => None
  end.


(** What [`${Math.round(p)}`] prints. *)
Definition print_round (p : float) : jsstring :=
  match Math_round p with
  | Some z =>
      (if z <? 0 then str "-" else []) ++ decimal (Z.to_N (Z.abs z))
  | None =>
      if PrimFloat.is_nan p then str "NaN"
      else if (p <? 0)%float then str "-Infinity" else str "Infinity"
  end.

(** The progress elements and the simulated progress.  [progressBar] is
    the width the bar was last given, as the number printed before [%];
    [progressPct] is the text of the label; [None] when the page has no such
    element.  [intervals] are the timers [setInterval] has set and
    [clearInterval] has not cleared, each with the [p] of its callback;
    timer ids are positive. *)
Record Progress := mkProgress {
  progressTimer : option nat;
  intervals : list (nat * float);
  intervals_made : nat;
  progressBar : option float;
  progressPct : option jsstring
}.

Definition setProgress (pct : float) (st : Progress) : Progress :=
  let p := clamp (or_zero pct) 0 100 in
  mkProgress (progressTimer st) (intervals st) (intervals_made st)
    ((fun _ => p) <$> progressBar st)
    ((fun _ => print_round p ++ str "%") <$> progressPct st).

Definition clearInterval (id : nat) (st : Progress) : Progress :=
  mkProgress (progressTimer st)
    (List.filter (fun t => negb (fst t =? id)%nat) (intervals st))
    (intervals_made st) (progressBar st) (progressPct st).

(** [if (progressTimer) clearInterval(progressTimer)] *)
Definition clear_progressTimer (st : Progress) : Progress :=
  match progressTimer st with
  | Some id => clearInterval id st
  | None => st
  end.

Definition startSimulatedProgress (st : Progress) : Progress :=
  let st := clear_progressTimer st in
  let p := 5%float in
  let st := setProgress p st in
  let id := S (intervals_made st) in
  mkProgress (Some id) (intervals st ++ [(id, p)]) id
    (progressBar st) (progressPct st).

(** The callback of the interval: 0.8 and 0.08 are the doubles nearest to
    them. *)
Definition next_p (p : float) : float :=
  Math_minf 90
    (p + Math_maxf 0x1.999999999999ap-1
           ((90 - p) * 0x1.47ae147ae147bp-4))%float.

(** The interval [id] fires, if it is still set. *)
Definition interval_fires (id : nat) (st : Progress) : Progress :=
  match List.find (fun t => (fst t =? id)%nat) (intervals st) with
  | None => st
  | Some (_, p) =>
      let p := next_p p in
      setProgress p
        (mkProgress (progressTimer st)
           (map (fun t => if (fst t =? id)%nat then (id, p) else t)
              (intervals st))
           (intervals_made st) (progressBar st) (progressPct st))
  end.

(** [stopSimulatedProgress(finalPct = 100)] *)
Definition stopSimulatedProgress (finalPct : option float) (st : Progress)
    : Progress :=
  let finalPct := default 100%float finalPct in
  let st := clear_progressTimer st in
  setProgress finalPct
    (mkProgress None (intervals st) (intervals_made st)
       (progressBar st) (progressPct st)).

Inductive ProgressEvent :=
  | PvStart
  | PvStop (finalPct : option float)
  | PvSet (pct : float)
  | PvInterval (id : nat).

Definition progress_step (st : Progress) (ev : ProgressEvent) : Progress :=
  match ev with
  | PvStart => startSimulatedProgress st
  | PvStop v => stopSimulatedProgress v st
  | PvSet v => setProgress v st
  | PvInterval id => interval_fires id st
  end.

Definition progress_page : Progress :=
  mkProgress None [] 0 (Some 0%float) (Some (str "0%")).


(** The invariant of the simulated progress: no interval is set but the one
    whose id is in [progressTimer], and its [p] has been reached from 5 by
    the callback. *)
Definition one_interval (st : Progress) : Prop :=
  match progressTimer st with
  | None => intervals st = []
  | Some id =>
      exists k, intervals st = [(id, Nat.iter k next_p 5%float)]
  end.

(** ** The console page *)

(** A row of the file list: the escaped name, the size as printed and the
    [data-idx] of its remove button. *)
Record Row := mkRow {
  row_name : jsstring;
  row_meta : jsstring;
  row_idx : nat
}.

(** What [fileList] holds: the rows, or the notice that no file is
    selected. *)
Inductive FileListView :=
  | NoFilesNotice
  | FileRows (rows : list Row).

(** The module's [selectedFiles] and the elements of the page outside the
    overlay, [None] when the page has no such element: the text of a text
    element, the [disabled] flag of a control, the [aria-disabled] attribute
    of the drop zone, the lines of the console log (each is printed after
    the time of day). *)
Record Page := mkPage {
  selected : list File;
  statusDot : option Elem;
  statusText : option jsstring;
  phaseText : option jsstring;
  progress : Progress;
  mFiles : option jsstring;
  mChunks : option jsstring;
  mSkipped : option jsstring;
  fileList : option FileListView;
  fileCount : option jsstring;
  consoleLog : option (list jsstring);
  uploadBtn : option bool;
  clearBtn : option bool;
  fileInput : option bool;
  dropzone : option string
}.

Definition set_selected (v : list File) (pg : Page) : Page :=
  mkPage v (statusDot pg) (statusText pg) (phaseText pg) (progress pg)
    (mFiles pg) (mChunks pg) (mSkipped pg) (fileList pg) (fileCount pg)
    (consoleLog pg) (uploadBtn pg) (clearBtn pg) (fileInput pg) (dropzone
    pg).

Definition set_statusDot (v : option Elem) (pg : Page) : Page :=
  mkPage (selected pg) v (statusText pg) (phaseText pg) (progress pg)
    (mFiles pg) (mChunks pg) (mSkipped pg) (fileList pg) (fileCount pg)
    (consoleLog pg) (uploadBtn pg) (clearBtn pg) (fileInput pg) (dropzone
    pg).

Definition set_statusText (v : option jsstring) (pg : Page) : Page :=
  mkPage (selected pg) (statusDot pg) v (phaseText pg) (progress pg) (mFiles
    pg) (mChunks pg) (mSkipped pg) (fileList pg) (fileCount pg) (consoleLog
    pg) (uploadBtn pg) (clearBtn pg) (fileInput pg) (dropzone pg).

Definition set_phaseText (v : option jsstring) (pg : Page) : Page :=
  mkPage (selected pg) (statusDot pg) (statusText pg) v (progress pg)
    (mFiles pg) (mChunks pg) (mSkipped pg) (fileList pg) (fileCount pg)
    (consoleLog pg) (uploadBtn pg) (clearBtn pg) (fileInput pg) (dropzone
    pg).

Definition set_progress (v : Progress) (pg : Page) : Page :=
  mkPage (selected pg) (statusDot pg) (statusText pg) (phaseText pg) v
    (mFiles pg) (mChunks pg) (mSkipped pg) (fileList pg) (fileCount pg)
    (consoleLog pg) (uploadBtn pg) (clearBtn pg) (fileInput pg) (dropzone
    pg).

Definition set_mFiles (v : option jsstring) (pg : Page) : Page :=
  mkPage (selected pg) (statusDot pg) (statusText pg) (phaseText pg)
    (progress pg) v (mChunks pg) (mSkipped pg) (fileList pg) (fileCount pg)
    (consoleLog pg) (uploadBtn pg) (clearBtn pg) (fileInput pg) (dropzone
    pg).

Definition set_mChunks (v : option jsstring) (pg : Page) : Page :=
  mkPage (selected pg) (statusDot pg) (statusText pg) (phaseText pg)
    (progress pg) (mFiles pg) v (mSkipped pg) (fileList pg) (fileCount pg)
    (consoleLog pg) (uploadBtn pg) (clearBtn pg) (fileInput pg) (dropzone
    pg).

Definition set_mSkipped (v : option jsstring) (pg : Page) : Page :=
  mkPage (selected pg) (statusDot pg) (statusText pg) (phaseText pg)
    (progress pg) (mFiles pg) (mChunks pg) v (fileList pg) (fileCount pg)
    (consoleLog pg) (uploadBtn pg) (clearBtn pg) (fileInput pg) (dropzone
    pg).

Definition set_fileList (v : option FileListView) (pg : Page) : Page :=
  mkPage (selected pg) (statusDot pg) (statusText pg) (phaseText pg)
    (progress pg) (mFiles pg) (mChunks pg) (mSkipped pg) v (fileCount pg)
    (consoleLog pg) (uploadBtn pg) (clearBtn pg) (fileInput pg) (dropzone
    pg).

Definition set_fileCount (v : option jsstring) (pg : Page) : Page :=
  mkPage (selected pg) (statusDot pg) (statusText pg) (phaseText pg)
    (progress pg) (mFiles pg) (mChunks pg) (mSkipped pg) (fileList pg) v
    (consoleLog pg) (uploadBtn pg) (clearBtn pg) (fileInput pg) (dropzone
    pg).

Definition set_consoleLog (v : option (list jsstring)) (pg : Page) : Page :=
  mkPage (selected pg) (statusDot pg) (statusText pg) (phaseText pg)
    (progress pg) (mFiles pg) (mChunks pg) (mSkipped pg) (fileList pg)
    (fileCount pg) v (uploadBtn pg) (clearBtn pg) (fileInput pg) (dropzone
    pg).

Definition set_uploadBtn (v : option bool) (pg : Page) : Page :=
  mkPage (selected pg) (statusDot pg) (statusText pg) (phaseText pg)
    (progress pg) (mFiles pg) (mChunks pg) (mSkipped pg) (fileList pg)
    (fileCount pg) (consoleLog pg) v (clearBtn pg) (fileInput pg) (dropzone
    pg).

Definition set_clearBtn (v : option bool) (pg : Page) : Page :=
  mkPage (selected pg) (statusDot pg) (statusText pg) (phaseText pg)
    (progress pg) (mFiles pg) (mChunks pg) (mSkipped pg) (fileList pg)
    (fileCount pg) (consoleLog pg) (uploadBtn pg) v (fileInput pg) (dropzone
    pg).

Definition set_fileInput (v : option bool) (pg : Page) : Page :=
  mkPage (selected pg) (statusDot pg) (statusText pg) (phaseText pg)
    (progress pg) (mFiles pg) (mChunks pg) (mSkipped pg) (fileList pg)
    (fileCount pg) (consoleLog pg) (uploadBtn pg) (clearBtn pg) v (dropzone
    pg).

Definition set_dropzone (v : option string) (pg : Page) : Page :=
  mkPage (selected pg) (statusDot pg) (statusText pg) (phaseText pg)
    (progress pg) (mFiles pg) (mChunks pg) (mSkipped pg) (fileList pg)
    (fileCount pg) (consoleLog pg) (uploadBtn pg) (clearBtn pg) (fileInput
    pg) v.


(** [classList.remove("online", "error")], then [classList.add(mode)] unless
    [mode] is empty. *)
Definition setDot (mode : string) (pg : Page) : Page :=
  set_statusDot
    ((fun e =>
        let e := class_remove "error" (class_remove "online" e) in
        if String.eqb mode "" then e else class_add mode e) <$> statusDot pg)
    pg.

Definition setStatus (text : jsstring) (mode : string) (pg : Page) : Page :=
  setDot mode (set_statusText ((fun _ => text) <$> statusText pg) pg).

Definition setPhase (label : jsstring) (pg : Page) : Page :=
  set_phaseText ((fun _ => label) <$> phaseText pg) pg.

(** A function of the progress bar, on the page. *)
Definition on_progress (f : Progress -> Progress) (pg : Page) : Page :=
  set_progress (f (progress pg)) pg.

(** [setMetrics({ files, chunks, skipped })]; the arguments are given as
    [String(..)] prints them. *)
Definition setMetrics (files chunks skipped : jsstring) (pg : Page) : Page :=
  set_mSkipped ((fun _ => skipped) <$> mSkipped pg)
    (set_mChunks ((fun _ => chunks) <$> mChunks pg)
       (set_mFiles ((fun _ => files) <$> mFiles pg) pg)).

Definition log (line : jsstring) (pg : Page) : Page :=
  set_consoleLog ((fun l => l ++ [line]) <$> consoleLog pg) pg.

Definition clearLog (pg : Page) : Page :=
  set_consoleLog ((fun _ => [str "[system] Ready."]) <$> consoleLog pg) pg.

(** [`${n} file${n === 1 ? "" : "s"}`] *)
Definition count_label (n : nat) : jsstring :=
  decimal (N.of_nat n) ++ str " file" ++ (if (n =? 1)%nat then [] else str "s").

Definition updateFileCount (pg : Page) : Page :=
  set_fileCount ((fun _ => count_label (length (selected pg))) <$> fileCount pg)
    pg.

Definition rows_of (files : list File) : list Row :=
  imap (fun idx f =>
          mkRow (escapeHtml (file_name f)) (bytesToSize (file_size f)) idx)
    files.

Definition setDisabled (disabled : bool) (pg : Page) : Page :=
  let d := disabled in
  set_dropzone
    ((fun _ => if d then "true"%string else "false"%string) <$> dropzone pg)
    (set_fileInput ((fun _ => d) <$> fileInput pg)
       (set_clearBtn ((fun _ => d) <$> clearBtn pg)
          (set_uploadBtn ((fun _ => d) <$> uploadBtn pg) pg))).

Section Rendering.

(** [String(Number(text || 0))]: what a metric reads after its own text has
    been read back as a number and printed again. *)
Variable reread : jsstring -> jsstring.

(** [Number(el?.textContent || 0)], printed. *)
Definition metric_of (el : option jsstring) : jsstring :=
  match el with
  | Some text => reread text
  | None => str "0"
  end.

Definition renderFileList (pg : Page) : Page :=
  match fileList pg with
  | None => pg
  | Some _ =>
      if (length (selected pg) =? 0)%nat then
        let pg := set_fileList (Some NoFilesNotice) pg in
        setMetrics (metric_of (mFiles pg)) (metric_of (mChunks pg))
          (metric_of (mSkipped pg)) pg
      else
        let pg := set_fileList (Some (FileRows (rows_of (selected pg)))) pg in
        let pg := updateFileCount pg in
        setMetrics (decimal (N.of_nat (length (selected pg))))
          (metric_of (mChunks pg)) (metric_of (mSkipped pg)) pg
  end.

(** The click handler [renderFileList] gives the remove button of the row
    with [data-idx = i]: nothing happens unless the list shows such a
    row. *)
Definition remove_clicked (i : nat) (pg : Page) : Page :=
  match fileList pg with
  | Some (FileRows rows) =>
      if existsb (fun r => (row_idx r =? i)%nat) rows then
        renderFileList (set_selected (delete i (selected pg)) pg)
      else pg
  | _ => pg
  end.

Definition addFiles (fileListLike : list File) (pg : Page) : Page :=
  let incoming := List.filter isSupportedFile fileListLike in
  if (length incoming =? 0)%nat then
    setStatus (str "Please select PDF files only.") "error" pg
  else
    let existing := map fileKey (selected pg) in
    let '(selected', added) :=
      addFiles_loop incoming (selected pg) existing 0 in
    let pg := set_selected selected' pg in
    let pg := renderFileList pg in
    let pg := updateFileCount pg in
    let pg :=
      setMetrics (decimal (N.of_nat (length (selected pg))))
        (metric_of (mChunks pg)) (metric_of (mSkipped pg)) pg in
    setStatus
      (if (added =? 0)%nat then str "These Files are already added."
       else str "Added " ++ decimal (N.of_nat added) ++ str " File" ++
            (if (added =? 1)%nat then [] else str "s") ++ str ".")
      "online" pg.

Definition clearFiles (pg : Page) : Page :=
  let pg := set_selected [] pg in
  let pg := renderFileList pg in
  let pg := updateFileCount pg in
  let pg := setMetrics (str "0") (str "0") (str "0") pg in
  let pg := on_progress (setProgress 0) pg in
  let pg := setPhase (str "Idle") pg in
  let pg := setStatus (str "Ready.") "online" pg in
  log (str "Cleared file list.") pg.

(** [clearFilesAfterSuccess], on the page. *)
Definition clearFilesAfterSuccess_page (pg : Page) : Page :=
  renderFileList (set_selected [] pg).

(** What changes the selection: files are picked or dropped, a remove
    button or the clear button is clicked, a training has succeeded. *)
Inductive PageEvent :=
  | PgAddFiles (fileListLike : list File)
  | PgRemove (i : nat)
  | PgClear
  | PgSucceeded.

Definition page_step (pg : Page) (ev : PageEvent) : Page :=
  match ev with
  | PgAddFiles l => addFiles l pg
  | PgRemove i => remove_clicked i pg
  | PgClear => clearFiles pg
  | PgSucceeded => clearFilesAfterSuccess_page pg
  end.

End Rendering.

(** The list shows the selection. *)
Definition shows_selection (pg : Page) : Prop :=
  match fileList pg with
  | Some NoFilesNotice => selected pg = []
  | Some (FileRows rows) => rows = rows_of (selected pg)
  | None => True
  end.

(** A page with every element, as it is loaded. *)
Definition console_page : Page :=
  mkPage [] (Some (new_elem [])) (Some []) (Some []) progress_page
    (Some (str "0")) (Some (str "0")) (Some (str "0")) (Some (FileRows []))
    (Some (str "0 files")) (Some []) (Some false) (Some false) (Some false)
    (Some "false"%string).

Definition two_files : list File :=
  [ mkFile (str "a<b>.pdf") 1048575 1700000000000 (str "application/pdf");
    mkFile (str "notes.txt") 12 1700000000001 (str "text/plain") ].

(** ** Training *)

(** What the console asks of the overlay, of the network and of the
    browser: the overlay's functions are the ones of the sequencer above,
    [fetch] is called with the form ([files] in the order of the selection,
    then [train_type]) or for the crawl. *)
Inductive Call :=
  | CShowProcessingOverlay (fileCount : nat)
  | CShowProcessingSuccess
  | CHideProcessingOverlay
  | CFetchIngest (files : list File) (train_type : jsstring)
  | CFetchCrawl
  | CAlert (message : jsstring).

(** The console: its page, the module's [selectedTrainType] (here
    [trainType]), the message under the Train button, the label of the type
    dropdown (the text after its icon) and the calls made so far, oldest
    first. *)
Record Console := mkConsole {
  page : Page;
  trainType : jsstring;
  trainTypeError : option Elem;
  trainingTypeDropdown : option jsstring;
  calls : list Call
}.

Definition on_page (f : Page -> Page) (c : Console) : Console :=
  mkConsole (f (page c)) (trainType c) (trainTypeError c)
    (trainingTypeDropdown c) (calls c).

Definition call (x : Call) (c : Console) : Console :=
  mkConsole (page c) (trainType c) (trainTypeError c)
    (trainingTypeDropdown c) (calls c ++ [x]).

Definition setTrainingTypeLabel (type : jsstring) (c : Console) : Console :=
  let t := toLowerCase type in
  let label :=
    if bool_decide (t = str "herbal") then str "Herbal"
    else if bool_decide (t = str "pharma") then str "Pharma"
    else if bool_decide (t = str "other") then str "Other"
    else str "Select Type" in
  mkConsole (page c) (trainType c) (trainTypeError c)
    ((fun _ => label) <$> trainingTypeDropdown c) (calls c).

Definition showTrainTypeError (c : Console) : Console :=
  mkConsole (page c) (trainType c)
    (class_remove "d-none" <$> trainTypeError c)
    (trainingTypeDropdown c) (calls c).

Definition hideTrainTypeError (c : Console) : Console :=
  mkConsole (page c) (trainType c)
    (class_add "d-none" <$> trainTypeError c)
    (trainingTypeDropdown c) (calls c).

(** [resetTrainingType], on the console. *)
Definition resetTrainingType_console (c : Console) : Console :=
  let c :=
    mkConsole (page c) [] (trainTypeError c) (trainingTypeDropdown c)
      (calls c) in
  hideTrainTypeError (setTrainingTypeLabel [] c).

(** The click handler of an item of the type dropdown; [data] is its
    [data-train-type], if it has one. *)
Definition type_chosen (data : option jsstring) (c : Console) : Console :=
  let t := toLowerCase (default [] data) in
  let c :=
    mkConsole (page c) t (trainTypeError c) (trainingTypeDropdown c)
      (calls c) in
  hideTrainTypeError (setTrainingTypeLabel t c).

(** [hay.includes(needle)] *)
Fixpoint includes (needle hay : jsstring) : bool :=
  match hay with
  | [] => bool_decide (needle = [])
  | _ :: rest => bool_decide (needle `prefix_of` hay) || includes needle rest
  end.

(** A response as the script reads it: [ok], [status] and the
    [content-type] header, [None] when the response has none. *)
Record Response := mkResponse {
  res_ok : bool;
  res_status : N;
  res_contentType : option jsstring
}.

(** The body as the script reads it.  [d_error] and [d_message] are read
    with [||]: [Some s] is a truthy value that prints as [s], [None] any
    falsy one, a missing one too.  The others are read with [??]: [Some s]
    is a value that prints as [s], [None] is [null] or a missing one. *)
Record Data := mkData {
  d_error : option jsstring;
  d_message : option jsstring;
  d_files : option jsstring;
  d_chunks : option jsstring;
  d_total_chunks : option jsstring;
  d_skipped : option jsstring;
  d_skipped_chunks : option jsstring
}.

(** [{ message: text }] *)
Definition text_data (text : jsstring) : Data :=
  mkData None (match text with [] => None | _ => Some text end)
    None None None None None.

(** [data?.error || data?.message || `Request failed (${res.status})`] *)
Definition failure_message (res : Response) (data : Data) : jsstring :=
  default
    (default (str "Request failed (" ++ decimal (res_status res) ++ str ")")
       (d_message data))
    (d_error data).

(** What [`${err?.message || err}`] prints, here and below, is all that is
    kept of a thrown value.  For [new Error(msg)] it is the message, and
    the name of the error when the message is empty. *)
Definition print_Error (message : jsstring) : jsstring :=
  match message with
  | [] => str "Error"
  | _ => message
  end.

(** Where an [async] function of the console waits: for [fetch], for
    [res.json()], for [res.text()], for [showProcessingSuccess()]. *)
Inductive Await :=
  | AwFetch
  | AwJson (res : Response)
  | AwText (res : Response)
  | AwSuccess.

(** How an awaited promise settles.  [Announced typed] is the promise of
    [showProcessingSuccess]: [typed] tells whether it found its container
    and typed its line. *)
Inductive Outcome :=
  | Rejected (err : jsstring)
  | Fetched (res : Response)
  | Parsed (data : Data)
  | TextRead (text : jsstring)
  | Announced (typed : bool).

Definition settles (k : Await) (o : Outcome) : bool :=
  match k, o with
  | _, Rejected _ => true
  | AwFetch, Fetched _ => true
  | AwJson _, Parsed _ => true
  | AwText _, TextRead _ => true
  | AwSuccess, Announced _ => true
  | _, _ => false
  end.

(** [ct.includes("application/json") ? await res.json() : ... await
    res.text()] *)
Definition read_body (res : Response) : Await :=
  let ct := default [] (res_contentType res) in
  if includes (str "application/json") ct then AwJson res else AwText res.

(** The [catch] block of [uploadAndIngest], then its [finally]. *)
Definition upload_failed (err : jsstring) (c : Console)
    : Console * option Await :=
  let c := on_page (on_progress (stopSimulatedProgress (Some 0%float))) c in
  let c := on_page (setPhase (str "Error")) c in
  let c := on_page (setStatus (str "Training failed.") "error") c in
  let c := on_page (log (str "ERROR: " ++ err)) c in
  let c := call CHideProcessingOverlay c in
  let c := call (CAlert (str "Training failed: " ++ err)) c in
  (on_page (setDisabled false) c, None).

(** [uploadAndIngest] once the body is read. *)
Definition upload_checked (res : Response) (data : Data) (c : Console)
    : Console * option Await :=
  if negb (res_ok res) then
    upload_failed (print_Error (failure_message res data)) c
  else
    let files :=
      default (decimal (N.of_nat (length (selected (page c)))))
        (d_files data) in
    let chunks :=
      default (default (str "0") (d_total_chunks data)) (d_chunks data) in
    let skipped :=
      default (default (str "0") (d_skipped_chunks data)) (d_skipped data) in
    let c := on_page (setMetrics files chunks skipped) c in
    let c :=
      on_page (on_progress (stopSimulatedProgress (Some 100%float))) c in
    let c := on_page (setPhase (str "Complete")) c in
    let c := on_page (setStatus (str "Training complete.") "online") c in
    let c := on_page (log (str "Training complete.")) c in
    let c :=
      on_page
        (log (str "Metrics: files=" ++ files ++ str ", Chapters=" ++ chunks ++
              str ", skipped=" ++ skipped)) c in
    let c := call CShowProcessingSuccess c in
    (c, Some AwSuccess).

(** [uploadAndIngest] up to its first [await]; [None] when it has
    returned.  The status ends in an ellipsis, U+2026. *)
Definition uploadAndIngest (c : Console) : Console * option Await :=
  let n := length (selected (page c)) in
  if (n =? 0)%nat then
    let c :=
      on_page (setStatus (str "No Files selected. Add files first.") "error")
        c in
    (on_page (log (str "Training blocked: no files selected.")) c, None)
  else
    let c := on_page (setDisabled true) c in
    let c :=
      on_page (setStatus (str "Training in progress" ++ [8230%N]) "online")
        c in
    let c := on_page (setPhase (str "Uploading & indexing")) c in
    let c :=
      on_page
        (log (str "Starting Training: " ++ decimal (N.of_nat n) ++
              str " File(s).")) c in
    let c := call (CShowProcessingOverlay n) c in
    let c := on_page (on_progress startSimulatedProgress) c in
    let c := call (CFetchIngest (selected (page c)) (trainType c)) c in
    (c, Some AwFetch).

(** [uploadAndIngest] from the [await] [k], settled by [o]. *)
Definition uploadAndIngest_resume (k : Await) (o : Outcome) (c : Console)
    : Console * option Await :=
  match k, o with
  | _, Rejected err => upload_failed err c
  | AwFetch, Fetched res => (c, Some (read_body res))
  | AwJson res, Parsed data => upload_checked res data c
  | AwText res, TextRead text => upload_checked res (text_data text) c
  | AwSuccess, Announced _ => (on_page (setDisabled false) c, None)
  | _, _ => (c, Some k)
  end.

(** The click handler of the Train button. *)
Definition train_clicked (c : Console) : Console * option Await :=
  match trainType c with
  | [] => (showTrainTypeError c, None)
  | _ => uploadAndIngest c
  end.

(** The [catch] block of [runCrawl], then its [finally]. *)
Definition crawl_failed (err : jsstring) (c : Console)
    : Console * option Await :=
  let c := on_page (on_progress (setProgress 0)) c in
  let c := on_page (setPhase (str "Error")) c in
  let c := on_page (setStatus (str "Training failed.") "error") c in
  let c := on_page (log (str "ERROR: " ++ err)) c in
  let c :=
    call (CAlert (str "Auto Download and Training stopped: " ++ err)) c in
  (on_page (setDisabled false) c, None).

Definition crawl_checked (res : Response) (data : Data) (c : Console)
    : Console * option Await :=
  let c := on_page (on_progress (setProgress 90)) c in
  if negb (res_ok res) then
    crawl_failed (print_Error (failure_message res data)) c
  else
    let files := default (str "0") (d_files data) in
    let chunks := default (str "0") (d_chunks data) in
    let skipped := default (str "0") (d_skipped data) in
    let c := on_page (setMetrics files chunks skipped) c in
    let c := on_page (on_progress (setProgress 100)) c in
    let c := on_page (setPhase (str "Complete")) c in
    let c := on_page (setStatus (str "Auto Training complete.") "online") c in
    let c := on_page (log (str "Auto Training complete.")) c in
    let c :=
      on_page
        (log (str "Metrics: files=" ++ files ++ str ", Chapters=" ++ chunks ++
              str ", skipped=" ++ skipped)) c in
    (on_page (setDisabled false) c, None).

(** [runCrawl] up to its first [await]. *)
Definition runCrawl (c : Console) : Console * option Await :=
  let c := on_page (setDisabled true) c in
  let c :=
    on_page (setStatus (str "Auto training in progress" ++ [8230%N]) "online")
      c in
  let c := on_page (setPhase (str "Auto Trainig From Website")) c in
  let c :=
    on_page (log (str "Starting auto-download and training" ++ [8230%N])) c in
  let c := on_page (on_progress (setProgress 10)) c in
  let c := call CFetchCrawl c in
  (c, Some AwFetch).

Definition runCrawl_resume (k : Await) (o : Outcome) (c : Console)
    : Console * option Await :=
  match k, o with
  | _, Rejected err => crawl_failed err c
  | AwFetch, Fetched res =>
      (on_page (on_progress (setProgress 25)) c, Some (read_body res))
  | AwJson res, Parsed data => crawl_checked res data c
  | AwText res, TextRead text => crawl_checked res (text_data text) c
  | _, _ => (c, Some k)
  end.

(** What happens on the console while a function waits: the selection
    changes, an interval of the simulated progress fires, a type is
    chosen. *)
Inductive ConsoleEvent :=
  | CvPage (ev : PageEvent)
  | CvInterval (id : nat)
  | CvTypeChosen (data : option jsstring).

(** What happens while an [async] function runs: something on the console,
    or the promise it waits for settles. *)
Inductive Happening :=
  | Meanwhile (ev : ConsoleEvent)
  | Settled (o : Outcome).

Section Training.

Variable reread : jsstring -> jsstring.

Definition console_step (c : Console) (ev : ConsoleEvent) : Console :=
  match ev with
  | CvPage e => on_page (fun pg => page_step reread pg e) c
  | CvInterval id => on_page (on_progress (interval_fires id)) c
  | CvTypeChosen data => type_chosen data c
  end.

(** What [showProcessingSuccess] has done to the console by the time its
    promise is fulfilled: when it has typed its line, it has called
    [clearFilesAfterSuccess] and [resetTrainingType]; a rejected promise
    and the other promises have done nothing to it. *)
Definition settled_effect (o : Outcome) (c : Console) : Console :=
  match o with
  | Announced true =>
      resetTrainingType_console
        (on_page (clearFilesAfterSuccess_page reread) c)
  | _ => c
  end.

(** An [async] function, given by how it resumes, runs from an [await] to
    its end through what happens. *)
Inductive runs (resume : Await -> Outcome -> Console -> Console * option Await)
    : Console -> option Await -> list Happening -> Console -> Prop :=
  | runs_ended c : runs resume c None [] c
  | runs_meanwhile c k ev hs c' :
      runs resume (console_step c ev) (Some k) hs c' ->
      runs resume c (Some k) (Meanwhile ev :: hs) c'
  | runs_settled c k o hs c' :
      settles k o = true ->
      runs resume (fst (resume k o (settled_effect o c)))
        (snd (resume k o (settled_effect o c))) hs c' ->
      runs resume c (Some k) (Settled o :: hs) c'.

(** The same as a function: the console at the end, if the function ends
    with the last of what happens. *)
Fixpoint run_to_end
    (resume : Await -> Outcome -> Console -> Console * option Await)
    (c : Console) (k : option Await) (hs : list Happening) : option Console :=
  match k, hs with
  | None, [] => Some c
  | Some k0, Meanwhile ev :: hs =>
      run_to_end resume (console_step c ev) k hs
  | Some k0, Settled o :: hs =>
      if settles k0 o then
        let r := resume k0 o (settled_effect o c) in
        run_to_end resume (fst r) (snd r) hs
      else None
  | _, _ => None
  end.

(** The console at the end of a function started as [start]. *)
Definition ended
    (resume : Await -> Outcome -> Console -> Console * option Await)
    (start : Console * option Await) (hs : list Happening) : Console :=
  default (fst start) (run_to_end resume (fst start) (snd start) hs).

(** What happened on the console meanwhile. *)
Definition meanwhile (hs : list Happening) : list ConsoleEvent :=
  omap (fun h => match h with Meanwhile ev => Some ev | Settled _ => None end)
    hs.

End Training.

(** The controls [setDisabled] sets. *)
Definition controls (pg : Page)
    : option bool * option bool * option bool * option string :=
  (uploadBtn pg, clearBtn pg, fileInput pg, dropzone pg).

(** The controls as [setDisabled(false)] leaves them. *)
Definition enabled_controls (pg : Page)
    : option bool * option bool * option bool * option string :=
  ((fun _ => false) <$> uploadBtn pg, (fun _ => false) <$> clearBtn pg,
   (fun _ => false) <$> fileInput pg,
   (fun _ => "false"%string) <$> dropzone pg).

(** What the selection, the list and the type are on two consoles. *)
Definition same_choice (a b : Console) : Prop :=
  selected (page a) = selected (page b) /\
  fileList (page a) = fileList (page b) /\
  trainType a = trainType b /\
  trainTypeError a = trainTypeError b /\
  trainingTypeDropdown a = trainingTypeDropdown b.

(** What holds of the console at an await of a training that has made the
    calls [base]. *)
Definition upload_waits (base : list Call) (k : option Await) (c : Console)
    : Prop :=
  match k with
  | Some AwSuccess =>
      progressTimer (progress (page c)) = None /\
      calls c = base ++ [CShowProcessingSuccess]
  | Some _ => calls c = base
  | None => False
  end.

(** How a training ends that has made the calls [base]; [E] are the
    controls, enabled. *)
Definition upload_ended
    (E : option bool * option bool * option bool * option string)
    (base : list Call) (hs : list Happening) (c' : Console) : Prop :=
  controls (page c') = E /\
  progressTimer (progress (page c')) = None /\
  intervals (progress (page c')) = [] /\
  (calls c' = base ++ [CShowProcessingSuccess] \/
   exists err shown,
     calls c' =
       base ++ shown ++
       [CHideProcessingOverlay; CAlert (str "Training failed: " ++ err)] /\
     (shown = [] \/ shown = [CShowProcessingSuccess]) /\
     (forall bar,
        progressBar (progress (page c')) = Some bar -> bar = 0%float) /\
     forall typed, Settled (Announced typed) ∉ hs).

Definition training_console : Console :=
  mkConsole (addFiles (fun text => text) two_files console_page)
    (str "pharma")
    (Some (new_elem ["d-none"%string])) (Some (str "Pharma")) [].

Definition json_response (ok : bool) (status : N) : Response :=
  mkResponse ok status (Some (str "application/json; charset=utf-8")).

Definition more_files : list File :=
  [ mkFile (str "late.docx") 2048 1700000000002 [] ].

(** A training that succeeds while a file is dropped, a training and a
    crawl the server refuses. *)
Definition training_succeeds : list Happening :=
  [ Meanwhile (CvInterval 1);
    Settled (Fetched (json_response true 200));
    Meanwhile (CvPage (PgAddFiles more_files));
    Settled (Parsed (mkData None None None (Some (str "7")) None None None));
    Settled (Announced true) ].

Definition training_refused : list Happening :=
  [ Settled (Fetched (mkResponse false 500 None));
    Meanwhile (CvPage (PgAddFiles more_files));
    Settled (TextRead []) ].

Definition crawl_refused : list Happening :=
  [ Settled (Fetched (json_response false 503));
    Meanwhile (CvInterval 1);
    Settled
      (Parsed (mkData (Some (str "busy")) None None None None None None)) ].

(** ** Lemmas on the state *)

Section StateLemmas.

Implicit Types (st : State) (r : ElRef) (f : Elem -> Elem) (fx : Effect).

Lemma get_el_record r fx st : get_el r (record fx st) = get_el r st.
  Proof. by destruct r. Qed.

Lemma get_el_set_pending r p st : get_el r (set_pending p st) = get_el r st.
  Proof. by destruct r. Qed.

Lemma get_el_set_runId r z st : get_el r (set_runId z st) = get_el r st.
  Proof. by destruct r. Qed.

Lemma get_el_map_all r f st : get_el r (map_all f st) = f <$> get_el r st.
  Proof. destruct r; simpl; try done. by rewrite list_lookup_fmap. Qed.

Lemma get_el_upd_el r f st : get_el r (upd_el r f st) = f <$> get_el r st.
  Proof.
    destruct r; simpl; try done.
    rewrite list_lookup_alter. by case_decide.
  Qed.

Lemma get_el_upd_el_ne r r' f st :
    r <> r' -> get_el r' (upd_el r f st) = get_el r' st.
  Proof.
    intros Hne. destruct r, r'; simpl; try done.
    rewrite list_lookup_alter. case_decide; [congruence | done].
  Qed.

Lemma runId_upd_el r f st : overlayRunId (upd_el r f st) = overlayRunId st.
  Proof. by destruct r. Qed.

Lemma pending_upd_el r f st : pending (upd_el r f st) = pending st.
  Proof. by destruct r. Qed.

Lemma trace_upd_el r f st : trace (upd_el r f st) = trace st.
  Proof. by destruct r. Qed.

Lemma files_upd_el r f st : selectedFiles (upd_el r f st) = selectedFiles st.
  Proof. by destruct r. Qed.

Lemma heap_length_upd_el r f st :
    length (heap (upd_el r f st)) = length (heap st).
  Proof. destruct r; simpl; try done. by rewrite length_alter. Qed.

Lemma runId_record fx st : overlayRunId (record fx st) = overlayRunId st.
  Proof. done. Qed.
Lemma runId_set_pending p st : overlayRunId (set_pending p st) = overlayRunId st.
  Proof. done. Qed.
Lemma runId_map_all f st : overlayRunId (map_all f st) = overlayRunId st.
  Proof. done. Qed.
Lemma runId_set_heap h st : overlayRunId (set_heap h st) = overlayRunId st.
  Proof. done. Qed.

Lemma files_record fx st : selectedFiles (record fx st) = selectedFiles st.
  Proof. done. Qed.
Lemma files_set_pending p st : selectedFiles (set_pending p st) = selectedFiles st.
  Proof. done. Qed.
Lemma files_map_all f st : selectedFiles (map_all f st) = selectedFiles st.
  Proof. done. Qed.
Lemma files_set_heap h st : selectedFiles (set_heap h st) = selectedFiles st.
  Proof. done. Qed.

Lemma pending_record fx st : pending (record fx st) = pending st.
  Proof. done. Qed.
Lemma pending_set_pending p st : pending (set_pending p st) = p.
  Proof. done. Qed.
Lemma pending_map_all f st : pending (map_all f st) = pending st.
  Proof. done. Qed.
Lemma pending_set_heap h st : pending (set_heap h st) = pending st.
  Proof. done. Qed.

Lemma trace_record fx st : trace (record fx st) = fx :: trace st.
  Proof. done. Qed.
Lemma trace_set_pending p st : trace (set_pending p st) = trace st.
  Proof. done. Qed.
Lemma trace_map_all f st : trace (map_all f st) = trace st.
  Proof. done. Qed.
Lemma trace_set_heap h st : trace (set_heap h st) = trace st.
  Proof. done. Qed.

Lemma heap_record fx st : heap (record fx st) = heap st.
  Proof. done. Qed.
Lemma heap_set_pending p st : heap (set_pending p st) = heap st.
  Proof. done. Qed.
Lemma heap_map_all f st : heap (map_all f st) = f <$> heap st.
  Proof. done. Qed.
Lemma heap_set_heap h st : heap (set_heap h st) = h.
  Proof. done. Qed.

Lemma set_pending_twice p q st :
    set_pending p (set_pending q st) = set_pending p st.
  Proof. done. Qed.

End StateLemmas.

Create Rewrite HintDb st.
#[global] Hint Rewrite get_el_record get_el_set_pending get_el_set_runId
  get_el_map_all get_el_upd_el
  runId_upd_el runId_record runId_set_pending runId_map_all runId_set_heap
  files_upd_el files_record files_set_pending files_map_all files_set_heap
  pending_upd_el pending_record pending_set_pending pending_map_all
  pending_set_heap
  trace_upd_el trace_record trace_set_pending trace_map_all trace_set_heap
  heap_length_upd_el heap_record heap_set_pending heap_map_all heap_set_heap
  set_pending_twice
  @length_fmap : st.

(** ** Lemmas on children and text *)

Lemma text_of_app ks1 ks2 : text_of (ks1 ++ ks2) = text_of ks1 ++ text_of ks2.
Proof.
  induction ks1 as [|[c|id] ks1 IH]; simpl; [done | by rewrite IH | done].
Qed.

Lemma text_of_drop id ks :
  text_of (List.filter (fun c => negb (is_child id c)) ks) = text_of ks.
Proof.
  induction ks as [|[c|j] ks IH]; simpl; [done | by rewrite IH |].
  by destruct (Nat.eqb id j).
Qed.

Lemma textContent_drop_child id e : textContent (drop_child id e) = textContent e.
Proof. apply text_of_drop. Qed.

Lemma textContent_push_text c e :
  textContent (push_child (CText c) e) = textContent e ++ [c].
Proof. unfold textContent; simpl. by rewrite text_of_app. Qed.

Lemma textContent_push_elem id e :
  textContent (push_child (CElem id) e) = textContent e.
Proof. unfold textContent; simpl. by rewrite text_of_app, app_nil_r. Qed.

(** ** Running the primitives *)

Lemma bind_inr {A B} (m : M A) (f : A -> M B) st a st' :
  m st = (inr a, st') -> bind m f st = f a st'.
Proof. unfold bind. by intros ->. Qed.

Lemma on_el_some r f fx st e :
  get_el r st = Some e ->
  on_el r f fx st = (inr tt, record fx (upd_el r f st)).
Proof. intros H. unfold on_el, bind, deref. by rewrite H. Qed.

Lemma on_el_none r f fx st :
  get_el r st = None -> on_el r f fx st = (inl TypeError, st).
Proof. intros H. unfold on_el, bind, deref. by rewrite H. Qed.

Lemma remove_run id st :
  remove id st = (inr tt, record (FxRemove id) (map_all (drop_child id) st)).
Proof. done. Qed.

Lemma appendChild_some r id st e :
  get_el r st = Some e ->
  appendChild r id st =
    (inr tt, record (FxAppendChild r id)
               (upd_el r (push_child (CElem id)) (map_all (drop_child id) st))).
Proof. intros H. unfold appendChild, bind, deref. by rewrite H. Qed.

Lemma sleep_run ms k st :
  sleep ms k st =
    (inr tt, record (FxSleep ms) (set_pending (pending st ++ [TTimer ms k]) st)).
Proof. done. Qed.

Lemma after_typewriter_run ret st :
  after_typewriter ret st =
    (inr tt,
     match ret with
     | RetOverlay ctx cur rest =>
         record (FxSleep (gapMs ctx))
           (set_pending (pending st ++ [TTimer (gapMs ctx) (KGap ctx cur rest)]) st)
     | RetSuccess rid =>
         record (FxSleep (Fin 240))
           (set_pending (pending st ++ [TTimer (Fin 240) (KSettle rid)]) st)
     end).
Proof. by destruct ret. Qed.

(** The state after one character has been typed into [el]. *)
Lemma typewriter_loop_types el s i rid caret ret st ch e :
  s !! i = Some ch ->
  overlayRunId st = rid ->
  get_el el st = Some e ->
  typewriter_loop el s i rid caret ret st =
    sleep (Fin (char_delay ch)) (KChar el s i rid caret ret)
      (record (FxAppendChild el caret)
         (upd_el el (push_child (CElem caret))
            (map_all (drop_child caret)
               (record (FxAppendText el ch)
                  (upd_el el (push_child (CText ch))
                     (record (FxRemove caret)
                        (map_all (drop_child caret) st))))))).
Proof.
  intros Hi Hrid Hel. unfold typewriter_loop. rewrite Hi.
  unfold bind at 1. unfold gets. rewrite Hrid, Z.eqb_refl. cbn [negb].
  rewrite (bind_inr _ _ _ _ _ (remove_run caret st)).
  unfold appendText.
  erewrite bind_inr; last first.
  { apply on_el_some with (e := drop_child caret e).
    by rewrite get_el_record, get_el_map_all, Hel. }
  erewrite bind_inr; last first.
  { eapply appendChild_some.
    rewrite get_el_record, get_el_upd_el, get_el_record, get_el_map_all, Hel.
    done. }
  done.
Qed.

(** A superseded [typewriterLine] returns at its check. *)
Lemma typewriter_loop_stale el s i rid caret ret st ch :
  s !! i = Some ch ->
  overlayRunId st <> rid ->
  typewriter_loop el s i rid caret ret st = after_typewriter ret st.
Proof.
  intros Hi Hrid. unfold typewriter_loop. rewrite Hi.
  unfold bind, gets.
  destruct (Z.eqb_spec rid (overlayRunId st)); [congruence | done].
Qed.

Lemma typewriter_loop_end el s i rid caret ret st :
  s !! i = None ->
  typewriter_loop el s i rid caret ret st =
    after_typewriter ret (record (FxRemove caret) (map_all (drop_child caret) st)).
Proof. intros Hi. unfold typewriter_loop. by rewrite Hi. Qed.

(** ** Pacing *)

Lemma count_of_fin c : 1 <= c -> count_of (Fin c) = Fin c.
Proof.
  intros H. unfold count_of, js_or, truthy.
  destruct c; try lia; simpl; f_equal; lia.
Qed.






(** C9, as stated, fails at the comma: it ends no sentence, and it is
    followed by the extended delay all the same. *)
Lemma C9_counterexample :
  sentence_ending 44 = false /\
  char_delay 44 = LINE_TYPE_SPEED_MS + 3 * LINE_TYPE_SPEED_MS.
Proof. done. Qed.

(** C9 (amended): a run that is still current appends the character and
    then waits: the base delay of 60 ms, extended by three times the base
    delay exactly when the character is a full stop, an exclamation mark, a
    question mark or a comma. *)
Theorem C9_delay_after_char (el : ElRef) (s : jsstring) (i : nat) (rid : Z)
    (caret : nat) (ret : TwRet) (st : State) (ch : N) (e : Elem)
    (Hi : s !! i = Some ch) (Hrid : overlayRunId st = rid)
    (Hel : get_el el st = Some e) :
  let st' := snd (typewriter_loop el s i rid caret ret st) in
  trace st' =
    FxSleep (Fin (char_delay ch)) :: FxAppendChild el caret ::
    FxAppendText el ch :: FxRemove caret :: trace st /\
  pending st' =
    pending st ++ [TTimer (Fin (char_delay ch)) (KChar el s i rid caret ret)] /\
  char_delay ch =
    (if sentence_ending ch || (ch =? 44)%N
     then LINE_TYPE_SPEED_MS + 3 * LINE_TYPE_SPEED_MS
     else LINE_TYPE_SPEED_MS).
Proof.
  intros st'. subst st'.
  rewrite (typewriter_loop_types _ _ _ _ _ _ _ _ _ Hi Hrid Hel), sleep_run.
  simpl. rewrite !trace_upd_el. simpl. rewrite !trace_upd_el. simpl.
  rewrite !pending_upd_el. simpl. rewrite !pending_upd_el. simpl.
  repeat split.
  unfold char_delay, is_pause, sentence_ending, LINE_TYPE_SPEED_MS.
  destruct (ch =? 46)%N, (ch =? 33)%N, (ch =? 63)%N, (ch =? 44)%N; done.
Qed.

Lemma C9_delay_after_char_witness :
  str "a." !! 1%nat = Some 46%N /\
  overlayRunId lines_page = 0 /\
  trace (snd (typewriter_loop RLines (str "a.") 1 0 0 (RetSuccess 0) lines_page)) =
    [FxSleep (Fin 240); FxAppendChild RLines 0; FxAppendText RLines 46;
     FxRemove 0].
Proof.
  split; [reflexivity |]. split; [reflexivity |].
  exact (proj1 (C9_delay_after_char RLines (str "a.") 1 0 0 (RetSuccess 0)
                  lines_page 46%N (new_elem []) eq_refl eq_refl eq_refl)).
Defined.

(** ** Cancelling and hiding *)

Lemma has_class_add c e : has_class c (class_add c e) = true.
Proof.
  unfold class_add. destruct (has_class c e) eqn:H; [done |].
  unfold has_class; simpl. rewrite existsb_app; simpl.
  by rewrite String.eqb_refl, orb_true_r.
Qed.

Lemma class_add_idem c e : class_add c (class_add c e) = class_add c e.
Proof. unfold class_add at 1. by rewrite has_class_add. Qed.

Lemma has_class_set_aria c a e : has_class c (set_aria a e) = has_class c e.
Proof. done. Qed.

Lemma class_add_set_aria c a e :
  class_add c (set_aria a e) = set_aria a (class_add c e).
Proof.
  unfold class_add. rewrite has_class_set_aria. by destruct (has_class c e).
Qed.

Lemma fst_async_call m st : fst (async_call m st) = inr tt.
Proof. unfold async_call. by destruct (m st) as [[?|[]] ?]. Qed.

(** C5: [hideProcessingOverlay] returns normally from every state; it
    increments the run identity, leaves the line container, the legacy text
    and the dots empty and the overlay marked hidden, all before it returns
    (it schedules nothing); a second call changes the run identity only, not
    the page. *)
Theorem C5_hide_clears_and_is_idempotent (st : State) :
  let st1 := snd (hideProcessingOverlay st) in
  let st2 := snd (hideProcessingOverlay st1) in
  fst (hideProcessingOverlay st) = inr tt /\
  overlayRunId st1 = overlayRunId st + 1 /\
  kids <$> processingLines st1 = (fun _ => []) <$> processingLines st /\
  kids <$> processingSub st1 = (fun _ => []) <$> processingSub st /\
  kids <$> dots st1 = (fun _ => []) <$> dots st /\
  concat (shown_lines st1) = [] /\
  has_class "hidden" <$> processingOverlay st1 =
    (fun _ => true) <$> processingOverlay st /\
  ariaHidden <$> processingOverlay st1 =
    (fun _ => Some "true"%string) <$> processingOverlay st /\
  pending st1 = pending st /\
  dom_of st2 = dom_of st1 /\
  lottie st2 = lottie st1 /\
  overlayRunId st2 = overlayRunId st1 + 1.
Proof.
  destruct st as [rid ov ln ti su dt hp [lel wl ol oll] fs tty pd tr].
  destruct ov as [ov|], ln as [ln|], su as [su|], dt as [dt|], ol as [ol|];
    cbn; unfold dom_of; cbn;
    rewrite ?class_add_set_aria, ?has_class_set_aria, ?has_class_add,
      ?class_add_idem; done.
Qed.


Lemma initOverlayLottie_returns st :
  exists st', initOverlayLottie st = (inr tt, st').
Proof.
  unfold initOverlayLottie, bind, gets.
  destruct (overlayLottieLoaded (lottie st)); [by eexists |].
  destruct (lottieOverlayEl (lottie st)) as [url|]; [|by eexists].
  destruct (windowLottie (lottie st)); [|by eexists].
  simpl. destruct (String.eqb url ""); by eexists.
Qed.

Lemma lottie_set_playing_returns b st :
  exists st', lottie_set_playing b st = (inr tt, st').
Proof.
  unfold lottie_set_playing, bind, gets.
  destruct (overlayLottie (lottie st)); by eexists.
Qed.



(** ** What every step of a computation keeps *)

Section Keeps.

Context {P : State -> Prop} {R : State -> State -> Prop} `{!Rely P R}.

Lemma keeps_ret {A} (a : A) : keeps P R (ret a).
  Proof. intros st _. apply rely_refl. Qed.

Lemma keeps_gets {A} (f : State -> A) : keeps P R (gets f).
  Proof. intros st _. apply rely_refl. Qed.

Lemma keeps_lift {A} (r : Exn + A) : keeps P R (lift r).
  Proof. intros st _. apply rely_refl. Qed.

Lemma keeps_present r : keeps P R (present r).
  Proof. apply keeps_gets. Qed.

Lemma keeps_deref r : keeps P R (deref r).
  Proof.
    intros st _. unfold deref. destruct (get_el r st); apply rely_refl.
  Qed.

Lemma keeps_modify f : (forall st, P st -> R st (f st)) -> keeps P R (modify f).
  Proof. intros H st HP. by apply H. Qed.

Lemma keeps_bind {A B} (m : M A) (f : A -> M B) :
    keeps P R m -> (forall a, keeps P R (f a)) -> keeps P R (bind m f).
  Proof.
    intros Hm Hf st HP. unfold bind.
    specialize (Hm st HP). destruct (m st) as [[e|a] st1]; simpl in *; [done |].
    eapply rely_trans; [exact Hm |].
    apply Hf. eapply rely_stable; eauto.
  Qed.

Lemma keeps_when b m : keeps P R m -> keeps P R (when b m).
  Proof. destruct b; [done | intros _; apply keeps_ret]. Qed.

Lemma keeps_async m :
    (forall st, P st -> R st (record FxRejected st)) ->
    keeps P R m -> keeps P R (async_call m).
  Proof.
    intros Hrej Hm st HP. unfold async_call.
    specialize (Hm st HP). destruct (m st) as [[e|a] st1]; simpl in *; [|done].
    eapply rely_trans; [exact Hm |].
    apply Hrej. eapply rely_stable; eauto.
  Qed.

End Keeps.

(** Splitting a computation along its binds and branches; [tac] closes the
    calls it knows. *)
Ltac keeps_split_hook tac hook :=
  repeat first
    [ solve [tac]
    | hook
    | lazymatch goal with
      | |- keeps _ _ (ret _) => apply keeps_ret
      | |- keeps _ _ (gets _) => apply keeps_gets
      | |- keeps _ _ (lift _) => apply keeps_lift
      | |- keeps _ _ (present _) => apply keeps_present
      | |- keeps _ _ (deref _) => apply keeps_deref
      | |- keeps _ _ (bind _ _) => apply keeps_bind; [| intros ?]
      | |- keeps _ _ (when _ _) => apply keeps_when
      | |- keeps _ _ (if ?b then _ else _) => destruct b
      | |- keeps _ _ (match ?x with _ => _ end) => destruct x
      end ].

Ltac keeps_split_with tac := keeps_split_hook tac fail.

Ltac keeps_split := keeps_split_with fail.

(** *** What no computation of the sequencer undoes *)

Lemma evolves_refl st : evolves st st.
Proof.
  split; [lia | by exists [] | exists []; by rewrite app_nil_r | lia | done].
Qed.

Lemma evolves_trans a b c : evolves a b -> evolves b c -> evolves a c.
Proof.
  intros [H1 [t1 H2] [p1 H3] H4 H5] [G1 [t2 G2] [p2 G3] G4 G5]. split.
  - lia.
  - exists (t2 ++ t1). by rewrite G2, H2, app_assoc.
  - exists (p1 ++ p2). by rewrite G3, H3, app_assoc.
  - lia.
  - eauto.
Qed.

#[global] Instance evolves_rely : Rely (fun _ => True) evolves.
Proof. split; [apply evolves_refl | apply evolves_trans | done]. Qed.

Lemma evolves_record fx st : evolves st (record fx st).
Proof.
  split; simpl; [lia | by exists [fx] | exists []; by rewrite app_nil_r | lia |].
  intros r. by rewrite get_el_record.
Qed.

Lemma evolves_upd_el r f st : evolves st (upd_el r f st).
Proof.
  split.
  - rewrite runId_upd_el. lia.
  - exists []. by rewrite trace_upd_el.
  - exists []. by rewrite pending_upd_el, app_nil_r.
  - by rewrite heap_length_upd_el.
  - intros r' [e He]. destruct (decide (r = r')) as [->|Hne].
    + rewrite get_el_upd_el, He. by eexists.
    + rewrite get_el_upd_el_ne, He by done. by eexists.
Qed.

Lemma evolves_map_all f st : evolves st (map_all f st).
Proof.
  split; simpl; [lia | by exists [] | exists []; by rewrite app_nil_r | |].
  - by rewrite length_fmap.
  - intros r [e He]. rewrite get_el_map_all, He. by eexists.
Qed.

Lemma evolves_schedule t st : evolves st (set_pending (pending st ++ [t]) st).
Proof.
  split; simpl; [lia | by exists [] | by exists [t] | lia |].
  intros r. by rewrite get_el_set_pending.
Qed.

Lemma evolves_alloc e st : evolves st (set_heap (heap st ++ [e]) st).
Proof.
  split; simpl; [lia | by exists [] | exists []; by rewrite app_nil_r | |].
  - rewrite length_app. lia.
  - intros [| | | | |id]; simpl; try done.
    intros [x Hx]. exists x. by apply lookup_app_l_Some.
Qed.

Lemma evolves_bump st : evolves st (set_runId (overlayRunId st + 1) st).
Proof.
  split; simpl; [lia | by exists [] | exists []; by rewrite app_nil_r | lia |].
  intros r. by rewrite get_el_set_runId.
Qed.

Lemma evolves_set_lottie l st : evolves st (set_lottie l st).
Proof.
  split; simpl; [lia | by exists [] | exists []; by rewrite app_nil_r | lia |].
  by intros [].
Qed.

Lemma evolves_set_files fs st : evolves st (set_files fs st).
Proof.
  split; simpl; [lia | by exists [] | exists []; by rewrite app_nil_r | lia |].
  by intros [].
Qed.

Lemma evolves_set_trainType t st : evolves st (set_trainType t st).
Proof.
  split; simpl; [lia | by exists [] | exists []; by rewrite app_nil_r | lia |].
  by intros [].
Qed.

Create HintDb evolve.
#[local] Hint Resolve evolves_record evolves_upd_el evolves_map_all
  evolves_schedule evolves_alloc evolves_bump evolves_set_lottie
  evolves_set_files evolves_set_trainType : evolve.

Abbreviation steady := (keeps (fun _ => True) evolves).

Lemma steady_modify (f : State -> State) :
  (forall st, evolves st (f st)) -> steady (modify f).
Proof. intros H. apply keeps_modify. intros st _. apply H. Qed.

Lemma steady_emit fx : steady (emit fx).
Proof. apply steady_modify. auto with evolve. Qed.

Lemma steady_createElement cls : steady (createElement cls).
Proof.
  intros st _. simpl. eapply evolves_trans; [apply evolves_alloc |].
  apply evolves_record.
Qed.
#[local] Hint Resolve steady_emit steady_createElement : evolve.

Ltac steady_go :=
  keeps_split_with ltac:(eauto with evolve);
  try (apply steady_modify; intros; eauto with evolve).

Lemma steady_on_el r f fx : steady (on_el r f fx).
Proof. unfold on_el. steady_go. Qed.
#[local] Hint Resolve steady_on_el : evolve.

Lemma steady_remove id : steady (remove id).
Proof. unfold remove. steady_go. Qed.
#[local] Hint Resolve steady_remove : evolve.

Lemma steady_appendChild r id : steady (appendChild r id).
Proof. unfold appendChild. steady_go. Qed.
#[local] Hint Resolve steady_appendChild : evolve.

Lemma steady_sleep ms k : steady (sleep ms k).
Proof. unfold sleep. steady_go. Qed.
#[local] Hint Resolve steady_sleep : evolve.

Lemma steady_frame n : steady (requestAnimationFrame n).
Proof. unfold requestAnimationFrame. steady_go. Qed.
#[local] Hint Resolve steady_frame : evolve.

Lemma steady_cancel : steady cancelOverlaySequence.
Proof. unfold cancelOverlaySequence. steady_go. Qed.
#[local] Hint Resolve steady_cancel : evolve.

Lemma steady_after_typewriter ret : steady (after_typewriter ret).
Proof. unfold after_typewriter. steady_go. Qed.
#[local] Hint Resolve steady_after_typewriter : evolve.

Lemma steady_typewriter_loop el s i rid caret ret :
  steady (typewriter_loop el s i rid caret ret).
Proof. unfold typewriter_loop, appendText. steady_go. Qed.
#[local] Hint Resolve steady_typewriter_loop : evolve.

Lemma steady_typewriterLine el text rid ret :
  steady (typewriterLine el text rid ret).
Proof. unfold typewriterLine. steady_go. Qed.
#[local] Hint Resolve steady_typewriterLine : evolve.

Lemma steady_overlay_line ctx cur line rest :
  steady (overlay_line ctx cur line rest).
Proof. unfold overlay_line. steady_go. Qed.
#[local] Hint Resolve steady_overlay_line : evolve.

Lemma steady_overlay_loop ctx cur lines : steady (overlay_loop ctx cur lines).
Proof. unfold overlay_loop. steady_go. Qed.
#[local] Hint Resolve steady_overlay_loop : evolve.

Lemma steady_lottie_init : steady initOverlayLottie.
Proof. unfold initOverlayLottie. steady_go. Qed.
#[local] Hint Resolve steady_lottie_init : evolve.

Lemma steady_lottie_play b : steady (lottie_set_playing b).
Proof. unfold lottie_set_playing. steady_go. Qed.
#[local] Hint Resolve steady_lottie_play : evolve.

Lemma steady_hide : steady hideProcessingOverlay.
Proof. unfold hideProcessingOverlay. steady_go. Qed.
#[local] Hint Resolve steady_hide : evolve.

Lemma steady_run lines v : steady (runOverlaySequence_on lines v).
Proof. unfold runOverlaySequence_on, ensureLinesContainer. steady_go. Qed.
#[local] Hint Resolve steady_run : evolve.

Lemma steady_async m : steady m -> steady (async_call m).
Proof. intros H. apply keeps_async; [intros; apply evolves_record | done]. Qed.
#[local] Hint Resolve steady_async : evolve.

Lemma steady_start lines v : steady (showProcessingOverlay_on lines v).
Proof. unfold showProcessingOverlay_on. steady_go. Qed.
#[local] Hint Resolve steady_start : evolve.

Lemma steady_success msg : steady (showProcessingSuccess_with msg).
Proof. unfold showProcessingSuccess_with, ensureLinesContainer. steady_go. Qed.
#[local] Hint Resolve steady_success : evolve.

Lemma steady_resume k : steady (resume k).
Proof.
  destruct k; simpl; unfold clearFilesAfterSuccess, resetTrainingType;
    steady_go.
Qed.
#[local] Hint Resolve steady_resume : evolve.

Lemma steady_run_task t : steady (run_task t).
Proof. destruct t; simpl; steady_go. Qed.
#[local] Hint Resolve steady_run_task : evolve.

Lemma runId_le_fire k st : overlayRunId st <= overlayRunId (fire k st).
Proof.
  unfold fire. destruct (pending st !! k) as [t|]; [|lia].
  change (overlayRunId st) with
    (overlayRunId (set_pending (delete k (pending st)) st)).
  apply ev_runId. exact (steady_async _ (steady_run_task t) _ I).
Qed.

Lemma runId_le_step st ev : overlayRunId st <= overlayRunId (step st ev).
Proof.
  destruct ev; simpl.
  - apply ev_runId. exact (steady_start _ _ _ I).
  - apply ev_runId. exact (steady_async _ (steady_success _) _ I).
  - apply ev_runId. exact (steady_hide _ I).
  - apply runId_le_fire.
Qed.

Lemma runId_le_run_events evs st :
  overlayRunId st <= overlayRunId (run_events evs st).
Proof.
  revert st. induction evs as [|ev evs IH]; intros st; simpl; [lia |].
  etrans; [apply (runId_le_step st ev) | apply IH].
Qed.

(** ** The entry points, run *)

Lemma cancel_run st : cancelOverlaySequence st = (inr tt, cancelled st).
Proof.
  destruct st as [rid ov [ln|] ti [su|] [dt|] hp lo fs tty pd tr];
    vm_compute; reflexivity.
Qed.

Lemma ensure_run st : ensureLinesContainer st = (inr (container_of st), st).
Proof.
  destruct st as [rid ov [ln|] ti [su|] dt hp lo fs tty pd tr]; done.
Qed.

Lemma container_of_present st c :
  container_of st = Some c -> is_Some (get_el c st).
Proof.
  unfold container_of.
  destruct (processingLines st) eqn:H1; [intros [= <-]; simpl; by rewrite H1 |].
  destruct (processingSub st) eqn:H2; [|done].
  intros [= <-]; simpl; by rewrite H2.
Qed.

Lemma run_starts lines v st c n :
  container_of st = Some c ->
  Number (default_param v (VNumber (Fin 1))) = inr n ->
  runOverlaySequence_on lines v st =
    overlay_loop
      (mkRunCtx c (overlayRunId st + 1) (bool_decide (c = RLines))
         (gap_of (count_of n)))
      None lines (started c st).
Proof.
  intros Hc Hn. unfold runOverlaySequence_on.
  rewrite (bind_inr _ _ _ _ _ (ensure_run st)), Hc.
  destruct (container_of_present _ _ Hc) as [e He].
  unfold bind at 1; unfold modify.
  unfold bind at 1; unfold gets.
  unfold bind at 1; unfold emit, modify.
  erewrite bind_inr; last first.
  { apply on_el_some with (e := e).
    by rewrite get_el_record, get_el_set_runId. }
  unfold bind at 1, lift. by rewrite Hn.
Qed.

Lemma overlay_loop_stale ctx cur line rest st :
  runId ctx <> overlayRunId st ->
  overlay_loop ctx cur (line :: rest) st = (inr tt, st).
Proof.
  intros H. unfold overlay_loop, bind, gets.
  by destruct (Z.eqb_spec (runId ctx) (overlayRunId st)).
Qed.

Lemma overlay_loop_current ctx cur line rest st :
  runId ctx = overlayRunId st ->
  overlay_loop ctx cur (line :: rest) st =
    match (if useNodes ctx then cur else None) with
    | Some n =>
        (on_el (RNode n) (class_remove "show") (FxClassRemove (RNode n) "show") >>
         on_el (RNode n) (class_add "hide") (FxClassAdd (RNode n) "hide") >>
         sleep (Fin LINE_FADE_MS) (KFade ctx n line rest)) st
    | None => overlay_line ctx cur line rest st
    end.
Proof.
  intros H. unfold overlay_loop, bind at 1, gets.
  rewrite H, Z.eqb_refl. cbn [negb].
  by destruct (if useNodes ctx then cur else None).
Qed.

(** A computation that has recorded an effect cannot end in the state it
    started from. *)
Lemma steady_moves_on {A} (m : M A) st0 st1 fx r :
  steady m -> trace st1 = fx :: trace st0 -> m st1 <> (r, st0).
Proof.
  intros Hm Htr Heq. destruct (ev_trace _ _ (Hm st1 I)) as [new Hnew].
  rewrite Heq in Hnew; simpl in Hnew. rewrite Htr in Hnew.
  apply (f_equal length) in Hnew. rewrite length_app in Hnew. simpl in Hnew.
  lia.
Qed.

Lemma on_el_then_moves_on r f fx (m : M unit) st :
  steady m -> (on_el r f fx >> m) st <> (inr tt, st).
Proof.
  intros Hm. destruct (get_el r st) as [e|] eqn:He.
  - rewrite (bind_inr _ _ _ _ _ (on_el_some _ f fx _ _ He)).
    apply steady_moves_on with (fx := fx); [done |].
    simpl. by rewrite trace_upd_el.
  - unfold bind. by rewrite (on_el_none _ f fx _ He).
Qed.

Lemma overlay_loop_current_acts ctx cur line rest st :
  runId ctx = overlayRunId st ->
  overlay_loop ctx cur (line :: rest) st <> (inr tt, st).
Proof.
  intros H. rewrite overlay_loop_current by done.
  destruct (if useNodes ctx then cur else None) as [n|].
  - apply on_el_then_moves_on. steady_go.
  - unfold overlay_line. destruct (useNodes ctx).
    + unfold bind at 1, createElement.
      apply steady_moves_on with (fx := FxCreate (length (heap st))); [|done].
      steady_go.
    + unfold typewriterLine. apply on_el_then_moves_on. steady_go.
Qed.

Lemma typewriter_loop_current_acts el s i rid caret ret st ch :
  s !! i = Some ch ->
  rid = overlayRunId st ->
  typewriter_loop el s i rid caret ret st <> after_typewriter ret st.
Proof.
  intros Hi Hrid Heq. unfold typewriter_loop in Heq. rewrite Hi in Heq.
  unfold bind at 1, gets in Heq. rewrite Hrid, Z.eqb_refl in Heq.
  cbn [negb] in Heq.
  rewrite (bind_inr _ _ _ _ _ (remove_run caret st)) in Heq.
  match type of Heq with
  | ?m ?s = _ =>
      assert (Hm : steady m) by (unfold appendText; steady_go);
      destruct (ev_trace _ _ (Hm s I)) as [new Hnew]
  end.
  rewrite Heq, after_typewriter_run in Hnew. simpl in Hnew.
  assert (Hlen : forall ms, FxSleep ms :: trace st <>
                            new ++ FxRemove caret :: trace st).
  { intros ms E. destruct new as [|fx new]; simpl in E; [by inversion E |].
    apply (f_equal length) in E. simpl in E. rewrite length_app in E.
    simpl in E. lia. }
  destruct ret; simpl in Hnew; by eapply Hlen.
Qed.


(** ** The task queue *)

Lemma next_timer_middle rid pre t post :
  quiet rid pre -> timer_of rid t = true ->
  next_timer rid (pre ++ t :: post) = Some (length pre).
Proof.
  intros Hq Ht. induction Hq as [|x pre Hx Hq IH]; simpl.
  - by rewrite Ht.
  - by rewrite Hx, IH.
Qed.

Lemma next_timer_quiet rid l : quiet rid l -> next_timer rid l = None.
Proof.
  intros Hq. induction Hq as [|x l Hx Hq IH]; simpl; [done |].
  by rewrite Hx, IH.
Qed.

Lemma fire_middle st pre t post :
  pending st = pre ++ t :: post ->
  fire (length pre) st =
    snd (async_call (run_task t) (set_pending (pre ++ post) st)).
Proof.
  intros Hp. unfold fire. rewrite Hp.
  rewrite list_lookup_middle by done. by rewrite delete_middle.
Qed.

Lemma advance_middle rid st pre t post :
  pending st = pre ++ t :: post -> quiet rid pre -> timer_of rid t = true ->
  advance rid st =
    snd (async_call (run_task t) (set_pending (pre ++ post) st)).
Proof.
  intros Hp Hq Ht. unfold advance.
  replace (next_timer rid (pending st)) with (Some (length pre))
    by (rewrite Hp; symmetry; by apply next_timer_middle).
  by apply fire_middle.
Qed.

Lemma async_call_inr m st st' :
  m st = (inr tt, st') -> async_call m st = (inr tt, st').
Proof. unfold async_call. by intros ->. Qed.

Lemma quiet_app rid l1 l2 : quiet rid l1 -> quiet rid l2 -> quiet rid (l1 ++ l2).
Proof. apply Forall_app_2. Qed.

(** ** Typing a line to its end *)

Lemma filter_twice {A} (p : A -> bool) (l : list A) :
  List.filter p (List.filter p l) = List.filter p l.
Proof.
  induction l as [|x l IH]; simpl; [done |].
  destruct (p x) eqn:Hx; simpl; [by rewrite Hx, IH | done].
Qed.

Lemma drop_child_idem c e : drop_child c (drop_child c e) = drop_child c e.
Proof. unfold drop_child; simpl. by rewrite filter_twice. Qed.

Lemma same_but_trans el c a b d :
  same_but el c a b -> same_but el c b d -> same_but el c a d.
Proof.
  intros [H1 H2 H3 H4] [G1 G2 G3 G4]. split; try congruence.
  intros r Hr. rewrite G4, H4 by done.
  destruct (get_el r a); simpl; [by rewrite drop_child_idem | done].
Qed.

(** One resumption in the middle of a line. *)
Lemma type_next rid el l i c ret s pre post ms e ch :
  overlayRunId s = rid ->
  pending s = pre ++ TTimer ms (KChar el l i rid c ret) :: post ->
  quiet rid pre ->
  get_el el s = Some e ->
  l !! S i = Some ch ->
  let s' := advance rid s in
  pending s' =
    pre ++ post ++ [TTimer (Fin (char_delay ch)) (KChar el l (S i) rid c ret)] /\
  get_el el s' =
    Some (push_child (CElem c) (drop_child c
            (push_child (CText ch) (drop_child c e)))) /\
  same_but el c s s' /\
  trace s' =
    FxSleep (Fin (char_delay ch)) :: FxAppendChild el c ::
    FxAppendText el ch :: FxRemove c :: trace s.
Proof.
  intros Hrid Hp Hq He Hch s'. subst s'.
  rewrite (advance_middle rid s pre _ post Hp Hq)
    by (simpl; apply Z.eqb_refl).
  simpl run_task.
  erewrite async_call_inr; last first.
  { erewrite typewriter_loop_types; [apply sleep_run | done | done |].
    by rewrite get_el_set_pending. }
  cbn [snd]. split; [|split; [|split]]; [| | |by autorewrite with st].
  - autorewrite with st. by rewrite <- app_assoc.
  - autorewrite with st. by rewrite He.
  - split; autorewrite with st; try done.
    intros r Hr. autorewrite with st.
    rewrite get_el_upd_el_ne by done. autorewrite with st.
    rewrite get_el_upd_el_ne by done. autorewrite with st.
    destruct (get_el r s); simpl; [by rewrite drop_child_idem | done].
Qed.

(** The resumption after the last character. *)
Lemma type_last rid el l i c ret s pre post ms e :
  overlayRunId s = rid ->
  pending s = pre ++ TTimer ms (KChar el l i rid c ret) :: post ->
  quiet rid pre ->
  get_el el s = Some e ->
  l !! S i = None ->
  let s' := advance rid s in
  pending s' = pre ++ post ++ [after_timer ret] /\
  get_el el s' = Some (drop_child c e) /\
  same_but el c s s' /\
  trace s' = (match after_timer ret with
              | TTimer g _ => FxSleep g
              | TFrame n => FxFrame n
              end) :: FxRemove c :: trace s.
Proof.
  intros Hrid Hp Hq He Hch s'. subst s'.
  rewrite (advance_middle rid s pre _ post Hp Hq)
    by (simpl; apply Z.eqb_refl).
  simpl run_task.
  erewrite async_call_inr; last first.
  { rewrite typewriter_loop_end by done. apply after_typewriter_run. }
  cbn [snd]. rewrite (app_assoc pre post).
  assert (Hshape : forall g k,
    let s' := record (FxSleep g)
                (set_pending ((pre ++ post) ++ [TTimer g k])
                   (record (FxRemove c)
                      (map_all (drop_child c) (set_pending (pre ++ post) s)))) in
    pending s' = (pre ++ post) ++ [TTimer g k] /\
    get_el el s' = Some (drop_child c e) /\
    same_but el c s s' /\
    trace s' = FxSleep g :: FxRemove c :: trace s).
  { intros g k s'. subst s'. split; [|split; [|split]].
    - by autorewrite with st.
    - autorewrite with st. by rewrite He.
    - split; autorewrite with st; try done.
      intros r Hr. by autorewrite with st.
    - by autorewrite with st. }
  destruct ret; apply Hshape.
Qed.

(** From any point inside a line, the run's own timers type the rest of the
    line, one character per resumption, and leave the caller's timer. *)
Lemma typing_completes rid el l c ret :
  forall k i s pre ms e,
    (i + k = length l)%nat -> (0 < k)%nat ->
    overlayRunId s = rid ->
    pending s = pre ++ [TTimer ms (KChar el l i rid c ret)] ->
    quiet rid pre ->
    get_el el s = Some e ->
    let sG := Nat.iter k (advance rid) s in
    pending sG = pre ++ [after_timer ret] /\
    (exists e', get_el el sG = Some e' /\
                textContent e' = textContent e ++ drop (S i) l) /\
    same_but el c s sG /\
    chars_of (trace sG) = chars_of (trace s) ++ drop (S i) l.
Proof.
  induction k as [|k IH]; intros i s pre ms e Hik Hk Hrid Hp Hq He; [lia |].
  rewrite Nat.iter_succ_r.
  destruct (l !! S i) as [ch|] eqn:Hch.
  - destruct (type_next rid el l i c ret s pre [] ms e ch Hrid Hp Hq He Hch)
      as (Hp1 & He1 & Hsb1 & Htr1).
    apply lookup_lt_Some in Hch as Hlt.
    destruct (IH (S i) (advance rid s) pre _ _ ltac:(lia) ltac:(lia)
                ltac:(by rewrite (sb_runId _ _ _ _ Hsb1)) Hp1 Hq He1)
      as (Hp2 & (e2 & He2 & Ht2) & Hsb2 & Htr2).
    split; [done |]. split; [|split].
    + exists e2. split; [done |]. rewrite Ht2.
      rewrite textContent_push_elem, textContent_drop_child,
        textContent_push_text, textContent_drop_child.
      rewrite (drop_S _ _ _ Hch). by rewrite <- app_assoc.
    + by eapply same_but_trans.
    + rewrite Htr2, Htr1. simpl. rewrite (drop_S _ _ _ Hch).
      by rewrite <- app_assoc.
  - apply lookup_ge_None in Hch as Hge.
    assert (k = 0)%nat as -> by lia. simpl.
    destruct (type_last rid el l i c ret s pre [] ms e Hrid Hp Hq He Hch)
      as (Hp1 & He1 & Hsb1 & Htr1).
    rewrite drop_ge by lia. rewrite !app_nil_r.
    split; [done |]. split; [|split; [done |]].
    + exists (drop_child c e). by rewrite textContent_drop_child.
    + rewrite Htr1. by destruct (after_timer ret).
Qed.

Lemma get_el_alloc r h e' st e :
  h = heap st ->
  get_el r st = Some e -> get_el r (set_heap (h ++ [e']) st) = Some e.
Proof.
  intros ->. destruct r; simpl; try done. intros H. by apply lookup_app_l_Some.
Qed.

Lemma get_el_alloc_new h e' st :
  get_el (RNode (length h)) (set_heap (h ++ [e']) st) = Some e'.
Proof. simpl. by rewrite list_lookup_middle. Qed.

Lemma get_el_alloc_other r h e' st :
  h = heap st ->
  r <> RNode (length h) ->
  get_el r (set_heap (h ++ [e']) st) = get_el r st.
Proof.
  intros ->. destruct r as [| | | | |id]; simpl; try done. intros Hne.
  destruct (decide (id < length (heap st))%nat) as [Hlt|Hge].
  - by rewrite lookup_app_l.
  - rewrite !lookup_ge_None_2; [done | lia |].
    rewrite length_app; simpl.
    assert (id <> length (heap st)) by congruence. lia.
Qed.

(** [typewriterLine] up to its loop: the element is emptied and gets a new
    caret, allocated at the end of the heap. *)
Lemma typewriterLine_run el l rid ret x e0 :
  get_el el x = Some e0 ->
  let x1 := record (FxClear el) (upd_el el (set_kids []) x) in
  let c := length (heap x1) in
  typewriterLine el l rid ret x =
    typewriter_loop el l 0 rid c ret
      (record (FxAppendChild el c)
         (upd_el el (push_child (CElem c))
            (map_all (drop_child c)
               (record (FxCreate c)
                  (set_heap (heap x1 ++ [new_elem ["tw-caret"%string]]) x1))))).
Proof.
  intros He x1 c. unfold typewriterLine.
  rewrite (bind_inr _ _ _ _ _ (on_el_some _ _ _ _ _ He)).
  fold x1. unfold bind at 1. unfold createElement at 1. fold c.
  erewrite bind_inr; [done |].
  eapply appendChild_some. rewrite get_el_record.
  apply get_el_alloc; [done |]. subst x1. autorewrite with st. by rewrite He.
Qed.

(** A whole line: from the call of [typewriterLine] on, the run's own
    timers reveal exactly the characters of the line in [el], touch no other
    element but for a child that is the new caret, and leave the caller's
    timer in the queue. *)
Lemma line_typed rid el l ret x e0 :
  overlayRunId x = rid ->
  get_el el x = Some e0 ->
  quiet rid (pending x) ->
  let c := length (heap x) in
  let sG := Nat.iter (length l) (advance rid) (snd (typewriterLine el l rid ret x)) in
  fst (typewriterLine el l rid ret x) = inr tt /\
  pending sG = pending x ++ [after_timer ret] /\
  (exists e', get_el el sG = Some e' /\ textContent e' = l) /\
  overlayRunId sG = rid /\
  selectedFiles sG = selectedFiles x /\
  length (heap sG) = S (length (heap x)) /\
  (forall r, r <> el -> r <> RNode c ->
             get_el r sG = drop_child c <$> get_el r x) /\
  chars_of (trace sG) = chars_of (trace x) ++ l.
Proof.
  intros Hrid He Hq c sG.
  pose proof (typewriterLine_run el l rid ret x e0 He) as Hrun.
  cbv zeta in Hrun.
  assert (Hc : length (heap (record (FxClear el) (upd_el el (set_kids []) x))) = c)
    by (by autorewrite with st).
  rewrite Hc in Hrun.
  set (x3 := record (FxAppendChild el c) _) in Hrun.
  assert (Hrid3 : overlayRunId x3 = rid) by (subst x3; by autorewrite with st).
  assert (Hp3 : pending x3 = pending x) by (subst x3; by autorewrite with st).
  assert (Hf3 : selectedFiles x3 = selectedFiles x)
    by (subst x3; by autorewrite with st).
  assert (Hh3 : length (heap x3) = S c).
  { subst x3. autorewrite with st. rewrite length_app; simpl.
    autorewrite with st. subst c. lia. }
  assert (Htr3 : chars_of (trace x3) = chars_of (trace x))
    by (subst x3; by autorewrite with st).
  assert (He3 : exists e3, get_el el x3 = Some e3 /\ textContent e3 = []).
  { subst x3. autorewrite with st.
    erewrite get_el_alloc; [| by autorewrite with st |]; last first.
    { autorewrite with st. by rewrite He. }
    eexists. split; [done |].
    by rewrite textContent_push_elem, textContent_drop_child. }
  destruct He3 as (e3 & He3 & Ht3).
  assert (Ho3 : forall r, r <> el -> r <> RNode c ->
                  get_el r x3 = drop_child c <$> get_el r x).
  { intros r Hr Hrc. subst x3. autorewrite with st.
    rewrite get_el_upd_el_ne by done. autorewrite with st.
    rewrite get_el_alloc_other;
      [| by autorewrite with st | by autorewrite with st].
    autorewrite with st. by rewrite get_el_upd_el_ne by done. }
  clearbody x3. subst sG. rewrite Hrun.
  destruct l as [|ch l'].
  - (* the empty line: nothing to type *)
    simpl. rewrite typewriter_loop_end by done.
    rewrite after_typewriter_run. simpl. split; [done |].
    assert (Hshape : forall g k,
      let s' := record (FxSleep g)
                  (set_pending (pending (record (FxRemove c)
                                  (map_all (drop_child c) x3)) ++ [TTimer g k])
                     (record (FxRemove c) (map_all (drop_child c) x3))) in
      pending s' = pending x ++ [TTimer g k] /\
      (exists e', get_el el s' = Some e' /\ textContent e' = []) /\
      overlayRunId s' = rid /\
      selectedFiles s' = selectedFiles x /\
      length (heap s') = S (length (heap x)) /\
      (forall r, r <> el -> r <> RNode c ->
                 get_el r s' = drop_child c <$> get_el r x) /\
      chars_of (trace s') = chars_of (trace x) ++ []).
    { intros g k s'. subst s'. autorewrite with st. rewrite Hp3, He3.
      split; [done |]. split.
      { eexists. split; [done |]. by rewrite textContent_drop_child. }
      split; [done |]. split; [done |]. split; [by rewrite Hh3 |].
      split; [|by rewrite app_nil_r].
      intros r Hr Hrc. autorewrite with st. rewrite Ho3 by done.
      destruct (get_el r x); simpl; [by rewrite drop_child_idem | done]. }
    destruct ret; apply Hshape.
  - (* the first character is typed at once, the others by the timers *)
    erewrite typewriter_loop_types; [| done | done | exact He3].
    rewrite sleep_run. cbn [snd fst]. split; [done |].
    set (x4 := record (FxSleep _) _).
    edestruct (typing_completes rid el (ch :: l') c ret (length (ch :: l'))
                 0%nat x4 (pending x) (Fin (char_delay ch)))
      as (Hp5 & (e5 & He5 & Ht5) & Hsb5 & Htr5).
    + done.
    + simpl; lia.
    + subst x4. by autorewrite with st.
    + subst x4. autorewrite with st. by rewrite Hp3.
    + done.
    + subst x4. autorewrite with st. by rewrite He3.
    + split; [done |]. split; [|split; [|split; [|split; [|split]]]].
      * exists e5. split; [done |]. rewrite Ht5.
        rewrite textContent_push_elem, textContent_drop_child,
          textContent_push_text, textContent_drop_child, Ht3.
        done.
      * rewrite (sb_runId _ _ _ _ Hsb5). subst x4. by autorewrite with st.
      * rewrite (sb_files _ _ _ _ Hsb5). subst x4. by autorewrite with st.
      * rewrite (sb_heap _ _ _ _ Hsb5). subst x4. autorewrite with st.
        by rewrite Hh3.
      * intros r Hr Hrc. rewrite (sb_others _ _ _ _ Hsb5) by done.
        subst x4. autorewrite with st.
        rewrite get_el_upd_el_ne by done. autorewrite with st.
        rewrite get_el_upd_el_ne by done. autorewrite with st.
        rewrite Ho3 by done.
        destruct (get_el r x); simpl; [by rewrite !drop_child_idem | done].
      * rewrite Htr5. subst x4. autorewrite with st. simpl.
        rewrite Htr3. by rewrite <- app_assoc.
Qed.

(** ** A line in a node of its own *)

Lemma drop_child_other c m e :
  kids e = [CElem m] -> c <> m -> kids (drop_child c e) = [CElem m].
Proof.
  intros Hk Hne. unfold drop_child; simpl. rewrite Hk; simpl.
  destruct (Nat.eqb_spec c m); [done | done].
Qed.

Lemma drop_child_none c e : kids e = [] -> kids (drop_child c e) = [].
Proof. intros Hk. unfold drop_child; simpl. by rewrite Hk. Qed.

Lemma drop_child_self m e : kids e = [CElem m] -> kids (drop_child m e) = [].
Proof.
  intros Hk. unfold drop_child; simpl. rewrite Hk; simpl.
  by rewrite Nat.eqb_refl.
Qed.

Lemma with_node_facts cls x eL :
  processingLines x = Some eL -> kids eL = [] ->
  let m := length (heap x) in
  let y := with_node cls x in
  overlayRunId y = overlayRunId x /\
  pending y = pending x /\
  selectedFiles y = selectedFiles x /\
  trace y = FxAppendChild RLines m :: FxCreate m :: trace x /\
  length (heap y) = S m /\
  get_el (RNode m) y = Some (new_elem cls) /\
  (exists e, processingLines y = Some e /\ kids e = [CElem m]) /\
  processingSub y = drop_child m <$> processingSub x /\
  processingOverlay y = drop_child m <$> processingOverlay x.
Proof.
  intros HL Hk m y. subst y. unfold with_node. fold m.
  repeat split; try done.
  - simpl. rewrite length_fmap, length_app. simpl. lia.
  - simpl. rewrite list_lookup_fmap. subst m. by rewrite list_lookup_middle.
  - simpl. rewrite HL. simpl. eexists. split; [done |].
    simpl. by rewrite Hk.
Qed.

Lemma node_line_shown rid l ret y m e :
  overlayRunId y = rid ->
  quiet rid (pending y) ->
  get_el (RNode m) y = Some e ->
  (exists eL, processingLines y = Some eL /\ kids eL = [CElem m]) ->
  length (heap y) = S m ->
  let sG := Nat.iter (length l) (advance rid)
              (snd (typewriterLine (RNode m) l rid ret y)) in
  fst (typewriterLine (RNode m) l rid ret y) = inr tt /\
  pending sG = pending y ++ [after_timer ret] /\
  shown_lines sG = [l] /\
  overlayRunId sG = rid /\
  selectedFiles sG = selectedFiles y /\
  chars_of (trace sG) = chars_of (trace y) ++ l /\
  (exists eL, processingLines sG = Some eL /\ kids eL = [CElem m]) /\
  is_Some (heap sG !! m) /\
  processingOverlay sG = drop_child (S m) <$> processingOverlay y.
Proof.
  intros Hrid Hq He (eL & HL & Hk) Hh sG.
  destruct (line_typed rid (RNode m) l ret y e Hrid He Hq)
    as (H0 & H1 & (e' & He' & Ht') & H3 & H4 & H5 & H6 & H7).
  fold sG in H1, He', H3, H4, H5, H6, H7. rewrite Hh in H6.
  clearbody sG. change (heap sG !! m = Some e') in He'.
  assert (HL' : processingLines sG = Some (drop_child (S m) eL)).
  { specialize (H6 RLines ltac:(done) ltac:(done)). simpl in H6.
    by rewrite H6, HL. }
  split; [done |]. split; [done |]. split.
  { unfold shown_lines. rewrite HL'.
    rewrite (drop_child_other _ _ _ Hk) by lia.
    unfold line_texts. simpl. rewrite He'. simpl. by rewrite Ht'. }
  split; [done |]. split; [done |]. split; [done |]. split.
  { eexists. split; [done |]. apply drop_child_other; [done | lia]. }
  split; [by rewrite He' |].
  by specialize (H6 ROverlay ltac:(done) ltac:(done)).
Qed.

Lemma overlay_line_nodes ctx cur l rest x eL :
  useNodes ctx = true -> container ctx = RLines ->
  processingLines x = Some eL ->
  let m := length (heap x) in
  overlay_line ctx cur l rest x =
    typewriterLine (RNode m) l (runId ctx) (RetOverlay ctx (Some m) rest)
      (record (FxFrame m)
         (set_pending (pending x ++ [TFrame m])
            (with_node ["status-line"%string] x))).
Proof.
  intros Hn Hc HL m. unfold overlay_line. rewrite Hn, Hc.
  unfold bind at 1, createElement. fold m.
  erewrite bind_inr; last first.
  { eapply appendChild_some. simpl. exact HL. }
  unfold requestAnimationFrame, bind, modify, emit. simpl.
  by autorewrite with st.
Qed.

(** ** A run followed through its lines *)

Lemma async_call_snd m s :
  fst (m s) = inr tt -> snd (async_call m s) = snd (m s).
Proof. unfold async_call. destruct (m s) as [[?|[]] ?]; by simpl. Qed.

Lemma quiet_snoc_frame rid l n : quiet rid l -> quiet rid (l ++ [TFrame n]).
Proof. intros H. apply quiet_app; [done |]. by repeat constructor. Qed.

(** The gap timer fires: the run re-enters its loop. *)
Lemma gap_fires rid ctx cur rest sG pre :
  runId ctx = rid ->
  pending sG = pre ++ [TTimer (gapMs ctx) (KGap ctx cur rest)] ->
  quiet rid pre ->
  fst (overlay_loop ctx cur rest (set_pending pre sG)) = inr tt ->
  advance rid sG = snd (overlay_loop ctx cur rest (set_pending pre sG)).
Proof.
  intros Hctx Hp Hq Hfst.
  rewrite (advance_middle rid sG pre _ [] Hp Hq)
    by (simpl; rewrite Hctx; apply Z.eqb_refl).
  rewrite app_nil_r. by apply async_call_snd.
Qed.

(** A line of the multi-node path, from the creation of its node. *)
Lemma node_line_from rid ctx l rest x eL :
  overlayRunId x = rid -> runId ctx = rid ->
  useNodes ctx = true -> container ctx = RLines ->
  quiet rid (pending x) ->
  processingLines x = Some eL -> kids eL = [] ->
  let m := length (heap x) in
  let sG := Nat.iter (length l) (advance rid)
              (snd (overlay_line ctx None l rest x)) in
  fst (overlay_line ctx None l rest x) = inr tt /\
  pending sG =
    (pending x ++ [TFrame m]) ++ [TTimer (gapMs ctx) (KGap ctx (Some m) rest)] /\
  shown_lines sG = [l] /\
  overlayRunId sG = rid /\
  selectedFiles sG = selectedFiles x /\
  chars_of (trace sG) = chars_of (trace x) ++ l /\
  (exists e, processingLines sG = Some e /\ kids e = [CElem m]) /\
  is_Some (heap sG !! m).
Proof.
  intros Hrid Hctx Hn Hc Hq HL Hk m sG. subst sG.
  rewrite (overlay_line_nodes ctx None l rest x eL Hn Hc HL). fold m.
  destruct (with_node_facts ["status-line"%string] x eL HL Hk)
    as (W1 & W2 & W3 & W4 & W5 & W6 & W7 & _).
  fold m in W4, W5, W6, W7.
  set (y := record (FxFrame m) _).
  edestruct (node_line_shown rid l (RetOverlay ctx (Some m) rest) y m)
    as (N0 & N1 & N2 & N3 & N4 & N5 & N6 & N7 & _).
  - subst y. autorewrite with st. congruence.
  - subst y. autorewrite with st. rewrite ?W2. by apply quiet_snoc_frame.
  - subst y. autorewrite with st. exact W6.
  - subst y. exact W7.
  - subst y. by autorewrite with st.
  - rewrite Hctx. split; [done |]. split.
    { rewrite N1. subst y. autorewrite with st. by rewrite ?W2. }
    split; [done |]. split; [done |]. split.
    { rewrite N4. subst y. by autorewrite with st. }
    split; [|done].
    rewrite N5. subst y. autorewrite with st. rewrite ?W4. done.
Qed.

Lemma narrates_loop rid ctx nodes :
  forall lines first cur s,
    at_loop rid ctx nodes first cur s ->
    fst (overlay_loop ctx cur lines s) = inr tt /\
    narrates rid nodes first lines (chars_of (trace s)) (selectedFiles s)
      (snd (overlay_loop ctx cur lines s)).
Proof.
  induction lines as [|l rest IH]; intros first cur s [Hrid Hctx Hn Hq Hpage].
  { simpl. split; [done |]. split; [by apply next_timer_quiet | done]. }
  rewrite overlay_loop_current by congruence. rewrite Hn.
  destruct nodes.
  - (* the multi-node path *)
    destruct Hpage as (Hc & eL & HL & Hfirst).
    destruct first.
    + (* the first line: no fade *)
      destruct Hfirst as (-> & Hk).
      destruct (node_line_from rid ctx l rest s eL Hrid Hctx Hn Hc Hq HL Hk)
        as (F0 & F1 & F2 & F3 & F4 & F5 & (e1 & F6 & F7) & F8).
      split; [done |]. cbn [narrates andb negb]. cbn [Nat.add].
      split; [done |]. split; [done |]. split; [done |].
      set (sG := Nat.iter _ _ _) in *. clearbody sG.
      set (pre := pending s ++ [TFrame (length (heap s))]) in *.
      destruct (IH false (Some (length (heap s))) (set_pending pre sG))
        as (I0 & I1).
      { split; try done; [by apply quiet_snoc_frame |].
        split; [done |]. exists e1. split; [done |]. by eexists. }
      rewrite (gap_fires rid ctx _ rest sG pre Hctx F1) by
        (done || by apply quiet_snoc_frame).
      autorewrite with st in I1. by rewrite F5, F4 in I1.
    + (* a later line: the previous node fades out and is removed *)
      destruct Hfirst as (n & -> & Hk & en & Hen).
      erewrite bind_inr; last first.
      { eapply on_el_some. exact Hen. }
      erewrite bind_inr; last first.
      { eapply on_el_some. autorewrite with st. simpl. by rewrite Hen. }
      rewrite sleep_run. cbn [fst snd]. split; [done |].
      set (s1 := record (FxSleep _) _).
      cbn [narrates andb negb].
      change (1 + length l)%nat with (S (length l)).
      rewrite Nat.iter_succ_r.
      assert (Hadv : advance rid s1 =
        snd (async_call (resume (KFade ctx n l rest))
               (set_pending (pending s) s1))).
      { rewrite (advance_middle rid s1 (pending s)
                   (TTimer (Fin LINE_FADE_MS) (KFade ctx n l rest)) []);
          [by rewrite app_nil_r | | done |].
        - subst s1. by autorewrite with st.
        - simpl. rewrite Hctx. apply Z.eqb_refl. }
      set (x0 := record (FxRemove n)
                   (map_all (drop_child n) (set_pending (pending s) s1))).
      assert (Hres : resume (KFade ctx n l rest) (set_pending (pending s) s1) =
                     overlay_line ctx None l rest x0).
      { cbn [resume]. by rewrite (bind_inr _ _ _ _ _ (remove_run n _)). }
      assert (X1 : overlayRunId x0 = rid)
        by (subst x0 s1; by autorewrite with st).
      assert (X2 : pending x0 = pending s)
        by (subst x0 s1; by autorewrite with st).
      assert (X3 : selectedFiles x0 = selectedFiles s)
        by (subst x0 s1; by autorewrite with st).
      assert (X4 : chars_of (trace x0) = chars_of (trace s))
        by (subst x0 s1; by autorewrite with st).
      assert (X5 : processingLines x0 = Some (drop_child n eL)).
      { subst x0 s1. simpl. by rewrite HL. }
      clearbody x0.
      destruct (node_line_from rid ctx l rest x0 (drop_child n eL))
        as (F0 & F1 & F2 & F3 & F4 & F5 & (e1 & F6 & F7) & F8);
        try done.
      { by rewrite X2. }
      { by apply drop_child_self. }
      rewrite async_call_snd in Hadv by (by rewrite Hres).
      rewrite Hadv, Hres.
      split; [done |]. split; [by rewrite F5, X4 |]. split; [done |].
      set (sG := Nat.iter _ _ _) in *. clearbody sG.
      rewrite X2 in F1.
      set (pre := pending s ++ [TFrame (length (heap x0))]) in *.
      destruct (IH false (Some (length (heap x0))) (set_pending pre sG))
        as (I0 & I1).
      { split; try done; [by apply quiet_snoc_frame |].
        split; [done |]. exists e1. split; [done |]. by eexists. }
      rewrite (gap_fires rid ctx _ rest sG pre Hctx F1) by
        (done || by apply quiet_snoc_frame).
      autorewrite with st in I1. by rewrite F5, F4, X4, X3 in I1.
  - (* the legacy path: every line is typed into processingSub *)
    destruct Hpage as (Hc & -> & HL & (eS & HS)).
    unfold overlay_line. rewrite Hn, Hc.
    destruct (line_typed rid RSub l (RetOverlay ctx None rest) s eS)
      as (T0 & T1 & (e' & Te & Tt) & T3 & T4 & T5 & T6 & T7); try done.
    rewrite Hctx. split; [done |].
    cbn [narrates andb Nat.add].
    set (sG := Nat.iter _ _ _) in *. clearbody sG.
    assert (HL' : processingLines sG = None).
    { specialize (T6 RLines ltac:(done) ltac:(done)). simpl in T6.
      by rewrite T6, HL. }
    split.
    { unfold shown_lines. rewrite HL'. simpl in Te. by rewrite Te, Tt. }
    split; [done |]. split; [done |].
    destruct (IH false None (set_pending (pending s) sG)) as (I0 & I1).
    { by split. }
    simpl in T1.
    rewrite (gap_fires rid ctx _ rest sG (pending s) Hctx T1) by done.
    autorewrite with st in I1. by rewrite T7, T4 in I1.
Qed.

(** ** Starting a run *)

Lemma initOverlayLottie_run st :
  exists l, initOverlayLottie st = (inr tt, set_lottie l st).
Proof.
  unfold initOverlayLottie, bind, gets.
  assert (Hid : set_lottie (lottie st) st = st) by (by destruct st).
  destruct (overlayLottieLoaded (lottie st));
    [exists (lottie st); by rewrite Hid |].
  destruct (lottieOverlayEl (lottie st)) as [url|];
    [|exists (lottie st); by rewrite Hid].
  destruct (windowLottie (lottie st));
    [|exists (lottie st); by rewrite Hid].
  simpl. destruct (String.eqb url "");
    [exists (lottie st); by rewrite Hid | by eexists].
Qed.

Lemma lottie_set_playing_run b st :
  exists l, lottie_set_playing b st = (inr tt, set_lottie l st).
Proof.
  unfold lottie_set_playing, bind, gets.
  assert (Hid : set_lottie (lottie st) st = st) by (by destruct st).
  destruct (overlayLottie (lottie st));
    [by eexists | exists (lottie st); by rewrite Hid].
Qed.

Lemma has_class_remove c e : has_class c (class_remove c e) = false.
Proof.
  unfold has_class, class_remove; simpl.
  induction (classes e) as [|d cs IH]; simpl; [done |].
  destruct (String.eqb c d) eqn:Hd; simpl; [done | by rewrite Hd].
Qed.

Lemma default_param_twice v d :
  default_param (default_param v d) d = default_param v d.
Proof. by destruct v, d. Qed.

(** [showProcessingOverlay] up to its call of [runOverlaySequence]. *)
Lemma start_prefix lines v st ov :
  processingOverlay st = Some ov ->
  exists st5,
    showProcessingOverlay_on lines v st =
      async_call (runOverlaySequence_on lines (default_param v (VNumber (Fin 1)))) st5 /\
    overlayRunId st5 = overlayRunId st + 1 /\
    pending st5 = pending st /\
    selectedFiles st5 = selectedFiles st /\
    chars_of (trace st5) = chars_of (trace st) /\
    heap st5 = heap st /\
    processingLines st5 = set_kids [] <$> processingLines st /\
    processingSub st5 = set_kids [] <$> processingSub st /\
    processingOverlay st5 =
      Some (set_aria "false" (class_remove "hidden" ov)).
Proof.
  intros Hov. unfold showProcessingOverlay_on.
  destruct st as [rid ov' ln ti su dt hp lo fs tty pd tr].
  simpl in Hov. subst ov'.
  destruct ln as [ln|], ti as [ti|], su as [su|], dt as [dt|];
    cbn -[async_call runOverlaySequence_on initOverlayLottie
          lottie_set_playing];
    match goal with
    | |- exists _, bind initOverlayLottie _ ?s = _ /\ _ =>
        destruct (initOverlayLottie_run s) as [l1 H1];
        rewrite (bind_inr _ _ _ _ _ H1);
        destruct (lottie_set_playing_run true (set_lottie l1 s)) as [l2 H2];
        rewrite (bind_inr _ _ _ _ _ H2)
    end;
    eexists; (split; [reflexivity |]); done.
Qed.

Lemma container_of_cleared st5 st c :
  processingLines st5 = set_kids [] <$> processingLines st ->
  processingSub st5 = set_kids [] <$> processingSub st ->
  container_of st = Some c -> container_of st5 = Some c.
Proof.
  unfold container_of. intros -> ->.
  by destruct (processingLines st), (processingSub st).
Qed.

(** A run nobody supersedes narrates every line. *)
Lemma start_narrates lines v st ov c n :
  processingOverlay st = Some ov ->
  container_of st = Some c ->
  Number (default_param v (VNumber (Fin 1))) = inr n ->
  quiet (overlayRunId st + 2) (pending st) ->
  narrates (overlayRunId st + 2) (bool_decide (c = RLines)) true lines
    (chars_of (trace st)) (selectedFiles st)
    (snd (showProcessingOverlay_on lines v st)).
Proof.
  intros Hov Hc Hn Hq.
  destruct (start_prefix lines v st ov Hov)
    as (st5 & -> & S1 & S2 & S3 & S4 & S5 & S6 & S7 & S8).
  pose proof (container_of_cleared _ _ _ S6 S7 Hc) as Hc5.
  pose proof (run_starts lines (default_param v (VNumber (Fin 1))) st5 c n Hc5)
    as Hrun.
  rewrite default_param_twice in Hrun. specialize (Hrun Hn).
  set (ctx := mkRunCtx _ _ _ _) in Hrun.
  destruct (narrates_loop (overlayRunId st + 2) ctx (bool_decide (c = RLines))
              lines true None (started c st5)) as (N0 & N1).
  { split.
    - unfold started, bumped. autorewrite with st. simpl. lia.
    - simpl. lia.
    - done.
    - unfold started, bumped. autorewrite with st. simpl. by rewrite S2.
    - unfold container_of in Hc.
      destruct (processingLines st) as [eL|] eqn:HL.
      + injection Hc as <-. rewrite bool_decide_eq_true_2 by done.
        split; [done |]. unfold started, bumped. simpl. rewrite S6. simpl.
        by eexists.
      + destruct (processingSub st) as [eS|] eqn:HS; [|done].
        injection Hc as <-. rewrite bool_decide_eq_false_2 by done.
        unfold started, bumped. simpl. rewrite S6, S7. simpl.
        split; [done |]. split; [done |]. split; [done |]. by eexists. }
  rewrite async_call_snd by (by rewrite Hrun).
  rewrite Hrun.
  replace (chars_of (trace st)) with (chars_of (trace (started c st5))).
  - replace (selectedFiles st) with (selectedFiles (started c st5)); [done |].
    unfold started, bumped. by autorewrite with st.
  - unfold started, bumped. autorewrite with st. simpl. done.
Qed.

(** Where a narrated run ends. *)
Lemma narrates_end rid nodes :
  forall lines first typed files s,
    narrates rid nodes first lines typed files s ->
    let s_end := Nat.iter (run_ticks nodes first lines) (advance rid) s in
    next_timer rid (pending s_end) = None /\
    overlayRunId s_end = rid /\
    chars_of (trace s_end) = typed ++ concat lines /\
    selectedFiles s_end = files.
Proof.
  induction lines as [|l rest IH]; intros first typed files s H; simpl in *.
  - by rewrite app_nil_r.
  - destruct H as (_ & _ & _ & H).
    rewrite Nat.iter_add. simpl.
    specialize (IH false _ _ _ H). simpl in IH.
    by rewrite <- app_assoc in IH.
Qed.



(** ** What a superseded task can still do

    A task whose run identity is no longer the current one appends no
    character when it runs. *)

#[global] Instance silent_rely : Rely (fun _ => True) silent.
Proof.
  split; unfold silent; [done | intros a b c; congruence | done].
Qed.

#[global] Instance held_rely_any : Rely (fun _ => True) held.
Proof.
  split; unfold held, silent; [done | | done].
  intros a b c [] []; split; congruence.
Qed.

#[global] Instance held_rely rid : Rely (fun st => overlayRunId st <> rid) held.
Proof.
  split; unfold held, silent; [done | |].
  - intros a b c [] []; split; congruence.
  - intros a b Ha []. congruence.
Qed.

Section Held.

Context {P : State -> Prop} `{!Rely P held}.

Lemma held_modify f :
    (forall st, overlayRunId (f st) = overlayRunId st /\
                chars_of (trace (f st)) = chars_of (trace st)) ->
    keeps P held (modify f).
  Proof. intros H. apply keeps_modify. intros st _. apply H. Qed.

Lemma held_emit fx : is_text fx = false -> keeps P held (emit fx).
  Proof.
    intros Hfx. apply held_modify. intros st. split; [done |].
    by destruct fx.
  Qed.

Lemma held_on_el r f fx : is_text fx = false -> keeps P held (on_el r f fx).
  Proof.
    intros Hfx. unfold on_el.
    keeps_split_with ltac:(by apply held_emit);
      try (apply held_modify; intros st; by autorewrite with st).
  Qed.

Lemma held_createElement cls : keeps P held (createElement cls).
  Proof. intros st _. by split. Qed.

Lemma held_remove id : keeps P held (remove id).
  Proof.
    unfold remove. keeps_split_with ltac:(by apply held_emit);
      try (apply held_modify; intros st; by autorewrite with st).
  Qed.

Lemma held_appendChild r id : keeps P held (appendChild r id).
  Proof.
    unfold appendChild. keeps_split_with ltac:(by apply held_emit);
      try (apply held_modify; intros st; by autorewrite with st).
  Qed.

Lemma held_sleep ms k : keeps P held (sleep ms k).
  Proof.
    unfold sleep. keeps_split_with ltac:(by apply held_emit);
      try (apply held_modify; intros st; by autorewrite with st).
  Qed.

Lemma held_frame n : keeps P held (requestAnimationFrame n).
  Proof.
    unfold requestAnimationFrame. keeps_split_with ltac:(by apply held_emit);
      try (apply held_modify; intros st; by autorewrite with st).
  Qed.

Lemma held_after_typewriter ret : keeps P held (after_typewriter ret).
  Proof. destruct ret; apply held_sleep. Qed.

Lemma held_async m : keeps P held m -> keeps P held (async_call m).
  Proof. intros H. apply keeps_async; [by intros | done]. Qed.

Lemma held_set_lottie l : keeps P held (modify (set_lottie l)).
  Proof. by apply held_modify. Qed.

Lemma held_set_files fs : keeps P held (modify (set_files fs)).
  Proof. by apply held_modify. Qed.

Lemma held_set_trainType t : keeps P held (modify (set_trainType t)).
  Proof. by apply held_modify. Qed.

End Held.

Ltac held_prim :=
  first
    [ apply held_emit; reflexivity
    | apply held_on_el; reflexivity
    | apply held_createElement
    | apply held_remove
    | apply held_appendChild
    | apply held_sleep
    | apply held_frame
    | apply held_after_typewriter
    | apply held_set_lottie
    | apply held_set_files
    | apply held_set_trainType
    | match goal with H : _ |- _ => apply H end ].

Ltac held_go := keeps_split_with held_prim.

Section Stale.

Variable rid : Z.
Local Abbreviation P := (fun st : State => overlayRunId st <> rid).

Lemma stale_typewriter_loop el s i caret ret :
    keeps P held (typewriter_loop el s i rid caret ret).
  Proof.
    intros st HP. destruct (s !! i) as [ch|] eqn:Hi.
    - rewrite (typewriter_loop_stale _ _ _ _ _ _ _ _ Hi HP).
      by apply (held_after_typewriter (P := P)).
    - unfold typewriter_loop. rewrite Hi. revert st HP.
      change (keeps P held (remove caret >> after_typewriter ret)).
      held_go.
  Qed.

Lemma stale_typewriterLine el text ret :
    keeps P held (typewriterLine el text rid ret).
  Proof.
    pose proof stale_typewriter_loop. unfold typewriterLine. held_go.
  Qed.

Lemma stale_overlay_line ctx cur line rest :
    runId ctx = rid -> keeps P held (overlay_line ctx cur line rest).
  Proof.
    intros Hctx. pose proof stale_typewriterLine.
    unfold overlay_line. rewrite Hctx. held_go.
  Qed.

Lemma stale_overlay_loop ctx cur lines :
    runId ctx = rid -> keeps P held (overlay_loop ctx cur lines).
  Proof.
    intros Hctx st HP. destruct lines as [|line rest]; [done |].
    rewrite overlay_loop_stale; [done |]. congruence.
  Qed.

End Stale.

Lemma silent_of_held {A} (m : M A) P `{!Rely P held} :
  keeps P held m -> keeps P silent m.
Proof. intros H st HP. by destruct (H st HP). Qed.

Lemma silent_cancel : keeps (fun _ => True) silent cancelOverlaySequence.
Proof.
  intros st _. rewrite cancel_run. unfold silent, cancelled, clear_present, bumped.
  cbn [snd].
  repeat match goal with
         | |- context [match ?x with _ => _ end] => destruct x
         end; by autorewrite with st.
Qed.

Lemma silent_hide : keeps (fun _ => True) silent hideProcessingOverlay.
Proof.
  unfold hideProcessingOverlay, lottie_set_playing.
  keeps_split_with ltac:(first [ apply silent_cancel
                               | apply silent_of_held; [apply _ |];
                                 held_prim ]).
Qed.

Lemma silent_settle rid : keeps (fun _ => True) silent (resume (KSettle rid)).
Proof.
  simpl. unfold clearFilesAfterSuccess, resetTrainingType.
  keeps_split_with ltac:(first [ apply silent_hide
                               | apply silent_of_held; [apply _ |];
                                 held_prim ]).
Qed.

Lemma silent_async m P `{!Rely P silent} :
  keeps P silent m -> keeps P silent (async_call m).
Proof. intros H. apply keeps_async; [by intros | done]. Qed.

(** A pending task of a run that is no longer current, and any frame
    callback, appends no character when it runs. *)
Lemma stale_task_silent st k t :
  pending st !! k = Some t ->
  match t with
  | TTimer _ kont => kont_run kont <> overlayRunId st
  | TFrame _ => True
  end ->
  chars_of (trace (fire k st)) = chars_of (trace st).
Proof.
  intros Hk Ht. unfold fire. rewrite Hk.
  set (st' := set_pending _ st).
  change (chars_of (trace st)) with (chars_of (trace st')).
  destruct t as [ms kont|n].
  - destruct kont as [ctx n l rest|el s i rid c ret|ctx cur rest|rid];
      simpl in Ht.
    + refine (proj2 (held_async (P := fun s => overlayRunId s <> runId ctx)
                       _ _ st' _)); [|subst st'; simpl; congruence].
      simpl.
      pose proof (stale_overlay_line (runId ctx) ctx None l rest eq_refl).
      held_go.
    + refine (proj2 (held_async (P := fun s => overlayRunId s <> rid)
                       _ _ st' _)); [|subst st'; simpl; congruence].
      apply stale_typewriter_loop.
    + refine (proj2 (held_async (P := fun s => overlayRunId s <> runId ctx)
                       _ _ st' _)); [|subst st'; simpl; congruence].
      by apply stale_overlay_loop.
    + exact (silent_async _ (fun _ => True) (silent_settle rid) st' I).
  - refine (proj2 (held_async (P := fun _ => True) _ _ st' I)).
    simpl. by apply held_on_el.
Qed.

(** ** Success *)

(** The settle timer fires: the files are cleared and the overlay is hidden. *)
Lemma settle_facts rid (x : State) :
  let y := snd (resume (KSettle rid) x) in
  fst (resume (KSettle rid) x) = inr tt /\
  selectedFiles y = [] /\
  selectedTrainType y = ""%string /\
  overlayRunId y = overlayRunId x + 1 /\
  pending y = pending x /\
  concat (shown_lines y) = [] /\
  has_class "hidden" <$> processingOverlay y =
    (fun _ => true) <$> processingOverlay x /\
  ariaHidden <$> processingOverlay y =
    (fun _ => Some "true"%string) <$> processingOverlay x.
Proof.
  destruct x as [r ov ln ti su dt hp [lel wl ol oll] fs tty pd tr].
  destruct ov as [ov|], ln as [ln|], su as [su|], dt as [dt|], ol as [ol|];
    cbn;
    rewrite ?class_add_set_aria, ?has_class_set_aria, ?has_class_add; done.
Qed.

Lemma cancelled_facts st :
  overlayRunId (cancelled st) = overlayRunId st + 1 /\
  pending (cancelled st) = pending st /\
  selectedFiles (cancelled st) = selectedFiles st /\
  chars_of (trace (cancelled st)) = chars_of (trace st) /\
  heap (cancelled st) = heap st /\
  processingLines (cancelled st) = set_kids [] <$> processingLines st /\
  processingSub (cancelled st) = set_kids [] <$> processingSub st /\
  processingOverlay (cancelled st) = processingOverlay st.
Proof.
  destruct st as [r ov [ln|] ti [su|] [dt|] hp lo fs tty pd tr]; done.
Qed.

(** [showProcessingSuccess] up to its call of [typewriterLine]. *)
Lemma success_prefix msg st c :
  container_of st = Some c ->
  let rid := overlayRunId st + 1 in
  showProcessingSuccess_with msg st =
    if bool_decide (c = RLines) then
      typewriterLine (RNode (length (heap st))) msg rid (RetSuccess rid)
        (with_node ["status-line"%string; "show"%string] (cancelled st))
    else
      typewriterLine c msg rid (RetSuccess rid) (cancelled st).
Proof.
  intros Hc rid. unfold showProcessingSuccess_with.
  rewrite (bind_inr _ _ _ _ _ (cancel_run st)).
  rewrite (bind_inr _ _ _ _ _ (ensure_run _)).
  destruct (cancelled_facts st) as (C1 & C2 & C3 & C4 & C5 & C6 & C7 & C8).
  rewrite (container_of_cleared _ _ _ C6 C7 Hc).
  unfold bind at 1, gets. rewrite C1. fold rid.
  destruct (bool_decide (c = RLines)) eqn:Hb; [|done].
  apply bool_decide_eq_true_1 in Hb. subst c.
  unfold bind at 1, createElement.
  erewrite bind_inr; last first.
  { unfold container_of in Hc.
    destruct (processingLines st) as [eL|] eqn:HL;
      [|by destruct (processingSub st)].
    eapply appendChild_some. simpl. by rewrite C6. }
  unfold with_node. by rewrite C5.
Qed.

(** What [typewriterLine] has done when it first waits. *)
Lemma typewriterLine_first rid el ch l ret x e0 :
  overlayRunId x = rid ->
  get_el el x = Some e0 ->
  let c := length (heap x) in
  let s1 := snd (typewriterLine el (ch :: l) rid ret x) in
  (exists e', get_el el s1 = Some e' /\ textContent e' = [ch]) /\
  (forall r, r <> el -> r <> RNode c ->
             get_el r s1 = drop_child c <$> get_el r x) /\
  overlayRunId s1 = rid /\
  pending s1 =
    pending x ++ [TTimer (Fin (char_delay ch)) (KChar el (ch :: l) 0 rid c ret)] /\
  length (heap s1) = S (length (heap x)) /\
  chars_of (trace s1) = chars_of (trace x) ++ [ch].
Proof.
  intros Hrid He c s1. subst s1.
  pose proof (typewriterLine_run el (ch :: l) rid ret x e0 He) as Hrun.
  cbv zeta in Hrun.
  assert (Hc : length (heap (record (FxClear el) (upd_el el (set_kids []) x))) = c)
    by (by autorewrite with st).
  rewrite Hc in Hrun. rewrite Hrun.
  assert (He3 : get_el el
    (record (FxAppendChild el c)
       (upd_el el (push_child (CElem c))
          (map_all (drop_child c)
             (record (FxCreate c)
                (set_heap
                   (heap (record (FxClear el) (upd_el el (set_kids []) x)) ++
                    [new_elem ["tw-caret"%string]])
                   (record (FxClear el) (upd_el el (set_kids []) x))))))) =
    Some (push_child (CElem c) (drop_child c (set_kids [] e0)))).
  { autorewrite with st.
    erewrite get_el_alloc; [done | by autorewrite with st |].
    autorewrite with st. by rewrite He. }
  erewrite typewriter_loop_types; [| done | by autorewrite with st | exact He3].
  rewrite sleep_run. cbn [snd]. split; [|split].
  - autorewrite with st.
    erewrite get_el_alloc; [| by autorewrite with st |]; last first.
    { autorewrite with st. by rewrite He. }
    eexists. split; [done |].
    by rewrite textContent_push_elem, textContent_drop_child,
      textContent_push_text, textContent_drop_child, textContent_push_elem,
      textContent_drop_child.
  - intros r Hr Hrc. autorewrite with st.
    rewrite get_el_upd_el_ne by done. autorewrite with st.
    rewrite get_el_upd_el_ne by done. autorewrite with st.
    rewrite get_el_upd_el_ne by done. autorewrite with st.
    rewrite get_el_alloc_other;
      [| by autorewrite with st | by autorewrite with st].
    autorewrite with st. rewrite get_el_upd_el_ne by done.
    destruct (get_el r x); simpl; [by rewrite !drop_child_idem | done].
  - autorewrite with st. split; [done |]. split; [done |]. split; [|done].
    rewrite length_app. autorewrite with st. subst c. simpl. lia.
Qed.

Lemma shown_lines_node s eL m e :
  processingLines s = Some eL -> kids eL = [CElem m] ->
  heap s !! m = Some e -> shown_lines s = [textContent e].
Proof.
  intros HL Hk He. unfold shown_lines, line_texts. rewrite HL, Hk. simpl.
  by rewrite He.
Qed.

Lemma shown_lines_sub s e :
  processingLines s = None -> processingSub s = Some e ->
  shown_lines s = [textContent e].
Proof. intros HL HS. unfold shown_lines. by rewrite HL, HS. Qed.

(** The completion message, from the call to the settle timer. *)
Lemma success_typed ch l st c :
  container_of st = Some c ->
  quiet (overlayRunId st + 1) (pending st) ->
  let msg := ch :: l in
  let rid := overlayRunId st + 1 in
  let s1 := snd (showProcessingSuccess_with msg st) in
  let sM := Nat.iter (length msg) (advance rid) s1 in
  fst (showProcessingSuccess_with msg st) = inr tt /\
  overlayRunId s1 = rid /\
  shown_lines s1 = [[ch]] /\
  pending sM = pending st ++ [TTimer (Fin 240) (KSettle rid)] /\
  shown_lines sM = [msg] /\
  chars_of (trace sM) = chars_of (trace st) ++ msg /\
  overlayRunId sM = rid /\
  exists f, processingOverlay sM = f <$> processingOverlay st.
Proof.
  intros Hc Hq msg rid s1 sM. subst s1 sM msg.
  rewrite (success_prefix (ch :: l) st c Hc). fold rid.
  destruct (cancelled_facts st) as (C1 & C2 & C3 & C4 & C5 & C6 & C7 & C8).
  unfold container_of in Hc.
  destruct (processingLines st) as [eL|] eqn:HL.
  - (* the multi-node path *)
    injection Hc as <-. rewrite bool_decide_eq_true_2 by done.
    destruct (with_node_facts ["status-line"%string; "show"%string]
                (cancelled st) (set_kids [] eL))
      as (W1 & W2 & W3 & W4 & W5 & W6 & (eY & W7 & W7') & _ & W9);
      [by rewrite C6 | done |].
    rewrite C5 in W4, W5, W6, W7'.
    set (m := length (heap st)) in *.
    set (y := with_node _ _) in *. clearbody y.
    destruct (node_line_shown rid (ch :: l) (RetSuccess rid) y m _
                ltac:(by rewrite W1, C1) ltac:(by rewrite W2, C2) W6
                ltac:(by exists eY) W5)
      as (N0 & N1 & N2 & N3 & N4 & N5 & N6 & N7 & N8).
    destruct (typewriterLine_first rid (RNode m) ch l (RetSuccess rid) y _
                ltac:(by rewrite W1, C1) W6) as ((e1 & F1 & F1') & F2 & F3 & _).
    rewrite W5 in F2.
    split; [done |]. split; [done |]. split.
    { specialize (F2 RLines ltac:(done) ltac:(done)). cbn [get_el] in F2, F1.
      rewrite W7 in F2. cbn [fmap option_fmap option_map] in F2.
      rewrite (shown_lines_node _ _ m e1 F2); [by rewrite F1' | | done].
      apply drop_child_other; [done | lia]. }
    split; [by rewrite N1, W2, C2 |]. split; [done |].
    split; [rewrite N5, W4; simpl; by rewrite C4 |]. split; [done |].
    rewrite N8, W9, C8. eexists (fun e => _).
    destruct (processingOverlay st); simpl; reflexivity.
  - (* the legacy path *)
    destruct (processingSub st) as [eS|] eqn:HS; [|done].
    injection Hc as <-. rewrite bool_decide_eq_false_2 by done.
    destruct (line_typed rid RSub (ch :: l) (RetSuccess rid) (cancelled st)
                (set_kids [] eS) C1 ltac:(by (simpl; rewrite C7))
                ltac:(by rewrite C2))
      as (T0 & T1 & (e' & Te & Tt) & T3 & T4 & T5 & T6 & T7).
    destruct (typewriterLine_first rid RSub ch l (RetSuccess rid)
                (cancelled st) (set_kids [] eS) C1
                ltac:(by (simpl; rewrite C7)))
      as ((e1 & F1 & F1') & F2 & F3 & _).
    split; [done |]. split; [done |]. split.
    { specialize (F2 RLines ltac:(done) ltac:(done)). cbn [get_el] in F2, F1.
      rewrite C6 in F2. cbn [fmap option_fmap option_map] in F2.
      by rewrite (shown_lines_sub _ e1 F2 F1), F1'. }
    split; [by rewrite T1, C2 |]. split.
    { specialize (T6 RLines ltac:(done) ltac:(done)). cbn [get_el] in T6, Te.
      rewrite C6 in T6. cbn [fmap option_fmap option_map] in T6.
      by rewrite (shown_lines_sub _ e' T6 Te), Tt. }
    split; [by rewrite T7, C4 |]. split; [done |].
    specialize (T6 ROverlay ltac:(done) ltac:(done)). cbn [get_el] in T6.
    rewrite T6, C8. by eexists.
Qed.





(** ** A superseded run that wakes up after the fade *)

(** C1 (the code departs from it): a run is taken to the fade between its
    first two lines and [hideProcessingOverlay] is called.  The run's fade
    timer is still pending, its run identity 2 is no longer the current 3,
    and the container is empty.  When the timer fires the run is not
    stopped: it removes its old node, creates a new status line, appends it
    to the emptied container with a caret inside, asks for a frame and waits
    the gap, all before its next check. *)
Theorem C1_superseded_fade_resume_mutates :
  let st := step in_fade EvHide in
  let st' := step st (EvFire 0%nat) in
  map task_view (pending st) = [Some (Fin LINE_FADE_MS, 2)] /\
  overlayRunId st = 3 /\
  kids <$> processingLines st = Some [] /\
  since st st' =
    [FxRemove 0; FxCreate 2; FxAppendChild RLines 2; FxFrame 2;
     FxClear (RNode 2); FxCreate 3; FxAppendChild (RNode 2) 3;
     FxSleep (Fin 210)] /\
  existsb is_mutation (since st st') = true /\
  existsb is_sleep (since st st') = true /\
  kids <$> processingLines st' = Some [CElem 2%nat] /\
  map task_view (pending st') = [None; Some (Fin 210, 2)].
Proof. vm_compute. repeat split. Qed.

(** C2 (the code departs from it): a run is taken to the fade between its
    first two lines and a second run is started; it empties the container
    and shows the first character of its first line.  When the first run's
    fade timer fires, the first run, superseded, appends a status line of
    its own (empty but for a caret) next to the second run's; that node
    stays in the container, before the second run's second line, while the
    second run goes on.  No character of the first run is appended. *)
Theorem C2_superseded_run_adds_a_line_to_the_display :
  let stB := step in_fade (EvStart (VNumber (Fin 1))) in
  let st' := step stB (EvFire 0%nat) in
  let st2 := Nat.iter 68 (advance 4) st' in
  overlayRunId stB = 4 /\
  map task_view (pending stB) =
    [Some (Fin LINE_FADE_MS, 2); None; Some (Fin 60, 4)] /\
  kids <$> processingLines stB = Some [CElem 2%nat] /\
  shown_lines stB = [str "O"] /\
  since stB st' =
    [FxRemove 0; FxCreate 4; FxAppendChild RLines 4; FxFrame 4;
     FxClear (RNode 4); FxCreate 5; FxAppendChild (RNode 4) 5;
     FxSleep (Fin 210)] /\
  kids <$> processingLines st' = Some [CElem 2%nat; CElem 4%nat] /\
  shown_lines st' = [str "O"; []] /\
  chars_of (trace st') = chars_of (trace stB) /\
  overlayRunId st2 = 4 /\
  kids <$> processingLines st2 = Some [CElem 4%nat; CElem 6%nat] /\
  shown_lines st2 = [[]; str "N"].
Proof. vm_compute. repeat split. Qed.

(** ** What a superseded run does hold to *)

(** A pending timer of a run that is no longer the current one, and any
    frame callback, appends no character when it runs. *)
Theorem superseded_task_appends_no_character (st : State) (k : nat)
    (t : Task)
    (Hk : pending st !! k = Some t)
    (Ht : match t with
          | TTimer _ kont => kont_run kont <> overlayRunId st
          | TFrame _ => True
          end) :
  chars_of (trace (fire k st)) = chars_of (trace st).
Proof. by apply (stale_task_silent st k t). Qed.

Lemma superseded_task_appends_no_character_witness :
  chars_of (trace (fire 0 (step in_fade EvHide))) =
  chars_of (trace (step in_fade EvHide)).
Proof.
  eapply (superseded_task_appends_no_character (step in_fade EvHide) 0).
  - vm_compute. reflexivity.
  - vm_compute. discriminate.
Defined.

(** A superseded run that wakes up from the gap wait stops there: its
    timer leaves the queue and nothing else changes. *)
Theorem superseded_gap_resume_is_inert (st : State) (k : nat) (ms : jsnum)
    (ctx : RunCtx) (cur : option nat) (line : jsstring)
    (rest : list jsstring)
    (Hk : pending st !! k = Some (TTimer ms (KGap ctx cur (line :: rest))))
    (Hrid : runId ctx <> overlayRunId st) :
  fire k st = set_pending (delete k (pending st)) st.
Proof.
  unfold fire. rewrite Hk. cbn [run_task resume].
  unfold async_call. by rewrite overlay_loop_stale.
Qed.

(** A superseded run that wakes up inside a line appends nothing and
    changes no element, but it still waits the gap before it stops. *)
Theorem superseded_char_resume_only_waits (st : State) (k : nat)
    (ms : jsnum) (el : ElRef) (s : jsstring) (i : nat) (rid : Z) (c : nat)
    (ctx : RunCtx) (cur : option nat) (rest : list jsstring) (ch : N)
    (Hk : pending st !! k =
          Some (TTimer ms (KChar el s i rid c (RetOverlay ctx cur rest))))
    (Hch : s !! S i = Some ch)
    (Hrid : rid <> overlayRunId st) :
  trace (fire k st) = FxSleep (gapMs ctx) :: trace st /\
  dom_of (fire k st) = dom_of st /\
  pending (fire k st) =
    delete k (pending st) ++ [TTimer (gapMs ctx) (KGap ctx cur rest)].
Proof.
  unfold fire. rewrite Hk. cbn [run_task resume].
  unfold async_call.
  rewrite (typewriter_loop_stale _ _ _ _ _ _ _ _ Hch) by (simpl; congruence).
  by rewrite after_typewriter_run.
Qed.

Lemma superseded_gap_resume_is_inert_witness :
  let st := run_events
              (EvStart (VNumber (Fin 1)) :: repeat (EvFire 0%nat) 67 ++ [EvHide])
              lines_page in
  fire 0 st = set_pending (delete 0%nat (pending st)) st.
Proof.
  intros st. eapply superseded_gap_resume_is_inert.
  - vm_compute. reflexivity.
  - vm_compute. discriminate.
Defined.

Lemma superseded_char_resume_only_waits_witness :
  let st := run_events [EvStart (VNumber (Fin 1)); EvHide] lines_page in
  trace (fire 1 st) = FxSleep (Fin 210) :: trace st.
Proof.
  intros st.
  apply (proj1 (superseded_char_resume_only_waits st 1 (Fin 60) (RNode 0)
                  (hd [] OVERLAY_LINES) 0 2 1 (mkRunCtx RLines 2 true (Fin 210))
                  (Some 0%nat) (tl OVERLAY_LINES) 107%N
                  ltac:(vm_compute; reflexivity)
                  ltac:(vm_compute; reflexivity)
                  ltac:(vm_compute; discriminate))).
Defined.

(** A success announcement that is superseded while it types appends no
    further character, but it is not stopped either: [showProcessingSuccess]
    has no check after [await typewriterLine], so the announcement still
    waits its 240 ms and then clears the selected files, resets the training
    type, increments the run identity and hides the overlay, whatever run is
    the current one by then. *)
Theorem superseded_announcement_still_hides (st : State) (k : nat)
    (ms : jsnum) (el : ElRef) (s : jsstring) (i : nat) (rid r : Z) (c : nat)
    (ch : N)
    (Hk : pending st !! k =
          Some (TTimer ms (KChar el s i rid c (RetSuccess r))))
    (Hch : s !! S i = Some ch)
    (Hrid : rid <> overlayRunId st) :
  let s1 := fire k st in
  let s2 := fire (length (pending st) - 1) s1 in
  dom_of s1 = dom_of st /\
  overlayRunId s1 = overlayRunId st /\
  pending s1 = delete k (pending st) ++ [TTimer (Fin 240) (KSettle r)] /\
  selectedFiles s2 = [] /\
  selectedTrainType s2 = ""%string /\
  overlayRunId s2 = overlayRunId st + 1 /\
  has_class "hidden" <$> processingOverlay s2 =
    (fun _ => true) <$> processingOverlay st /\
  concat (shown_lines s2) = [] /\
  pending s2 = delete k (pending st).
Proof.
  intros s1 s2.
  assert (H1 : s1 = record (FxSleep (Fin 240))
                 (set_pending (delete k (pending st) ++
                                 [TTimer (Fin 240) (KSettle r)]) st)).
  { subst s1. unfold fire. rewrite Hk. cbn [run_task resume].
    unfold async_call.
    rewrite (typewriter_loop_stale _ _ _ _ _ _ _ _ Hch) by (simpl; congruence).
    by rewrite after_typewriter_run. }
  assert (Hlen : length (delete k (pending st)) = (length (pending st) - 1)%nat).
  { pose proof (lookup_lt_Some _ _ _ Hk). rewrite length_delete; [done | by eexists]. }
  set (x := record (FxSleep (Fin 240)) (set_pending (delete k (pending st)) st)).
  assert (H2 : s2 = snd (resume (KSettle r) x)).
  { subst s2. rewrite H1. unfold fire. cbn [pending record set_pending].
    rewrite <- Hlen, list_lookup_middle by done.
    rewrite delete_middle, app_nil_r.
    cbn [run_task]. apply async_call_snd.
    apply (settle_facts r). }
  destruct (settle_facts r x) as (_ & S1 & S2 & S3 & S4 & S5 & S6 & _).
  rewrite <- H2 in S1, S2, S3, S4, S5, S6.
  rewrite H1. repeat split; try done.
Qed.

Lemma superseded_announcement_still_hides_witness :
  let st := run_events [EvSuccess; EvStart (VNumber (Fin 1))] lines_page in
  let s2 := fire 2 (fire 0 st) in
  overlayRunId st = 3 /\
  map task_view (pending st) = [Some (Fin 60, 1); None; Some (Fin 60, 3)] /\
  selectedFiles s2 = [] /\
  overlayRunId s2 = 4.
Proof.
  intros st s2.
  split; [vm_compute; reflexivity |]. split; [vm_compute; reflexivity |].
  pose proof (superseded_announcement_still_hides st 0 (Fin 60) (RNode 0)
                SUCCESS_MSG 0 1 1 1 111%N
                ltac:(vm_compute; reflexivity)
                ltac:(vm_compute; reflexivity)
                ltac:(vm_compute; discriminate)) as H.
  cbv zeta in H. destruct H as (_ & _ & _ & H4 & _ & H6 & _).
  split; [exact H4 | exact H6].
Defined.

(** ** No timer is ahead of the run identity *)

Lemma task_bound_mono a b t : a <= b -> task_bound a t -> task_bound b t.
Proof.
  intros Hab. destruct t as [ms k|n]; [|done]. unfold task_bound, kont_bound.
  intros [H1 H2]. split; [lia |]. destruct k; try done. lia.
Qed.

Lemma adds_bounded_refl st : adds_bounded st st.
Proof. split; [lia |]. exists []. by rewrite app_nil_r. Qed.

Lemma adds_bounded_trans a b c :
  adds_bounded a b -> adds_bounded b c -> adds_bounded a c.
Proof.
  intros [H1 (n1 & H2 & H3)] [G1 (n2 & G2 & G3)]. split; [lia |].
  exists (n1 ++ n2). split; [by rewrite G2, H2, app_assoc |].
  apply Forall_app_2; [|done].
  eapply Forall_impl; [|exact H3]. intros t. by apply task_bound_mono.
Qed.

#[global] Instance adds_bounded_rely m :
  Rely (fun st => m <= overlayRunId st) adds_bounded.
Proof.
  split; [apply adds_bounded_refl | apply adds_bounded_trans |].
  intros a b Ha [Hab _]. lia.
Qed.

#[global] Instance adds_bounded_rely_any : Rely (fun _ => True) adds_bounded.
Proof.
  split; [apply adds_bounded_refl | apply adds_bounded_trans | done].
Qed.

Section Bounded.

Context {P : State -> Prop} `{!Rely P adds_bounded}.

Lemma bounded_modify f :
  (forall st, overlayRunId st <= overlayRunId (f st) /\
              pending (f st) = pending st) ->
  keeps P adds_bounded (modify f).
Proof.
  intros H. apply keeps_modify. intros st _. destruct (H st) as [H1 H2].
  split; [done |]. exists []. by rewrite app_nil_r.
Qed.

Lemma bounded_emit fx : keeps P adds_bounded (emit fx).
Proof. apply bounded_modify. intros st. split; [simpl; lia | done]. Qed.

Lemma bounded_on_el r f fx : keeps P adds_bounded (on_el r f fx).
Proof.
  unfold on_el. keeps_split_with ltac:(apply bounded_emit).
  apply bounded_modify. intros st. autorewrite with st. split; [lia | done].
Qed.

Lemma bounded_createElement cls : keeps P adds_bounded (createElement cls).
Proof.
  intros st _. split; [simpl; lia |]. exists []. by rewrite app_nil_r.
Qed.

Lemma bounded_remove id : keeps P adds_bounded (remove id).
Proof.
  unfold remove. keeps_split_with ltac:(apply bounded_emit).
  apply bounded_modify. intros st. split; [simpl; lia | done].
Qed.

Lemma bounded_appendChild r id : keeps P adds_bounded (appendChild r id).
Proof.
  unfold appendChild. keeps_split_with ltac:(apply bounded_emit);
    apply bounded_modify; intros st; autorewrite with st;
    (split; [simpl; lia | done]).
Qed.

Lemma bounded_schedule t :
  (forall st, P st -> task_bound (overlayRunId st) t) ->
  keeps P adds_bounded
    (modify (fun st => set_pending (pending st ++ [t]) st)).
Proof.
  intros H. apply keeps_modify. intros st HP. split; [simpl; lia |].
  exists [t]. split; [done |]. constructor; [|constructor].
  simpl. by apply H.
Qed.

Lemma bounded_sleep ms k :
  (forall st, P st -> kont_bound (overlayRunId st) k) ->
  keeps P adds_bounded (sleep ms k).
Proof.
  intros H. unfold sleep.
  keeps_split_with ltac:(first [apply bounded_emit | by apply bounded_schedule]).
Qed.

Lemma bounded_frame n : keeps P adds_bounded (requestAnimationFrame n).
Proof.
  unfold requestAnimationFrame.
  keeps_split_with ltac:(first [apply bounded_emit | by apply bounded_schedule]).
Qed.

Lemma bounded_bump :
  keeps P adds_bounded (modify (fun st => set_runId (overlayRunId st + 1) st)).
Proof. apply bounded_modify. intros st. split; [simpl; lia | done]. Qed.

Lemma bounded_set_lottie l : keeps P adds_bounded (modify (set_lottie l)).
Proof. apply bounded_modify. intros st. split; [simpl; lia | done]. Qed.

Lemma bounded_set_files fs : keeps P adds_bounded (modify (set_files fs)).
Proof. apply bounded_modify. intros st. split; [simpl; lia | done]. Qed.

Lemma bounded_set_trainType t :
  keeps P adds_bounded (modify (set_trainType t)).
Proof. apply bounded_modify. intros st. split; [simpl; lia | done]. Qed.

Lemma bounded_async m :
  keeps P adds_bounded m -> keeps P adds_bounded (async_call m).
Proof.
  intros H. apply keeps_async; [|done]. intros st _.
  split; [simpl; lia |]. exists []. by rewrite app_nil_r.
Qed.

End Bounded.

Ltac bounded_prim :=
  first
    [ apply bounded_emit
    | apply bounded_on_el
    | apply bounded_createElement
    | apply bounded_remove
    | apply bounded_appendChild
    | apply bounded_frame
    | apply bounded_bump
    | apply bounded_set_lottie
    | apply bounded_set_files
    | apply bounded_set_trainType
    | match goal with H : _ |- _ => apply H end ].

Ltac bounded_go := keeps_split_with bounded_prim.

Section BoundedRun.

Variable m : Z.
Local Abbreviation Pm := (fun st : State => m <= overlayRunId st).

Lemma bounded_after_typewriter ret :
  twret_run ret <= m -> keeps Pm adds_bounded (after_typewriter ret).
Proof.
  intros Hret. destruct ret; simpl in *; apply bounded_sleep;
    intros st HP; split; simpl; (done || lia).
Qed.

Lemma bounded_typewriter_loop el s i rid caret ret :
  rid <= m -> twret_run ret <= m ->
  keeps Pm adds_bounded (typewriter_loop el s i rid caret ret).
Proof.
  intros Hrid Hret. pose proof (bounded_after_typewriter ret Hret).
  unfold typewriter_loop, appendText. bounded_go.
  apply bounded_sleep. intros st HP. split; simpl; lia.
Qed.

Lemma bounded_typewriterLine el text rid ret :
  rid <= m -> twret_run ret <= m ->
  keeps Pm adds_bounded (typewriterLine el text rid ret).
Proof.
  intros Hrid Hret. unfold typewriterLine.
  pose proof (fun i c => bounded_typewriter_loop el text i rid c ret Hrid Hret).
  bounded_go.
Qed.

Lemma bounded_overlay_line ctx cur line rest :
  runId ctx <= m -> keeps Pm adds_bounded (overlay_line ctx cur line rest).
Proof.
  intros Hctx. unfold overlay_line.
  pose proof (fun el c =>
    bounded_typewriterLine el line (runId ctx) (RetOverlay ctx c rest) Hctx Hctx).
  bounded_go.
Qed.

Lemma bounded_overlay_loop ctx cur lines :
  runId ctx <= m -> keeps Pm adds_bounded (overlay_loop ctx cur lines).
Proof.
  intros Hctx. unfold overlay_loop.
  pose proof (fun c l r => bounded_overlay_line ctx c l r Hctx).
  bounded_go.
  apply bounded_sleep. intros st HP. split; simpl; (done || lia).
Qed.

End BoundedRun.

(** A computation that reads the run identity and goes on under it. *)
Lemma bounded_with_runId {A} (f : Z -> M A) :
  (forall rid, keeps (fun st => rid <= overlayRunId st) adds_bounded (f rid)) ->
  keeps (fun _ => True) adds_bounded (bind (gets overlayRunId) f).
Proof.
  intros H st _. unfold bind, gets. apply (H (overlayRunId st)). lia.
Qed.

Lemma bounded_cancel : keeps (fun _ => True) adds_bounded cancelOverlaySequence.
Proof. unfold cancelOverlaySequence. bounded_go. Qed.

Lemma bounded_hide : keeps (fun _ => True) adds_bounded hideProcessingOverlay.
Proof.
  pose proof bounded_cancel.
  unfold hideProcessingOverlay, lottie_set_playing. bounded_go.
Qed.

Ltac bounded_read :=
  lazymatch goal with
  | |- keeps _ _ (bind (gets overlayRunId) _) =>
      apply bounded_with_runId; intros ?
  end.

Lemma bounded_run lines v :
  keeps (fun _ => True) adds_bounded (runOverlaySequence_on lines v).
Proof.
  unfold runOverlaySequence_on, ensureLinesContainer.
  keeps_split_hook
    ltac:(first [bounded_prim | apply bounded_overlay_loop; simpl; lia])
    ltac:(idtac; bounded_read).
Qed.

Lemma bounded_start lines v :
  keeps (fun _ => True) adds_bounded (showProcessingOverlay_on lines v).
Proof.
  pose proof bounded_cancel.
  unfold showProcessingOverlay_on, initOverlayLottie, lottie_set_playing.
  keeps_split_with ltac:(first [bounded_prim
                               | apply bounded_async, bounded_run]).
Qed.

Lemma bounded_success msg :
  keeps (fun _ => True) adds_bounded (showProcessingSuccess_with msg).
Proof.
  pose proof bounded_cancel. pose proof bounded_hide.
  unfold showProcessingSuccess_with, ensureLinesContainer.
  keeps_split_hook
    ltac:(first [bounded_prim | apply bounded_typewriterLine; simpl; lia])
    ltac:(idtac; bounded_read).
Qed.

Lemma bounded_resume k now :
  kont_bound now k ->
  keeps (fun st => now <= overlayRunId st) adds_bounded (resume k).
Proof.
  intros [Hk Hret]. destruct k as [ctx n l rest|el s i rid c ret|ctx cur rest|rid];
    simpl in *.
  - pose proof (fun c => bounded_overlay_line now ctx c l rest Hk). bounded_go.
  - by apply bounded_typewriter_loop.
  - by apply bounded_overlay_loop.
  - unfold clearFilesAfterSuccess, resetTrainingType, hideProcessingOverlay,
      cancelOverlaySequence, lottie_set_playing.
    bounded_go.
Qed.

Lemma tasks_bounded_after a b :
  tasks_bounded a -> adds_bounded a b -> tasks_bounded b.
Proof.
  intros Ha [H1 (new & H2 & H3)]. unfold tasks_bounded. rewrite H2.
  apply Forall_app_2; [|done].
  eapply Forall_impl; [|exact Ha]. intros t. by apply task_bound_mono.
Qed.

Lemma tasks_bounded_fire k st : tasks_bounded st -> tasks_bounded (fire k st).
Proof.
  intros Hb. unfold fire. destruct (pending st !! k) as [t|] eqn:Hk; [|done].
  set (st' := set_pending (delete k (pending st)) st).
  assert (Hb' : tasks_bounded st').
  { unfold tasks_bounded. subst st'. simpl. by apply Forall_delete. }
  apply (tasks_bounded_after st'); [done |].
  assert (Ht : task_bound (overlayRunId st) t).
  { unfold tasks_bounded in Hb. rewrite Forall_lookup in Hb. by eapply Hb. }
  refine (bounded_async (P := fun s => overlayRunId st <= overlayRunId s)
            _ _ st' _); [|subst st'; simpl; lia].
  destruct t as [ms kont|n]; simpl.
  - by apply bounded_resume.
  - apply bounded_on_el.
Qed.

Lemma tasks_bounded_step st ev : tasks_bounded st -> tasks_bounded (step st ev).
Proof.
  intros Hb. destruct ev; simpl.
  - apply (tasks_bounded_after st); [done |]. exact (bounded_start _ _ st I).
  - apply (tasks_bounded_after st); [done |].
    exact (bounded_async (P := fun _ => True) _ (bounded_success _) st I).
  - apply (tasks_bounded_after st); [done |]. exact (bounded_hide st I).
  - by apply tasks_bounded_fire.
Qed.

Lemma tasks_bounded_quiet st d :
  tasks_bounded st -> 0 < d -> quiet (overlayRunId st + d) (pending st).
Proof.
  intros Hb Hd. eapply Forall_impl; [|exact Hb].
  intros [ms k|n] Ht; simpl in *; [|done].
  destruct Ht as [Ht _]. apply Z.eqb_neq. lia.
Qed.

(** Whatever has happened since the page was loaded, no pending timer is
    ahead of the run identity; so no pending timer carries the identity that
    the next [showProcessingSuccess] (one more) or the next
    [showProcessingOverlay] (two more) will capture. *)
Theorem reachable_timers_are_not_ahead (st0 : State) (evs : list Event)
    (H0 : pending st0 = []) :
  let st := run_events evs st0 in
  tasks_bounded st /\
  quiet (overlayRunId st + 1) (pending st) /\
  quiet (overlayRunId st + 2) (pending st).
Proof.
  intros st.
  assert (Hb : tasks_bounded st).
  { subst st. assert (Hb0 : tasks_bounded st0)
      by (unfold tasks_bounded; rewrite H0; constructor).
    clear H0. revert st0 Hb0.
    induction evs as [|ev evs IH]; intros st0 Hb0; simpl; [done |].
    apply IH. by apply tasks_bounded_step. }
  split; [done |]. split; apply tasks_bounded_quiet; (done || lia).
Qed.

Lemma reachable_timers_are_not_ahead_witness :
  pending lines_page = [] /\
  quiet (overlayRunId in_fade + 2) (pending in_fade).
Proof.
  split; [reflexivity |].
  exact (proj2 (proj2 (reachable_timers_are_not_ahead lines_page fade_events
                         eq_refl))).
Defined.

(** ** An announcement among the tasks of earlier runs

    [showProcessingSuccess] can be called while timers and frame callbacks
    of an overlay run are pending.  Whenever those fire, and whatever they
    still do (a run woken after the fade adds an empty node), the
    announcement types its message and hides the overlay. *)

Lemma Forall_List_filter {A} (P : A -> Prop) f (l : list A) :
  Forall P l -> Forall P (List.filter f l).
Proof.
  induction 1 as [|x l Hx Hl IH]; simpl; [done |].
  destruct (f x); [by constructor | done].
Qed.

Lemma line_texts_elem h x l e :
  h !! x = Some e -> line_texts h (CElem x :: l) = textContent e :: line_texts h l.
Proof. intros H. unfold line_texts. simpl. by rewrite H. Qed.

Lemma line_texts_app h l1 l2 :
  line_texts h (l1 ++ l2) = line_texts h l1 ++ line_texts h l2.
Proof. apply omap_app. Qed.

Lemma blank_texts m s l :
  Forall (blank_child m s) l -> concat (line_texts (heap s) l) = [].
Proof.
  induction 1 as [|c l (x & -> & _ & e & He & Ht) _ IH]; [done |].
  rewrite (line_texts_elem _ _ _ _ He). simpl. by rewrite Ht, IH.
Qed.

Lemma announces_shown nodes m txt s :
  announces nodes m txt s -> concat (shown_lines s) = txt.
Proof.
  unfold announces, shown_lines. destruct nodes.
  - intros (eL & e & l1 & l2 & HL & Hk & Hb & He & Ht).
    rewrite HL, Hk. apply Forall_app in Hb as [Hb1 Hb2].
    rewrite line_texts_app, (line_texts_elem _ _ _ _ He), concat_app.
    simpl. by rewrite (blank_texts m s l1), (blank_texts m s l2), Ht, app_nil_r.
  - intros (HL & e & HS & Ht). rewrite HL, HS. simpl. by rewrite app_nil_r.
Qed.

Lemma blank_node_kept m x a b :
  (forall r e, get_el r a = Some e ->
     exists e', get_el r b = Some e' /\ textContent e' = textContent e) ->
  blank_node m x a -> blank_node m x b.
Proof.
  intros Ht (Hx & e & He & Hte). split; [done |].
  destruct (Ht (RNode x) e He) as (e' & He' & Hte'). exists e'.
  split; [done | congruence].
Qed.

Lemma blank_child_kept m a b c :
  (forall r e, get_el r a = Some e ->
     exists e', get_el r b = Some e' /\ textContent e' = textContent e) ->
  blank_child m a c -> blank_child m b c.
Proof. intros Ht (x & -> & Hx). exists x. split; [done |]. by eapply blank_node_kept. Qed.

(** What an update of the page must respect for the announcement to stay
    as it is: the text of every element other than the target, the presence
    of the container, and under [processingLines] the target among children
    without text. *)
Lemma announces_kept nodes m txt txt' a b keep extra :
  (forall r e, r <> target nodes m -> get_el r a = Some e ->
     exists e', get_el r b = Some e' /\ textContent e' = textContent e) ->
  (forall e, get_el (target nodes m) a = Some e -> textContent e = txt ->
     exists e', get_el (target nodes m) b = Some e' /\ textContent e' = txt') ->
  (processingLines a = None -> processingLines b = None) ->
  (forall eL, processingLines a = Some eL ->
     exists eL', processingLines b = Some eL' /\
                 kids eL' = List.filter keep (kids eL) ++ extra) ->
  (nodes = true -> keep (CElem m) = true /\ Forall (blank_child m b) extra) ->
  announces nodes m txt a -> announces nodes m txt' b.
Proof.
  intros Ht Hm HN HL Hkeep. unfold announces, target in *. destruct nodes.
  - intros (eL & e & l1 & l2 & HLa & Hk & Hb & He & Hte).
    destruct (HL eL HLa) as (eL' & HLb & Hk').
    destruct (Hkeep eq_refl) as [Hkm Hextra].
    destruct (Hm e He Hte) as (e' & He' & Hte').
    exists eL', e', (List.filter keep l1), (List.filter keep l2 ++ extra).
    split; [done |]. split.
    { rewrite Hk', Hk, List.filter_app. simpl. rewrite Hkm.
      by rewrite <- app_assoc. }
    split; [|done].
    apply Forall_app in Hb as [Hb1 Hb2].
    assert (Hkept : forall l, Forall (blank_child m a) l ->
                      Forall (blank_child m b) (List.filter keep l)).
    { intros l Hl. apply Forall_List_filter.
      eapply Forall_impl; [|exact Hl].
      intros c (x & -> & Hx & ex & Hex & Htx). exists x. split; [done |].
      split; [done |].
      destruct (Ht (RNode x) ex ltac:(congruence) Hex) as (ex' & Hex' & Htx').
      exists ex'. split; [done | congruence]. }
    repeat apply Forall_app_2; auto.
  - intros (HLa & e & HS & Hte). split; [by apply HN |].
    destruct (Hm e HS Hte) as (e' & He' & Hte'). by exists e'.
Qed.

Lemma undisturbed_refl rid nodes m s : undisturbed rid nodes m s s.
Proof.
  split; [done | done | lia | exists []; by rewrite app_nil_r | by eauto | done].
Qed.

Lemma undisturbed_trans rid nodes m a b c :
  undisturbed rid nodes m a b -> undisturbed rid nodes m b c ->
  undisturbed rid nodes m a c.
Proof.
  intros [A1 A2 A3 (n1 & A4 & A4') A5 A6] [B1 B2 B3 (n2 & B4 & B4') B5 B6].
  split.
  - congruence.
  - congruence.
  - lia.
  - exists (n1 ++ n2). split; [by rewrite B4, A4, app_assoc |].
    by apply Forall_app_2.
  - intros r e He. destruct (A5 r e He) as (e1 & He1 & Ht1).
    destruct (B5 r e1 He1) as (e2 & He2 & Ht2). exists e2.
    split; [done | congruence].
  - eauto.
Qed.

#[global] Instance undisturbed_rely rid nodes m :
  Rely (current rid m) (undisturbed rid nodes m).
Proof.
  split; [apply undisturbed_refl | apply undisturbed_trans |].
  intros a b [Ha1 Ha2] H. destruct H as [H1 _ H3 _ _ _]. split; [congruence | lia].
Qed.

#[global] Instance undisturbed_rely_blank rid nodes m x P
    `{!Rely P (undisturbed rid nodes m)} :
  Rely (fun s => P s /\ blank_node m x s) (undisturbed rid nodes m).
Proof.
  split; [apply undisturbed_refl | apply undisturbed_trans |].
  intros a b [Ha1 Ha2] H. split; [by eapply rely_stable |].
  eapply blank_node_kept; [|done]. apply H.
Qed.

Lemma filter_all {A} (l : list A) : List.filter (fun _ => true) l = l.
Proof. induction l as [|x l IH]; simpl; [done | by rewrite IH]. Qed.

Lemma undisturbed_intro rid nodes m a b keep extra new :
  overlayRunId b = overlayRunId a ->
  chars_of (trace b) = chars_of (trace a) ->
  (length (heap a) <= length (heap b))%nat ->
  pending b = pending a ++ new -> Forall (earlier_task rid m) new ->
  (forall r e, get_el r a = Some e ->
     exists e', get_el r b = Some e' /\ textContent e' = textContent e) ->
  (processingLines a = None -> processingLines b = None) ->
  (forall eL, processingLines a = Some eL ->
     exists eL', processingLines b = Some eL' /\
                 kids eL' = List.filter keep (kids eL) ++ extra) ->
  (nodes = true -> keep (CElem m) = true /\ Forall (blank_child m b) extra) ->
  undisturbed rid nodes m a b.
Proof.
  intros H1 H2 H3 H4 H4' H5 H6 H7 H8. split; try done.
  - by exists new.
  - intros txt. apply (announces_kept nodes m txt txt a b keep extra); try done.
    + intros r e _. apply H5.
    + intros e He <-. by apply H5.
Qed.

(** The updates a superseded task makes. *)
Lemma undisturbed_record rid nodes m fx s :
  is_text fx = false -> undisturbed rid nodes m s (record fx s).
Proof.
  intros Hfx.
  apply (undisturbed_intro rid nodes m _ _ (fun _ => true) [] []);
    try done.
  - by destruct fx.
  - simpl. by rewrite app_nil_r.
  - intros r e He. exists e. by rewrite get_el_record.
  - intros eL HL. exists eL. by rewrite filter_all, app_nil_r.
Qed.

Lemma undisturbed_schedule rid nodes m t s :
  earlier_task rid m t ->
  undisturbed rid nodes m s (set_pending (pending s ++ [t]) s).
Proof.
  intros Ht.
  apply (undisturbed_intro rid nodes m _ _ (fun _ => true) [] [t]);
    try done.
  - by constructor.
  - intros r e He. exists e. by rewrite get_el_set_pending.
  - intros eL HL. exists eL. by rewrite filter_all, app_nil_r.
Qed.

Lemma undisturbed_alloc rid nodes m e0 s :
  undisturbed rid nodes m s (set_heap (heap s ++ [e0]) s).
Proof.
  apply (undisturbed_intro rid nodes m _ _ (fun _ => true) [] []);
    try done.
  - simpl. rewrite length_app. lia.
  - simpl. by rewrite app_nil_r.
  - intros r e He. exists e. split; [|done]. by apply get_el_alloc.
  - intros eL HL. exists eL. by rewrite filter_all, app_nil_r.
Qed.

Lemma undisturbed_drop rid nodes m x s :
  x <> m -> undisturbed rid nodes m s (map_all (drop_child x) s).
Proof.
  intros Hx.
  apply (undisturbed_intro rid nodes m _ _
           (fun c => negb (is_child x c)) [] []); try done.
  - simpl. by rewrite length_fmap.
  - simpl. by rewrite app_nil_r.
  - intros r e He. exists (drop_child x e).
    rewrite get_el_map_all, He. split; [done |]. apply textContent_drop_child.
  - simpl. by intros ->.
  - intros eL HL. exists (drop_child x eL). simpl. rewrite HL.
    split; [done |]. simpl. by rewrite app_nil_r.
  - intros _. split; [|constructor]. simpl.
    destruct (Nat.eqb_spec x m); [done | done].
Qed.

Lemma undisturbed_upd_el rid nodes m r f s extra :
  (forall e, get_el r s = Some e -> textContent (f e) = textContent e) ->
  (forall e, r = RLines -> kids (f e) = kids e ++ extra) ->
  (nodes = true -> r = RLines -> Forall (blank_child m s) extra) ->
  undisturbed rid nodes m s (upd_el r f s).
Proof.
  intros Ht Hk Hb.
  assert (Htext : forall r' e, get_el r' s = Some e ->
            exists e', get_el r' (upd_el r f s) = Some e' /\
                       textContent e' = textContent e).
  { intros r' e He. destruct (decide (r = r')) as [<-|Hne].
    - exists (f e). rewrite get_el_upd_el, He. split; [done |]. by apply Ht.
    - exists e. by rewrite get_el_upd_el_ne. }
  apply (undisturbed_intro rid nodes m _ _ (fun _ => true)
           (if decide (r = RLines) then extra else []) []); try done.
  - by rewrite runId_upd_el.
  - by rewrite trace_upd_el.
  - by rewrite heap_length_upd_el.
  - by rewrite pending_upd_el, app_nil_r.
  - change (get_el RLines s = None -> get_el RLines (upd_el r f s) = None).
    intros HN. destruct (decide (r = RLines)) as [->|Hne].
    + by rewrite get_el_upd_el, HN.
    + by rewrite get_el_upd_el_ne.
  - intros eL.
    change (get_el RLines s = Some eL ->
            exists eL', get_el RLines (upd_el r f s) = Some eL' /\
              kids eL' = List.filter (fun _ => true) (kids eL) ++
                           (if decide (r = RLines) then extra else [])).
    intros HL. rewrite filter_all. destruct (decide (r = RLines)) as [->|Hne].
    + exists (f eL). rewrite get_el_upd_el, HL. split; [done |]. by apply Hk.
    + exists eL. rewrite get_el_upd_el_ne by done. by rewrite app_nil_r.
  - intros Hn. split; [done |]. destruct (decide (r = RLines)) as [->|Hne];
      [|constructor].
    eapply Forall_impl; [|by apply Hb]. intros c. by apply blank_child_kept.
Qed.

Section Undisturbed.

Variables (rid : Z) (nodes : bool) (m : nat).
Context {P : State -> Prop} `{!Rely P (undisturbed rid nodes m)}.

Lemma ud_emit fx :
  is_text fx = false -> keeps P (undisturbed rid nodes m) (emit fx).
Proof.
  intros H. apply keeps_modify. intros s _. by apply undisturbed_record.
Qed.

Lemma ud_on_el r f fx :
  (forall e, kids (f e) = kids e) -> is_text fx = false ->
  keeps P (undisturbed rid nodes m) (on_el r f fx).
Proof.
  intros Hk Hfx. unfold on_el.
  keeps_split_with ltac:(by apply ud_emit).
  apply keeps_modify. intros s _.
  apply (undisturbed_upd_el _ _ _ _ _ _ []).
  - intros e _. unfold textContent. by rewrite Hk.
  - intros e _. by rewrite Hk, app_nil_r.
  - intros; constructor.
Qed.

Lemma ud_clear x :
  (forall s, P s -> blank_node m x s) ->
  keeps P (undisturbed rid nodes m)
    (on_el (RNode x) (set_kids []) (FxClear (RNode x))).
Proof.
  intros Hb. unfold on_el. keeps_split_with ltac:(by apply ud_emit).
  apply keeps_modify. intros s HP.
  apply (undisturbed_upd_el _ _ _ _ _ _ []).
  - intros e He. destruct (Hb s HP) as (_ & e0 & He0 & Ht0).
    simpl in He. assert (e = e0) by congruence. subst. by rewrite Ht0.
  - by intros e [=].
  - by intros _ [=].
Qed.

Lemma ud_createElement cls :
  keeps P (undisturbed rid nodes m) (createElement cls).
Proof.
  intros s _. simpl.
  eapply undisturbed_trans; [apply undisturbed_alloc |].
  by apply undisturbed_record.
Qed.

Lemma ud_remove x : x <> m -> keeps P (undisturbed rid nodes m) (remove x).
Proof.
  intros Hx. unfold remove. keeps_split_with ltac:(by apply ud_emit).
  apply keeps_modify. intros s _. by apply undisturbed_drop.
Qed.

Lemma ud_appendChild r x :
  (forall s, P s -> blank_node m x s) ->
  keeps P (undisturbed rid nodes m) (appendChild r x).
Proof.
  intros Hb. unfold appendChild. keeps_split_with ltac:(by apply ud_emit).
  - apply keeps_modify. intros s HP. apply undisturbed_drop. apply (Hb s HP).
  - apply keeps_modify. intros s HP.
    apply (undisturbed_upd_el _ _ _ _ _ _ [CElem x]).
    + intros e _. apply textContent_push_elem.
    + done.
    + intros _ _. constructor; [|constructor]. exists x.
      split; [done |]. by apply Hb.
Qed.

Lemma ud_sleep ms k :
  earlier_task rid m (TTimer ms k) ->
  keeps P (undisturbed rid nodes m) (sleep ms k).
Proof.
  intros Hk. unfold sleep. keeps_split_with ltac:(by apply ud_emit).
  apply keeps_modify. intros s _. by apply undisturbed_schedule.
Qed.

Lemma ud_frame n : keeps P (undisturbed rid nodes m) (requestAnimationFrame n).
Proof.
  unfold requestAnimationFrame. keeps_split_with ltac:(by apply ud_emit).
  apply keeps_modify. intros s _. by apply undisturbed_schedule.
Qed.

End Undisturbed.

(** A new element is none of the earlier ones, and it is empty. *)
Lemma ud_with_new rid nodes m {P} `{!Rely P (undisturbed rid nodes m)}
    {A} cls (f : nat -> M A) :
  (forall s, P s -> current rid m s) ->
  (forall x, x <> m ->
     keeps (fun s => P s /\ blank_node m x s) (undisturbed rid nodes m) (f x)) ->
  keeps P (undisturbed rid nodes m) (bind (createElement cls) f).
Proof.
  intros Hm Hf s HP. unfold bind, createElement.
  set (x := length (heap s)). set (s1 := record _ _).
  assert (HR : undisturbed rid nodes m s s1)
    by exact (ud_createElement rid nodes m cls s HP).
  eapply undisturbed_trans; [exact HR |].
  destruct (Hm s HP) as [_ Hlt].
  apply Hf; [lia |]. split; [by eapply rely_stable |].
  split; [lia |]. exists (new_elem cls).
  split; [|done]. subst s1 x. simpl. by apply list_lookup_middle.
Qed.

Lemma ud_typewriter_loop rid nodes m {P} `{!Rely P (undisturbed rid nodes m)}
    el s i r caret ctx cur rest :
  (forall st, P st -> current rid m st) ->
  r < rid -> runId ctx < rid -> caret <> m ->
  keeps P (undisturbed rid nodes m)
    (typewriter_loop el s i r caret (RetOverlay ctx cur rest)).
Proof.
  intros Hcur Hr Hctx Hc st HP. destruct (s !! i) as [ch|] eqn:Hi.
  - rewrite (typewriter_loop_stale _ _ _ _ _ _ _ _ Hi)
      by (destruct (Hcur st HP); lia).
    by apply (ud_sleep rid nodes m).
  - unfold typewriter_loop. rewrite Hi. revert st HP.
    change (keeps P (undisturbed rid nodes m)
              (remove caret >> after_typewriter (RetOverlay ctx cur rest))).
    apply keeps_bind; [by apply ud_remove | intros _].
    by apply ud_sleep.
Qed.

Ltac rely_inst :=
  try lazymatch goal with |- Rely _ _ => apply _ end.

Lemma ud_typewriterLine rid nodes m {P} `{!Rely P (undisturbed rid nodes m)}
    x text r ctx cur rest :
  (forall st, P st -> current rid m st) ->
  r < rid -> runId ctx < rid ->
  (forall s, P s -> blank_node m x s) ->
  keeps P (undisturbed rid nodes m)
    (typewriterLine (RNode x) text r (RetOverlay ctx cur rest)).
Proof.
  intros Hcur Hr Hctx Hx. unfold typewriterLine.
  apply keeps_bind; rely_inst; [by apply ud_clear | intros _].
  apply ud_with_new; rely_inst; [done | intros caret Hc].
  apply keeps_bind; rely_inst; [apply ud_appendChild; rely_inst; by intros s [_ Hb] | intros _].
  apply ud_typewriter_loop; rely_inst; try done. intros st [HP _]. by apply Hcur.
Qed.

Lemma ud_overlay_line rid nodes m {P} `{!Rely P (undisturbed rid nodes m)}
    ctx cur line rest :
  (forall st, P st -> current rid m st) ->
  runId ctx < rid -> useNodes ctx = true ->
  keeps P (undisturbed rid nodes m) (overlay_line ctx cur line rest).
Proof.
  intros Hcur Hctx Hn. unfold overlay_line. rewrite Hn.
  apply ud_with_new; rely_inst; [done | intros node Hne].
  apply keeps_bind; rely_inst; [apply ud_appendChild; rely_inst; by intros s [_ Hb] | intros _].
  apply keeps_bind; rely_inst; [apply ud_frame; rely_inst | intros _].
  apply ud_typewriterLine; rely_inst; try done.
  - intros st [HP _]. by apply Hcur.
  - by intros s [_ Hb].
Qed.

Lemma kids_class_add c e : kids (class_add c e) = kids e.
Proof. unfold class_add. by destruct (has_class c e). Qed.

(** A task of an earlier run, run while [rid] is current. *)
Lemma ud_run_task rid nodes m t :
  earlier_task rid m t ->
  keeps (current rid m) (undisturbed rid nodes m) (run_task t).
Proof.
  intros Ht. destruct t as [ms k|n]; simpl.
  - destruct k as [ctx n l rest|el s i r c ret|ctx cur rest|r]; simpl in *.
    + destruct Ht as (Hr & Hn & Hlt).
      apply keeps_bind; rely_inst; [apply ud_remove; rely_inst; lia | intros _].
      apply ud_overlay_line; rely_inst; done.
    + destruct ret as [ctx cur rest|]; [|done]. destruct Ht as (Hr & Hctx & Hlt).
      apply ud_typewriter_loop; rely_inst; try done. lia.
    + intros st [Hrid _]. destruct rest as [|line rest].
      * apply undisturbed_refl.
      * rewrite overlay_loop_stale by lia. apply undisturbed_refl.
    + done.
  - apply ud_on_el; rely_inst; [|done]. intros e. apply kids_class_add.
Qed.

Lemma earlier_quiet rid m t : earlier_task rid m t -> timer_of rid t = false.
Proof.
  destruct t as [ms k|n]; [|done].
  destruct k as [ctx n l rest|el s i r c ret|ctx cur rest|r]; simpl;
    try (intros; apply Z.eqb_neq; lia).
  destruct ret; [|done]. intros; apply Z.eqb_neq; lia.
Qed.

Lemma own_timer_of rid el c msg n t :
  own_timer rid el c msg n t -> timer_of rid t = true.
Proof.
  unfold own_timer. case_decide.
  - intros (ms & ->). simpl. apply Z.eqb_refl.
  - intros ->. simpl. apply Z.eqb_refl.
Qed.

Lemma delete_around {A} (P : A -> Prop) pre (t0 : A) post k t :
  (pre ++ t0 :: post) !! k = Some t -> k <> length pre ->
  Forall P (pre ++ post) ->
  P t /\ exists pre' post',
    delete k (pre ++ t0 :: post) = pre' ++ t0 :: post' /\
    Forall P (pre' ++ post').
Proof.
  revert k. induction pre as [|a pre IH]; intros k Hk Hne HP; simpl in *.
  - destruct k as [|k]; [done |]. simpl in Hk. split.
    + rewrite Forall_lookup in HP. by apply (HP k).
    + exists [], (delete k post). split; [done |]. by apply Forall_delete.
  - apply Forall_cons_1 in HP as [Ha HP]. destruct k as [|k]; simpl in *.
    + injection Hk as <-. split; [done |]. by exists pre, post.
    + destruct (IH k Hk ltac:(lia) HP) as (Ht & pre' & post' & Hd & HP').
      split; [done |]. exists (a :: pre'), post'. simpl. rewrite Hd.
      split; [done |]. by constructor.
Qed.

Section Announcement.

Variables (rid : Z) (nodes : bool) (m c : nat) (msg : jsstring)
  (typed : list N).
Hypothesis Hcm : nodes = true -> c <> m.

(** A task of an earlier run fires: the announcement is where it was. *)
Lemma announcing_other n s k t :
  announcing rid nodes m c msg typed n s ->
  pending s !! k = Some t -> timer_of rid t = false ->
  announcing rid nodes m c msg typed n (fire k s).
Proof.
  intros (Hcur & Han & Hch & pre & t0 & post & Hp & Hown & Hothers) Hk Ht.
  assert (Hne : k <> length pre).
  { intros ->. rewrite Hp, list_lookup_middle in Hk by done.
    injection Hk as <-. rewrite (own_timer_of _ _ _ _ _ _ Hown) in Ht. done. }
  rewrite Hp in Hk.
  destruct (delete_around _ pre t0 post k t Hk Hne Hothers)
    as (Het & pre' & post' & Hd & Hothers').
  rewrite <- Hp in Hk, Hd.
  unfold fire. rewrite Hk. set (s0 := set_pending _ s).
  assert (HR : undisturbed rid nodes m s0
                 (snd (async_call (run_task t) s0))).
  { apply (keeps_async (P := current rid m)).
    - intros st _. by apply undisturbed_record.
    - by apply ud_run_task.
    - exact Hcur. }
  destruct HR as [R1 R2 R3 (new & R4 & R4') R5 R6].
  split; [|split; [|split]].
  - destruct Hcur as [C1 C2]. split; [by rewrite R1 |].
    change (heap s0) with (heap s) in R3. lia.
  - by apply R6.
  - by rewrite R2.
  - exists pre', t0, (post' ++ new). split; [|split; [done |]].
    + rewrite R4. subst s0. simpl. rewrite Hd. by rewrite <- app_assoc.
    + rewrite app_assoc. by apply Forall_app_2.
Qed.

(** The announcement's own timer fires: one more character. *)
Lemma announcing_own n s :
  (n < length msg)%nat ->
  announcing rid nodes m c msg typed n s ->
  announcing rid nodes m c msg typed (S n) (advance rid s).
Proof.
  intros Hn (Hcur & Han & Hch & pre & t0 & post & Hp & Hown & Hothers).
  unfold own_timer in Hown. rewrite decide_True in Hown by done.
  destruct Hown as (ms & ->). destruct Hcur as [C1 C2].
  assert (Hq : quiet rid pre).
  { apply Forall_app in Hothers as [Hpre _].
    eapply Forall_impl; [|exact Hpre]. intros t. apply earlier_quiet. }
  assert (He : exists e, get_el (target nodes m) s = Some e /\
                         textContent e = take (S n) msg).
  { unfold announces, target in *. destruct nodes.
    - destruct Han as (eL & e & l1 & l2 & _ & _ & _ & He & Hte). by exists e.
    - destruct Han as (_ & e & He & Hte). by exists e. }
  destruct He as (e & He & Hte).
  assert (Hkeep : forall s' txt',
    same_but (target nodes m) c s s' ->
    (exists e', get_el (target nodes m) s' = Some e' /\ textContent e' = txt') ->
    current rid m s' /\ announces nodes m txt' s').
  { intros s' txt' [S1 S2 S3 S4] (e' & He' & Hte'). split.
    { split; [congruence | lia]. }
    apply (announces_kept nodes m (take (S n) msg) txt' s s'
             (fun x => negb (is_child c x)) []); try done.
    - intros r e1 Hr He1. exists (drop_child c e1). rewrite S4, He1 by done.
      split; [done |]. apply textContent_drop_child.
    - intros _ _ _. by exists e'.
    - intros HN. change (get_el RLines s' = None).
      rewrite S4 by (unfold target; destruct nodes; done).
      simpl. by rewrite HN.
    - intros eL HL. exists (drop_child c eL).
      change (get_el RLines s' = Some (drop_child c eL) /\
              kids (drop_child c eL) =
                List.filter (fun x => negb (is_child c x)) (kids eL) ++ []).
      rewrite S4 by (unfold target; destruct nodes; done).
      simpl. rewrite HL. split; [done |]. by rewrite app_nil_r.
    - intros Hnodes. split; [|constructor]. simpl.
      destruct (Nat.eqb_spec c m) as [Heq|]; [|done]. by apply Hcm in Heq. }
  destruct (msg !! S n) as [ch|] eqn:Hnext.
  - destruct (type_next rid _ msg n c (RetSuccess rid) s pre post ms e ch
                C1 Hp Hq He Hnext) as (T1 & T2 & T3 & T4).
    destruct (Hkeep (advance rid s) (take (S (S n)) msg) T3) as [K1 K2].
    { eexists. split; [exact T2 |].
      rewrite textContent_push_elem, textContent_drop_child,
        textContent_push_text, textContent_drop_child, Hte.
      by rewrite (take_S_r _ _ _ Hnext). }
    split; [done |]. split; [done |]. split.
    { rewrite T4. simpl. rewrite Hch, (take_S_r _ _ _ Hnext).
      by rewrite app_assoc. }
    eexists (pre ++ post), _, []. split; [by rewrite T1, app_assoc |].
    split; [|by rewrite app_nil_r].
    unfold own_timer. apply lookup_lt_Some in Hnext.
    rewrite decide_True by done. by eexists.
  - destruct (type_last rid _ msg n c (RetSuccess rid) s pre post ms e
                C1 Hp Hq He Hnext) as (T1 & T2 & T3 & T4).
    apply lookup_ge_None in Hnext.
    assert (Htake : take (S (S n)) msg = take (S n) msg)
      by (rewrite !take_ge by lia; done).
    destruct (Hkeep (advance rid s) (take (S (S n)) msg) T3) as [K1 K2].
    { eexists. split; [exact T2 |].
      by rewrite textContent_drop_child, Hte. }
    split; [done |]. split; [done |]. split.
    { rewrite T4. simpl. by rewrite Hch, Htake. }
    eexists (pre ++ post), _, []. split; [by rewrite T1, app_assoc |].
    split; [|by rewrite app_nil_r].
    unfold own_timer. rewrite decide_False by lia. done.
Qed.

Lemma announcing_interleaved n s s' :
  interleaved rid n s s' ->
  forall n0, (n0 + n <= length msg)%nat ->
    announcing rid nodes m c msg typed n0 s ->
    announcing rid nodes m c msg typed (n0 + n) s'.
Proof.
  induction 1 as [s|n s s' _ IH|n k t s s' Hk Ht _ IH]; intros n0 Hle Ha.
  - by rewrite Nat.add_0_r.
  - rewrite Nat.add_succ_r. apply (IH (S n0)); [lia |].
    apply announcing_own; [lia | done].
  - apply IH; [done |]. by eapply announcing_other.
Qed.

End Announcement.

(** [showProcessingSuccess] returns with the announcement under way. *)
Lemma success_announcing ch l st cont :
  container_of st = Some cont ->
  Forall (earlier_task (overlayRunId st + 1) (length (heap st))) (pending st) ->
  let rid := overlayRunId st + 1 in
  let m := length (heap st) in
  let nodes := bool_decide (cont = RLines) in
  let c := if nodes then S m else m in
  fst (showProcessingSuccess_with (ch :: l) st) = inr tt /\
  announcing rid nodes m c (ch :: l) (chars_of (trace st)) 0
    (snd (showProcessingSuccess_with (ch :: l) st)).
Proof.
  intros Hc Hp rid m nodes c.
  assert (Hq : quiet rid (pending st)).
  { eapply Forall_impl; [|exact Hp]. intros t. apply earlier_quiet. }
  destruct (success_typed ch l st cont Hc Hq) as (H0 & _).
  split; [done |]. clear H0.
  rewrite (success_prefix (ch :: l) st cont Hc). fold rid.
  destruct (cancelled_facts st) as (C1 & C2 & C3 & C4 & C5 & C6 & C7 & C8).
  unfold container_of in Hc.
  destruct (processingLines st) as [eL|] eqn:HL.
  - injection Hc as <-. subst nodes c. rewrite bool_decide_eq_true_2 by done.
    destruct (with_node_facts ["status-line"%string; "show"%string]
                (cancelled st) (set_kids [] eL))
      as (W1 & W2 & W3 & W4 & W5 & W6 & (eY & W7 & W7') & _ & W9);
      [by rewrite C6 | done |].
    rewrite C5 in W4, W5, W6, W7'. fold m in W4, W5, W6, W7'.
    set (y := with_node _ _) in *. clearbody y.
    destruct (typewriterLine_first rid (RNode m) ch l (RetSuccess rid) y _
                ltac:(by rewrite W1, C1) W6)
      as ((e1 & F1 & F1') & F2 & F3 & F4 & F5 & F6).
    rewrite W5 in F2, F4, F5. fold m.
    split; [split; [done | lia] |]. split; [|split].
    + specialize (F2 RLines ltac:(done) ltac:(done)). cbn [get_el] in F2, F1.
      rewrite W7 in F2. cbn [fmap option_fmap option_map] in F2.
      exists (drop_child (S m) eY), e1, [], [].
      split; [done |]. split; [apply drop_child_other; [done | lia] |].
      split; [constructor |]. done.
    + rewrite F6, W4. simpl. by rewrite C4.
    + eexists (pending st), _, []. split; [by rewrite F4, W2, C2 |].
      split; [|by rewrite app_nil_r].
      unfold own_timer. rewrite decide_True by (simpl; lia). by eexists.
  - destruct (processingSub st) as [eS|] eqn:HS; [|done].
    injection Hc as <-. subst nodes c. rewrite bool_decide_eq_false_2 by done.
    destruct (typewriterLine_first rid RSub ch l (RetSuccess rid)
                (cancelled st) (set_kids [] eS) C1
                ltac:(by (simpl; rewrite C7)))
      as ((e1 & F1 & F1') & F2 & F3 & F4 & F5 & F6).
    rewrite C5 in F2, F4, F5. fold m in F2, F4, F5. fold m.
    split; [split; [done | lia] |]. split; [|split].
    + specialize (F2 RLines ltac:(done) ltac:(done)). cbn [get_el] in F2, F1.
      rewrite C6 in F2. cbn [fmap option_fmap option_map] in F2.
      split; [done |]. by exists e1.
    + by rewrite F6, C4.
    + eexists (pending st), _, []. split; [by rewrite F4, C2 |].
      split; [|by rewrite app_nil_r].
      unfold own_timer. rewrite decide_True by (simpl; lia). by eexists.
Qed.

(** Whatever the tasks left by earlier overlay runs do, and whenever they do
    it, the announcement goes its way. *)
Theorem announcement_survives_earlier_tasks (st : State) (cont : ElRef)
    (Hc : container_of st = Some cont)
    (Hp : Forall (earlier_task (overlayRunId st + 1) (length (heap st)))
            (pending st)) :
  let rid := overlayRunId st + 1 in
  let s1 := step st EvSuccess in
  forall n s', interleaved rid n s1 s' -> (n <= length SUCCESS_MSG)%nat ->
    overlayRunId s' = rid /\
    concat (shown_lines s') = take (S n) SUCCESS_MSG /\
    chars_of (trace s') = chars_of (trace st) ++ take (S n) SUCCESS_MSG /\
    (n = length SUCCESS_MSG ->
       In (TTimer (Fin 240) (KSettle rid)) (pending s') /\
       let sH := advance rid s' in
       selectedFiles sH = [] /\
       selectedTrainType sH = ""%string /\
       overlayRunId sH = rid + 1 /\
       concat (shown_lines sH) = [] /\
       has_class "hidden" <$> processingOverlay sH =
         (fun _ => true) <$> processingOverlay s').
Proof.
  intros rid s1 n s' Hil Hn.
  assert (Hmsg : exists ch l, SUCCESS_MSG = ch :: l)
    by (eexists _, _; reflexivity).
  destruct Hmsg as (ch & l & Hmsg).
  destruct (success_announcing ch l st cont Hc Hp) as [H0 Ha].
  cbv zeta in Ha. rewrite <- Hmsg in H0, Ha. fold rid in Ha.
  change (showProcessingSuccess_with SUCCESS_MSG) with showProcessingSuccess
    in H0, Ha.
  assert (Hs1 : s1 = snd (showProcessingSuccess st)).
  { subst s1. simpl. by apply async_call_snd. }
  rewrite <- Hs1 in Ha.
  set (nodes := bool_decide (cont = RLines)) in *.
  set (m := length (heap st)) in *.
  set (c := if nodes then S m else m) in *.
  assert (Hcm : nodes = true -> c <> m).
  { intros Hn'. subst c. rewrite Hn'. lia. }
  pose proof (announcing_interleaved rid nodes m c SUCCESS_MSG
                (chars_of (trace st)) Hcm n s1 s' Hil 0%nat ltac:(lia) Ha)
    as (Hcur & Han & Hch & pre & t & post & Hpd & Hown & Hothers).
  simpl in Hch, Han. destruct Hcur as [C1 C2].
  split; [done |]. split; [by eapply announces_shown |]. split; [done |].
  intros ->. unfold own_timer in Hown. rewrite decide_False in Hown by lia.
  subst t. split.
  { rewrite Hpd. apply in_elt. }
  assert (Hq : quiet rid pre).
  { apply Forall_app in Hothers as [Hpre _].
    eapply Forall_impl; [|exact Hpre]. intros t. apply earlier_quiet. }
  intros sH.
  assert (HsH : sH = snd (resume (KSettle rid) (set_pending (pre ++ post) s'))).
  { subst sH. rewrite (advance_middle rid s' pre _ post Hpd Hq)
      by (simpl; apply Z.eqb_refl).
    apply async_call_snd. apply (settle_facts rid). }
  destruct (settle_facts rid (set_pending (pre ++ post) s'))
    as (_ & S1 & S2 & S3 & S4 & S5 & S6 & _).
  rewrite <- HsH in S1, S2, S3, S4, S5, S6.
  split; [done |]. split; [done |]. split; [by rewrite S3; simpl; rewrite C1 |].
  split; [done |]. exact S6.
Qed.

Lemma announcement_survives_earlier_tasks_witness :
  let s1 := step in_fade EvSuccess in
  container_of in_fade = Some RLines /\
  map task_view (pending s1) = [Some (Fin LINE_FADE_MS, 2); Some (Fin 60, 3)] /\
  concat (shown_lines (advance 3 (fire 0 s1))) = take 2 SUCCESS_MSG.
Proof.
  intros s1. split; [reflexivity |]. split; [vm_compute; reflexivity |].
  refine (proj1 (proj2
    (announcement_survives_earlier_tasks in_fade RLines eq_refl _
       1%nat (advance 3 (fire 0 s1)) _ _))).
  - vm_compute. constructor; [|constructor]. repeat split; lia.
  - eapply (il_other 3 1 0). 
    + vm_compute. reflexivity.
    + vm_compute. reflexivity.
    + apply il_own. apply il_done.
  - vm_compute. lia.
Defined.

(** ** Escaping: lemmas *)

Lemma replaceAll_app pat r a b :
  replaceAll pat r (a ++ b) = replaceAll pat r a ++ replaceAll pat r b.
Proof. apply flat_map_app. Qed.

Lemma replaceAll_flat_map pat r (f : N -> jsstring) s :
  replaceAll pat r (flat_map f s) = flat_map (fun c => replaceAll pat r (f c)) s.
Proof.
  induction s as [|c s IH]; simpl; [done |].
  by rewrite replaceAll_app, IH.
Qed.

Lemma replaceAll_unit pat r c :
  replaceAll pat r [c] = if (c =? pat)%N then r else [c].
Proof. unfold replaceAll. simpl. by rewrite app_nil_r. Qed.

Lemma escape_unit c : escapeHtml [c] = entity c.
Proof.
  unfold escapeHtml, entity.
  destruct (N.eqb_spec c 38) as [->|H38]; [reflexivity |].
  destruct (N.eqb_spec c 60) as [->|H60]; [reflexivity |].
  destruct (N.eqb_spec c 62) as [->|H62]; [reflexivity |].
  destruct (N.eqb_spec c 34) as [->|H34]; [reflexivity |].
  destruct (N.eqb_spec c 39) as [->|H39]; [reflexivity |].
  apply N.eqb_neq in H38, H60, H62, H34, H39.
  rewrite replaceAll_unit, H38, replaceAll_unit, H60, replaceAll_unit, H62,
    replaceAll_unit, H34, replaceAll_unit, H39.
  done.
Qed.

Lemma escape_flat_map s : escapeHtml s = flat_map entity s.
Proof.
  transitivity (flat_map (fun c => escapeHtml [c]) s).
  - unfold escapeHtml at 1.
    assert (H : s = flat_map (fun c => [c]) s).
    { induction s as [|c s IH]; simpl; [done | by rewrite <- IH]. }
    rewrite H at 1. rewrite !replaceAll_flat_map. done.
  - apply flat_map_ext. intros c. apply escape_unit.
Qed.

Lemma entity_plain c : html_special c = false -> entity c = [c].
Proof.
  unfold html_special, entity. intros H.
  repeat (apply orb_false_elim in H as [H ?]).
  by repeat match goal with E : _ = false |- _ => rewrite E; clear E end.
Qed.

Lemma entity_safe c :
  Forall (fun x => x <> 60 /\ x <> 62 /\ x <> 34 /\ x <> 39)%N (entity c).
Proof.
  unfold entity.
  destruct (N.eqb_spec c 38); [by repeat constructor |].
  destruct (N.eqb_spec c 60); [by repeat constructor |].
  destruct (N.eqb_spec c 62); [by repeat constructor |].
  destruct (N.eqb_spec c 34); [by repeat constructor |].
  destruct (N.eqb_spec c 39); [by repeat constructor |].
  by repeat constructor.
Qed.

(** Two code units with the same first two units of their entities, read
    off the front of a longer string, are the same unit. *)
Lemma entity_inj c d x y :
  entity c ++ x = entity d ++ y -> c = d /\ x = y.
Proof.
  unfold entity.
  destruct (N.eqb_spec c 38) as [->|?]; destruct (N.eqb_spec d 38) as [->|?];
  try (destruct (N.eqb_spec c 60) as [->|?]);
  try (destruct (N.eqb_spec d 60) as [->|?]);
  try (destruct (N.eqb_spec c 62) as [->|?]);
  try (destruct (N.eqb_spec d 62) as [->|?]);
  try (destruct (N.eqb_spec c 34) as [->|?]);
  try (destruct (N.eqb_spec d 34) as [->|?]);
  try (destruct (N.eqb_spec c 39) as [->|?]);
  try (destruct (N.eqb_spec d 39) as [->|?]);
  cbn; intros [=]; subst; try done.
Qed.

Lemma entity_cons c : exists h tl, entity c = h :: tl.
Proof.
  unfold entity.
  repeat match goal with
         | |- context [if ?b then _ else _] => destruct b
         end; eexists _, _; reflexivity.
Qed.

Lemma flat_map_entity_inj s : forall t,
  flat_map entity s = flat_map entity t -> s = t.
Proof.
  induction s as [|c s IH]; intros [|d t]; simpl.
  - done.
  - destruct (entity_cons d) as (h & tl & ->). done.
  - destruct (entity_cons c) as (h & tl & ->). done.
  - intros H. apply entity_inj in H as [-> H]. f_equal. by apply IH.
Qed.

(** escapeHtml: the five replacements in a row escape each code unit once
    (none touches what an earlier one has written), so the result is the
    concatenation of the units' entities; escaping distributes over
    concatenation and leaves a string without an ampersand, an angle
    bracket or a quote as it is. *)
Theorem escapeHtml_escapes_once (a b : jsstring) :
  escapeHtml a = flat_map entity a /\
  escapeHtml (a ++ b) = escapeHtml a ++ escapeHtml b /\
  (forallb (fun c => negb (html_special c)) a = true -> escapeHtml a = a).
Proof.
  split; [apply escape_flat_map |]. split.
  - rewrite !escape_flat_map. apply flat_map_app.
  - rewrite escape_flat_map. induction a as [|c a IH]; [done |].
    simpl. intros [Hc Ha]%andb_true_iff. apply negb_true_iff in Hc.
    rewrite (entity_plain c Hc), IH by done. done.
Qed.

(** The result of escapeHtml holds no angle bracket and no quote, single
    or double, and escapeHtml never maps two strings to the same text. *)
Theorem escapeHtml_safe_and_injective (s t : jsstring) :
  Forall (fun x => x <> 60 /\ x <> 62 /\ x <> 34 /\ x <> 39)%N (escapeHtml s) /\
  (escapeHtml s = escapeHtml t -> s = t).
Proof.
  split.
  - rewrite escape_flat_map. induction s as [|c s IH]; simpl; [constructor |].
    apply Forall_app_2; [apply entity_safe | done].
  - rewrite !escape_flat_map. apply flat_map_entity_inj.
Qed.

(** ** Selecting files: lemmas *)

Lemma digits_no_colon d : Forall (fun c => c <> 58%N) (digits d).
Proof. induction d; simpl; constructor; done. Qed.

Lemma digits_inj d d' : digits d = digits d' -> d = d'.
Proof.
  revert d'. induction d; destruct d'; simpl; intros [=]; f_equal; auto.
Qed.

Lemma decimal_inj n n' : decimal n = decimal n' -> n = n'.
Proof.
  intros H. by apply DecimalN.Unsigned.to_uint_inj, digits_inj.
Qed.

(** Cutting a string at its last colon. *)
Lemma last_colon x y u v :
  Forall (fun c => c <> 58%N) u -> Forall (fun c => c <> 58%N) v ->
  x ++ 58%N :: u = y ++ 58%N :: v -> x = y /\ u = v.
Proof.
  intros Hu Hv. revert y. induction x as [|c x IH]; intros [|d y]; simpl.
  - by intros [=].
  - intros [= ? ?]; subst. apply Forall_app in Hu as [_ Hu].
    by apply Forall_cons_1 in Hu as [? _].
  - intros [= ? ?]; subst. apply Forall_app in Hv as [_ Hv].
    by apply Forall_cons_1 in Hv as [? _].
  - intros [= -> H]. destruct (IH y H) as [-> ->]. done.
Qed.

Lemma fileKey_inj f g :
  fileKey f = fileKey g ->
  file_name f = file_name g /\ file_size f = file_size g /\
  file_lastModified f = file_lastModified g.
Proof.
  unfold fileKey. intros H.
  change (str "::") with [58%N; 58%N] in H. simpl in H.
  assert (H1 : (file_name f ++ 58%N :: 58%N :: decimal (file_size f) ++ [58%N])
               ++ 58%N :: decimal (file_lastModified f) =
               (file_name g ++ 58%N :: 58%N :: decimal (file_size g) ++ [58%N])
               ++ 58%N :: decimal (file_lastModified g)).
  { rewrite <- !app_assoc. simpl. by rewrite <- !app_assoc. }
  apply last_colon in H1 as [H1 H2]; [| apply digits_no_colon..].
  apply decimal_inj in H2.
  assert (H1' : (file_name f ++ 58%N :: 58%N :: decimal (file_size f)) ++ [58%N] =
                (file_name g ++ 58%N :: 58%N :: decimal (file_size g)) ++ [58%N])
    by (rewrite <- !app_assoc; exact H1).
  apply app_inj_tail in H1' as [H1' _].
  assert (H3 : (file_name f ++ [58%N]) ++ 58%N :: decimal (file_size f) =
               (file_name g ++ [58%N]) ++ 58%N :: decimal (file_size g))
    by (rewrite <- !app_assoc; exact H1').
  apply last_colon in H3 as [H3 H4]; [| apply digits_no_colon..].
  apply decimal_inj in H4. apply app_inj_tail in H3 as [H3 _]. done.
Qed.

Lemma addFiles_loop_present (incoming selected : list File)
    (existing : list jsstring) (added : nat) :
  (forall f, f ∈ incoming -> fileKey f ∈ existing) ->
  addFiles_loop incoming selected existing added = (selected, added).
Proof.
  induction incoming as [|f rest IH]; intros H; simpl; [done |].
  rewrite bool_decide_eq_true_2 by (apply H; left).
  apply IH. intros g Hg. apply H. by right.
Qed.

Lemma addFiles_loop_spec (incoming : list File) :
  forall (selected : list File) (existing : list jsstring) (added : nat),
    (forall k, k ∈ existing <-> k ∈ map fileKey selected) ->
    exists new,
      addFiles_loop incoming selected existing added =
        (selected ++ new, (added + length new)%nat) /\
      new `sublist_of` incoming /\
      (NoDup (map fileKey selected) -> NoDup (map fileKey (selected ++ new))) /\
      (forall f, f ∈ incoming -> fileKey f ∈ map fileKey (selected ++ new)) /\
      (forall f, f ∈ new -> fileKey f ∉ map fileKey selected).
Proof.
  induction incoming as [|f rest IH]; intros selected existing added Hex; simpl.
  - exists []. rewrite app_nil_r, Nat.add_0_r. split; [done |].
    split; [done |]. split; [done |]. split; [|by intros ? ?%elem_of_nil].
    by intros ? ?%elem_of_nil.
  - case_bool_decide as Hk.
    + destruct (IH selected existing added Hex)
        as (new & H1 & H2 & H3 & H4 & H5).
      exists new. split; [done |]. split; [by apply sublist_cons |].
      split; [done |]. split; [|done].
      intros g [->|Hg]%elem_of_cons; [|by apply H4].
      rewrite map_app. apply elem_of_app. left. by apply Hex.
    + assert (Hk' : fileKey f ∉ map fileKey selected) by (by rewrite <- Hex).
      destruct (IH (selected ++ [f]) (existing ++ [fileKey f]) (S added))
        as (new & H1 & H2 & H3 & H4 & H5).
      { intros k. rewrite map_app. simpl. by rewrite !elem_of_app, Hex. }
      exists (f :: new). rewrite H1, <- app_assoc. simpl.
      split; [f_equal; lia |]. split; [by apply sublist_skip |].
      rewrite <- app_assoc in H3, H4. simpl in H3, H4.
      split; [|split].
      * intros Hnd. apply H3. rewrite map_app. simpl.
        apply list.NoDup_app. split; [done |]. split.
        -- intros k Hin ->%list_elem_of_singleton. done.
        -- apply NoDup_singleton.
      * intros g [->|Hg]%elem_of_cons; [|by apply H4].
        rewrite map_app. apply elem_of_app. right. simpl. left.
      * intros g [->|Hg]%elem_of_cons; [done |].
        intros Hin. apply (H5 g Hg). rewrite map_app. apply elem_of_app.
        by left.
Qed.

Lemma filter_nil_length {A} (p : A -> bool) (l : list A) :
  (length (List.filter p l) =? 0)%nat = negb (existsb p l).
Proof.
  induction l as [|x l IH]; simpl; [done |].
  destruct (p x); simpl; [done | exact IH].
Qed.

(** fileKey: two files have the same key exactly when they have the same
    name, size and modification time, whatever the name contains. *)
Theorem fileKey_injective (f g : File) :
  fileKey f = fileKey g <->
  file_name f = file_name g /\ file_size f = file_size g /\
  file_lastModified f = file_lastModified g.
Proof.
  split; [apply fileKey_inj |].
  unfold fileKey. by intros (-> & -> & ->).
Qed.

(** Every file that isPdf accepts, isSupportedFile accepts. *)
Theorem isPdf_isSupportedFile (file : File) (H : isPdf file = true) :
  isSupportedFile file = true.
Proof.
  unfold isPdf, isSupportedFile in *. apply orb_true_iff in H as [H|H].
  - apply orb_true_iff. left. simpl. by rewrite H.
  - apply orb_true_iff. right. apply bool_decide_eq_true_1 in H.
    apply bool_decide_eq_true_2. rewrite H. left.
Qed.

Lemma isPdf_isSupportedFile_witness :
  isSupportedFile (mkFile (str "Trial.PDF") 1048575 1700000000000 []) = true.
Proof. apply isPdf_isSupportedFile. vm_compute. reflexivity. Defined.

(** ** Sizes: lemmas *)

Lemma bytesToSize_loop_KB n :
  1024 <= n < 2 ^ 20 -> bytesToSize_loop 2 n 1024 0 = (1024, 0%nat).
Proof.
  intros H. simpl. destruct (Z.leb_spec (1024 * 1024) n); [lia | done].
Qed.

Lemma bytesToSize_loop_MB n :
  2 ^ 20 <= n < 2 ^ 30 -> bytesToSize_loop 2 n 1024 0 = (2 ^ 20, 1%nat).
Proof.
  intros H. simpl. destruct (Z.leb_spec (1024 * 1024) n); [|lia]. simpl.
  destruct (Z.leb_spec (1024 * (1024 * 1024)) n); [lia | done].
Qed.

Lemma bytesToSize_loop_GB n :
  2 ^ 30 <= n -> bytesToSize_loop 2 n 1024 0 = (2 ^ 30, 2%nat).
Proof.
  intros H. simpl. destruct (Z.leb_spec (1024 * 1024) n); [|lia]. simpl.
  destruct (Z.leb_spec (1024 * (1024 * 1024)) n); [done | lia].
Qed.

(** bytesToSize: bytes below 1024, then KB, MB and GB by powers of 1024,
    and GB however large the size; the number is the size in that unit,
    rounded to a tenth below 10 and to an integer from 10 on.  So the last
    512 bytes before a unit are printed as 1024 of the unit below, and from
    9.95 up to 10 as 10.0. *)
Theorem bytesToSize_units (bytes : N) (H : (bytes < 2 ^ 53)%N) :
  let n := Z.of_N bytes in
  (n < 1024 -> bytesToSize bytes = decimal bytes ++ str " B") /\
  (1024 <= n < 2 ^ 20 ->
     bytesToSize bytes = toFixed n 1024 (n <? 10 * 1024) ++ str " KB") /\
  (2 ^ 20 <= n < 2 ^ 30 ->
     bytesToSize bytes = toFixed n (2 ^ 20) (n <? 10 * 2 ^ 20) ++ str " MB") /\
  (2 ^ 30 <= n ->
     bytesToSize bytes = toFixed n (2 ^ 30) (n <? 10 * 2 ^ 30) ++ str " GB") /\
  (2 ^ 20 - 512 <= n < 2 ^ 20 -> bytesToSize bytes = str "1024 KB") /\
  (2 ^ 30 - 2 ^ 19 <= n < 2 ^ 30 -> bytesToSize bytes = str "1024 MB") /\
  (10189 <= n < 10240 -> bytesToSize bytes = str "10.0 KB").
Proof.
  intros n. clear H.
  assert (Hneg : forall a, negb (a <=? n) = (n <? a)).
  { intros a. destruct (Z.leb_spec a n), (Z.ltb_spec n a); (done || lia). }
  assert (HKB : 1024 <= n < 2 ^ 20 ->
    bytesToSize bytes = toFixed n 1024 (n <? 10 * 1024) ++ str " KB").
  { intros Hn. unfold bytesToSize. fold n.
    destruct (Z.ltb_spec n 1024); [lia |].
    rewrite (bytesToSize_loop_KB n Hn), Hneg. done. }
  assert (HMB : 2 ^ 20 <= n < 2 ^ 30 ->
    bytesToSize bytes = toFixed n (2 ^ 20) (n <? 10 * 2 ^ 20) ++ str " MB").
  { intros Hn. unfold bytesToSize. fold n.
    destruct (Z.ltb_spec n 1024); [lia |].
    rewrite (bytesToSize_loop_MB n Hn), Hneg. done. }
  split; [|split; [done |split; [done |split; [|split; [|split]]]]].
  - intros Hn. unfold bytesToSize. fold n.
    by destruct (Z.ltb_spec n 1024); [|lia].
  - intros Hn. unfold bytesToSize. fold n.
    destruct (Z.ltb_spec n 1024); [lia |].
    rewrite (bytesToSize_loop_GB n Hn), Hneg. done.
  - intros Hn. rewrite HKB by lia.
    destruct (Z.ltb_spec n (10 * 1024)); [lia |]. unfold toFixed.
    replace ((2 * n + 1024) / (2 * 1024)) with 1024; [vm_compute; reflexivity |].
    apply Z.div_unique with (r := 2 * n + 1024 - 2048 * 1024); lia.
  - intros Hn. rewrite HMB by lia.
    destruct (Z.ltb_spec n (10 * 2 ^ 20)); [lia |]. unfold toFixed.
    replace ((2 * n + 2 ^ 20) / (2 * 2 ^ 20)) with 1024; [vm_compute; reflexivity |].
    apply Z.div_unique with (r := 2 * n + 2 ^ 20 - 2 * 2 ^ 20 * 1024); lia.
  - intros Hn. rewrite HKB by lia.
    destruct (Z.ltb_spec n (10 * 1024)); [|lia]. unfold toFixed.
    replace ((2 * n * 10 + 1024) / (2 * 1024)) with 100; [vm_compute; reflexivity |].
    apply Z.div_unique with (r := 2 * n * 10 + 1024 - 2048 * 100); lia.
Qed.

Lemma bytesToSize_units_witness :
  (1048575 < 2 ^ 53)%N /\ bytesToSize 1048575 = str "1024 KB".
Proof.
  split; [reflexivity |].
  refine (proj1 (proj2 (proj2 (proj2 (proj2
            (bytesToSize_units 1048575 eq_refl))))) _).
  vm_compute. split; [discriminate | reflexivity].
Defined.

(** ** The progress bar: lemmas *)

(** *** Comparing doubles *)

Lemma SFcompare_antisym x y :
  SFcompare y x = option_map CompOpp (SFcompare x y).
Proof.
  destruct x as [s| s| |s m e], y as [s'| s'| |s' m' e']; simpl; try done;
    try (by destruct s); try (by destruct s'); try (by destruct s, s').
  destruct s, s'; simpl; try done.
  - rewrite (Z.compare_antisym e e'). destruct (e ?= e'); simpl; try done.
    do 2 f_equal. symmetry. exact (Pos.compare_cont_antisym m m' Eq).
  - rewrite (Z.compare_antisym e e'). destruct (e ?= e'); simpl; try done.
    f_equal. symmetry. exact (Pos.compare_cont_antisym m m' Eq).
Qed.

Lemma SFcompare_refl x : x <> S754_nan -> SFcompare x x = Some Eq.
Proof.
  destruct x as [s| s| |s m e]; simpl; try done.
  - by destruct s.
  - intros _. rewrite Z.compare_refl, Pos.compare_cont_refl. by destruct s.
Qed.

Lemma SFcompare_some x y :
  x <> S754_nan -> y <> S754_nan -> exists c, SFcompare x y = Some c.
Proof.
  destruct x as [s| s| |s m e], y as [s'| s'| |s' m' e']; simpl;
    try done; intros _ _; eauto.
Qed.

Lemma is_nan_false x : PrimFloat.is_nan x = false <-> Prim2SF x <> S754_nan.
Proof.
  unfold PrimFloat.is_nan. rewrite FloatAxioms.eqb_spec. unfold SFeqb.
  destruct (Prim2SF x) as [s| s| |s m e] eqn:Hx; simpl.
  - done.
  - split; [done | by destruct s].
  - split; [done | by intros []].
  - rewrite Z.compare_refl, Pos.compare_cont_refl. split; [done | by destruct s].
Qed.

Lemma ltb_leb x y : (x <? y)%float = true -> (x <=? y)%float = true.
Proof.
  rewrite ltb_spec, leb_spec. unfold SFltb, SFleb.
  by destruct (SFcompare (Prim2SF x) (Prim2SF y)) as [[]|].
Qed.

Lemma ltb_not_nan x y :
  (x <? y)%float = true ->
  PrimFloat.is_nan x = false /\ PrimFloat.is_nan y = false.
Proof.
  rewrite ltb_spec, !is_nan_false. unfold SFltb.
  destruct (Prim2SF x) as [s| s| |s m e], (Prim2SF y) as [s'| s'| |s' m' e'];
    simpl; done.
Qed.

Lemma nlt_leb x y :
  PrimFloat.is_nan x = false -> PrimFloat.is_nan y = false ->
  (x <? y)%float = false -> (y <=? x)%float = true.
Proof.
  rewrite !is_nan_false, ltb_spec, leb_spec. unfold SFltb, SFleb.
  intros Hx Hy. rewrite (SFcompare_antisym (Prim2SF x) (Prim2SF y)).
  destruct (SFcompare_some _ _ Hx Hy) as (c & ->). by destruct c.
Qed.

Lemma leb_nlt x y : (x <=? y)%float = true -> (y <? x)%float = false.
Proof.
  rewrite ltb_spec, leb_spec. unfold SFltb, SFleb.
  rewrite (SFcompare_antisym (Prim2SF x) (Prim2SF y)).
  by destruct (SFcompare (Prim2SF x) (Prim2SF y)) as [[]|].
Qed.

Lemma ltb_neqb x y : (x <? y)%float = true -> (y =? x)%float = false.
Proof.
  rewrite ltb_spec, FloatAxioms.eqb_spec. unfold SFltb, SFeqb.
  rewrite (SFcompare_antisym (Prim2SF x) (Prim2SF y)).
  by destruct (SFcompare (Prim2SF x) (Prim2SF y)) as [[]|].
Qed.

Lemma or_zero_not_nan x : PrimFloat.is_nan (or_zero x) = false.
Proof.
  unfold or_zero. destruct (PrimFloat.is_nan x) eqn:Hx; simpl; [done |].
  by destruct (PrimFloat.is_zero x).
Qed.

Lemma clamp_range v :
  PrimFloat.is_nan v = false ->
  (0 <=? clamp v 0 100)%float = true /\ (clamp v 0 100 <=? 100)%float = true.
Proof.
  intros Hv. unfold clamp.
  assert (Hm : PrimFloat.is_nan (Math_minf 100 v) = false /\
               (Math_minf 100 v <=? 100)%float = true).
  { unfold Math_minf. rewrite Hv.
    change (PrimFloat.is_nan 100) with false. cbn [orb].
    destruct (100 <? v)%float eqn:H1; [done |].
    destruct (v <? 100)%float eqn:H2; [split; [done | by apply ltb_leb] |].
    change (PrimFloat.get_sign 100) with false. cbv iota.
    split; [done |]. by apply nlt_leb. }
  destruct Hm as [Hm1 Hm2]. set (m := Math_minf 100 v) in *. clearbody m.
  unfold Math_maxf. rewrite Hm1.
  change (PrimFloat.is_nan 0) with false. cbn [orb].
  destruct (0 <? m)%float eqn:H1; [split; [by apply ltb_leb | done] |].
  destruct (m <? 0)%float eqn:H2; [done |].
  change (PrimFloat.get_sign 0) with false. cbv iota. done.
Qed.

Lemma clamp_in_range pct :
  (0 <? pct)%float = true -> (pct <=? 100)%float = true ->
  clamp (or_zero pct) 0 100 = pct.
Proof.
  intros H0 H100.
  destruct (ltb_not_nan _ _ H0) as [_ Hn].
  assert (Hz : PrimFloat.is_zero pct = false) by exact (ltb_neqb _ _ H0).
  unfold clamp, or_zero. rewrite Hn, Hz. cbn [orb].
  unfold Math_minf. rewrite Hn. change (PrimFloat.is_nan 100) with false.
  cbn [orb]. rewrite (leb_nlt _ _ H100).
  change (PrimFloat.get_sign 100) with false. cbv iota.
  assert (Hm : (if (pct <? 100)%float then pct else pct) = pct)
    by (by destruct (pct <? 100)%float).
  rewrite Hm. unfold Math_maxf. rewrite Hn.
  change (PrimFloat.is_nan 0) with false. cbn [orb]. by rewrite H0.
Qed.

(** setProgress gives the bar a width between 0 and 100, whatever number it
    is called with (NaN and the infinities included); a value strictly
    between 0 and 100 is shown as it is, and everything else of the state is
    left alone. *)
Theorem setProgress_in_range (pct : float) (st : Progress) :
  let st' := setProgress pct st in
  (forall p, progressBar st' = Some p ->
     (0 <=? p)%float = true /\ (p <=? 100)%float = true) /\
  ((0 <? pct)%float = true -> (pct <=? 100)%float = true ->
     progressBar st' = (fun _ => pct) <$> progressBar st) /\
  (PrimFloat.is_nan pct = true ->
     progressBar st' = (fun _ => 0%float) <$> progressBar st) /\
  (is_Some (progressBar st') <-> is_Some (progressBar st)) /\
  progressTimer st' = progressTimer st /\
  intervals st' = intervals st.
Proof.
  intros st'. subst st'. unfold setProgress. cbn [progressBar progressTimer intervals].
  split; [|split; [|split; [|split; [|done]]]].
  - intros p Hp. destruct (progressBar st); [|done].
    injection Hp as <-. apply clamp_range, or_zero_not_nan.
  - intros H0 H100. by rewrite clamp_in_range.
  - intros Hn. unfold or_zero. rewrite Hn. cbn [orb]. done.
  - apply fmap_is_Some.
Qed.

(** *** The simulated progress *)

Lemma next_p_90 : next_p 90 = 90%float.
Proof. vm_compute. reflexivity. Qed.

Lemma next_p_from_39 k : Nat.iter (k + 39) next_p 5%float = 90%float.
Proof.
  induction k as [|k IH]; [vm_compute; reflexivity |].
  simpl. rewrite IH. apply next_p_90.
Qed.

(** What every value of the simulation satisfies. *)
Lemma simulated_values k :
  let p := Nat.iter k next_p 5%float in
  (0 <? p)%float = true /\ (p <=? 100)%float = true /\
  (5 <=? p)%float = true /\ (p <=? 90)%float = true /\
  ((k < 39)%nat -> (p <? next_p p)%float = true) /\
  ((39 <= k)%nat -> p = 90%float).
Proof.
  intros p. subst p. destruct (decide (k < 39)%nat) as [Hlt|Hge].
  - assert (Htab : forallb (fun k =>
              let p := Nat.iter k next_p 5%float in
              (0 <? p)%float && (p <=? 100)%float && (5 <=? p)%float &&
              (p <=? 90)%float && (p <? next_p p)%float) (seq 0 39) = true)
      by (vm_compute; reflexivity).
    rewrite forallb_forall in Htab.
    specialize (Htab k ltac:(apply in_seq; lia)). cbv zeta in Htab.
    repeat (apply andb_true_iff in Htab as [Htab ?]).
    repeat split; try done. lia.
  - replace k with ((k - 39) + 39)%nat by lia. rewrite next_p_from_39.
    repeat split; try (vm_compute; reflexivity). lia.
Qed.

Lemma clamp_simulated k :
  clamp (or_zero (Nat.iter k next_p 5%float)) 0 100 = Nat.iter k next_p 5%float.
Proof.
  destruct (simulated_values k) as (H0 & H100 & _). by apply clamp_in_range.
Qed.

Lemma setProgress_simulated k st :
  setProgress (Nat.iter k next_p 5%float) st =
    mkProgress (progressTimer st) (intervals st) (intervals_made st)
      ((fun _ => Nat.iter k next_p 5%float) <$> progressBar st)
      ((fun _ => print_round (Nat.iter k next_p 5%float) ++ str "%") <$>
         progressPct st).
Proof. unfold setProgress. by rewrite clamp_simulated. Qed.

Lemma clear_progressTimer_one st :
  one_interval st ->
  clear_progressTimer st =
    mkProgress (progressTimer st) [] (intervals_made st) (progressBar st)
      (progressPct st).
Proof.
  unfold one_interval, clear_progressTimer, clearInterval.
  destruct st as [[id|] ivs made bar pct]; simpl.
  - intros (k & ->). cbn [List.filter fst]. by rewrite Nat.eqb_refl.
  - by intros ->.
Qed.

Lemma one_interval_step st ev : one_interval st -> one_interval (progress_step st ev).
Proof.
  intros H. destruct ev as [|v|v|id]; simpl.
  - unfold startSimulatedProgress. rewrite (clear_progressTimer_one st H).
    unfold one_interval. simpl. by exists 0%nat.
  - unfold stopSimulatedProgress. rewrite (clear_progressTimer_one st H).
    by unfold one_interval.
  - exact H.
  - unfold interval_fires, one_interval in *.
    destruct st as [[id0|] ivs made bar pct]; simpl in *.
    + destruct H as (k & ->). simpl.
      destruct (Nat.eqb_spec id0 id) as [->|Hne]; simpl; [|by exists k].
      by exists (S k).
    + by rewrite H.
Qed.

(** Whatever is called and whenever the interval fires, at most one interval
    is set, the one [progressTimer] names, and its value has been reached
    from 5 by the callback; after stopSimulatedProgress none is set and no
    interval callback changes anything any more. *)
Theorem simulated_progress_has_one_interval (evs : list ProgressEvent)
    (st0 : Progress) (H0 : one_interval st0) :
  let st := fold_left progress_step evs st0 in
  one_interval st /\
  forall finalPct,
    let st' := stopSimulatedProgress finalPct st in
    progressTimer st' = None /\ intervals st' = [] /\
    forall id, interval_fires id st' = st'.
Proof.
  intros st.
  assert (H : one_interval st).
  { subst st. revert st0 H0. induction evs as [|ev evs IH]; intros st0 H0;
      simpl; [done |]. apply IH. by apply one_interval_step. }
  split; [done |]. intros v st'. subst st'.
  unfold stopSimulatedProgress. rewrite (clear_progressTimer_one st H).
  cbn [intervals progressTimer intervals_made progressBar progressPct].
  split; [done |]. split; [done |]. intros id. done.
Qed.

Lemma simulated_progress_has_one_interval_witness :
  let st := fold_left progress_step
              [PvStart; PvInterval 1; PvStart; PvInterval 1; PvInterval 2]
              progress_page in
  one_interval progress_page /\
  progressTimer st = Some 2%nat /\
  map fst (intervals st) = [2%nat].
Proof.
  intros st. split; [reflexivity |]. split; [vm_compute; reflexivity |].
  pose proof (proj1 (simulated_progress_has_one_interval
                [PvStart; PvInterval 1; PvStart; PvInterval 1; PvInterval 2]
                progress_page eq_refl)) as H.
  cbv zeta in H. fold st in H. unfold one_interval in H.
  assert (Ht : progressTimer st = Some 2%nat) by (vm_compute; reflexivity).
  rewrite Ht in H. destruct H as (k & ->). reflexivity.
Defined.

(** The state after [startSimulatedProgress] and [k] firings. *)
Lemma simulated_state st k :
  one_interval st ->
  let id := S (intervals_made st) in
  let p := Nat.iter k next_p 5%float in
  Nat.iter k (interval_fires id) (startSimulatedProgress st) =
    mkProgress (Some id) [(id, p)] id ((fun _ => p) <$> progressBar st)
      ((fun _ => print_round p ++ str "%") <$> progressPct st).
Proof.
  intros H id p. subst p. induction k as [|k IH].
  - unfold startSimulatedProgress. rewrite (clear_progressTimer_one st H).
    rewrite (setProgress_simulated 0). reflexivity.
  - rewrite Nat.iter_succ, IH. unfold interval_fires.
    cbn [intervals List.find fst]. rewrite Nat.eqb_refl.
    change (next_p (Nat.iter k next_p 5%float))
      with (Nat.iter (S k) next_p 5%float).
    rewrite (setProgress_simulated (S k)).
    cbn [progressTimer intervals intervals_made progressBar progressPct map fst].
    rewrite Nat.eqb_refl.
    by destruct (progressBar st), (progressPct st).
Qed.

(** startSimulatedProgress puts the bar at 5; the [k]-th firing of its
    interval puts it at the [k]-th value of the callback, which grows
    strictly for 39 firings, is 90 from then on, and is never above 90. *)
Theorem simulated_progress_stops_at_90 (st : Progress) (k : nat)
    (H : one_interval st) :
  let id := S (intervals_made st) in
  let stk := Nat.iter k (interval_fires id) (startSimulatedProgress st) in
  let p := Nat.iter k next_p 5%float in
  progressTimer stk = Some id /\
  intervals stk = [(id, p)] /\
  progressBar stk = (fun _ => p) <$> progressBar st /\
  (5 <=? p)%float = true /\ (p <=? 90)%float = true /\
  ((k < 39)%nat -> (p <? next_p p)%float = true) /\
  ((39 <= k)%nat -> p = 90%float).
Proof.
  intros id stk p.
  destruct (simulated_values k) as (_ & _ & H5 & H90 & Hup & Htop).
  pose proof (simulated_state st k H) as Hs. cbv zeta in Hs.
  subst stk id p. rewrite Hs. done.
Qed.

Lemma simulated_progress_stops_at_90_witness :
  let st := Nat.iter 39 (interval_fires 1) (startSimulatedProgress progress_page) in
  one_interval progress_page /\ progressBar st = Some 90%float.
Proof.
  intros st. split; [reflexivity |].
  pose proof (simulated_progress_stops_at_90 progress_page 39 eq_refl) as H.
  cbv zeta in H. destruct H as (_ & _ & H & _ & _ & _ & H39).
  subst st. etrans; [exact H |]. by rewrite (H39 (le_n 39)).
Defined.

(** ** The console page: lemmas *)

Lemma renderFileList_selected reread pg :
  selected (renderFileList reread pg) = selected pg.
Proof.
  unfold renderFileList. destruct (fileList pg); [|done].
  by destruct (length (selected pg) =? 0)%nat.
Qed.

Lemma renderFileList_statusText reread pg :
  statusText (renderFileList reread pg) = statusText pg.
Proof.
  unfold renderFileList. destruct (fileList pg); [|done].
  by destruct (length (selected pg) =? 0)%nat.
Qed.

Lemma renderFileList_present reread pg :
  is_Some (fileList pg) ->
  renderFileList reread pg =
    if (length (selected pg) =? 0)%nat then
      setMetrics (metric_of reread (mFiles pg)) (metric_of reread (mChunks pg))
        (metric_of reread (mSkipped pg)) (set_fileList (Some NoFilesNotice) pg)
    else
      setMetrics (decimal (N.of_nat (length (selected pg))))
        (metric_of reread (mChunks pg)) (metric_of reread (mSkipped pg))
        (updateFileCount
           (set_fileList (Some (FileRows (rows_of (selected pg)))) pg)).
Proof. intros [v Hv]. unfold renderFileList. by rewrite Hv. Qed.

Lemma renderFileList_shows reread pg :
  shows_selection (renderFileList reread pg).
Proof.
  unfold renderFileList, shows_selection.
  destruct (fileList pg) as [v|] eqn:Hv; [|by rewrite Hv].
  destruct (length (selected pg) =? 0)%nat eqn:Hl; simpl; [|done].
  apply Nat.eqb_eq in Hl. by destruct (selected pg).
Qed.

Lemma shows_selection_same pg pg' :
  fileList pg' = fileList pg -> selected pg' = selected pg ->
  shows_selection pg -> shows_selection pg'.
Proof. unfold shows_selection. by intros -> ->. Qed.

Lemma addFiles_supported reread l pg :
  existsb isSupportedFile l = true ->
  exists new,
    addFiles_loop (List.filter isSupportedFile l) (selected pg)
      (map fileKey (selected pg)) 0 = (selected pg ++ new, length new) /\
    addFiles reread l pg =
      setStatus
        (if (length new =? 0)%nat then str "These Files are already added."
         else str "Added " ++ decimal (N.of_nat (length new)) ++ str " File" ++
              (if (length new =? 1)%nat then [] else str "s") ++ str ".")
        "online"
        (let pg := updateFileCount
                     (renderFileList reread
                        (set_selected (selected pg ++ new) pg)) in
         setMetrics (decimal (N.of_nat (length (selected pg))))
           (metric_of reread (mChunks pg)) (metric_of reread (mSkipped pg)) pg).
Proof.
  intros Hany. unfold addFiles. rewrite filter_nil_length, Hany. cbn [negb].
  destruct (addFiles_loop_spec (List.filter isSupportedFile l) (selected pg)
              (map fileKey (selected pg)) 0) as (new & H1 & _); [done |].
  exists new. rewrite H1. done.
Qed.

Lemma addFiles_unsupported reread l pg :
  existsb isSupportedFile l = false ->
  addFiles reread l pg =
    setStatus (str "Please select PDF files only.") "error" pg.
Proof.
  intros Hany. unfold addFiles. by rewrite filter_nil_length, Hany.
Qed.

Lemma addFiles_shows reread l pg :
  shows_selection pg -> shows_selection (addFiles reread l pg).
Proof.
  intros H. destruct (existsb isSupportedFile l) eqn:Hany.
  - destruct (addFiles_supported reread l pg Hany) as (new & _ & ->).
    eapply shows_selection_same; [| |apply (renderFileList_shows reread)];
      reflexivity.
  - rewrite (addFiles_unsupported reread l pg Hany).
    by eapply shows_selection_same.
Qed.

Lemma remove_clicked_shows reread i pg :
  shows_selection pg -> shows_selection (remove_clicked reread i pg).
Proof.
  intros H. unfold remove_clicked.
  destruct (fileList pg) as [[|rows]|]; try done.
  destruct (existsb _ rows); [apply renderFileList_shows | done].
Qed.

Lemma page_step_shows reread pg ev :
  shows_selection pg -> shows_selection (page_step reread pg ev).
Proof.
  intros H. destruct ev as [l|i| |]; simpl.
  - by apply addFiles_shows.
  - by apply remove_clicked_shows.
  - unfold clearFiles.
    eapply shows_selection_same; [| |apply (renderFileList_shows reread)];
      reflexivity.
  - apply renderFileList_shows.
Qed.

Lemma rows_of_lookup files i :
  rows_of files !! i =
    (fun f => mkRow (escapeHtml (file_name f)) (bytesToSize (file_size f)) i)
      <$> files !! i.
Proof. unfold rows_of. apply list_lookup_imap. Qed.

Lemma rows_of_has_idx files i :
  existsb (fun r => (row_idx r =? i)%nat) (rows_of files) =
    bool_decide (i < length files)%nat.
Proof.
  case_bool_decide as Hi.
  - apply existsb_exists. destruct (lookup_lt_is_Some_2 files i Hi) as [f Hf].
    exists (mkRow (escapeHtml (file_name f)) (bytesToSize (file_size f)) i).
    split; [|apply Nat.eqb_refl].
    apply list_elem_of_In, list_elem_of_lookup. exists i.
    by rewrite rows_of_lookup, Hf.
  - apply not_true_is_false. intros (r & Hr & Hidx)%existsb_exists.
    apply list_elem_of_In, list_elem_of_lookup in Hr as [j Hj].
    rewrite rows_of_lookup in Hj.
    destruct (files !! j) as [f|] eqn:Hf; [|done]. injection Hj as <-.
    simpl in Hidx. apply Nat.eqb_eq in Hidx. subst j.
    apply lookup_lt_Some in Hf. done.
Qed.

(** Whatever is added, removed or cleared, the file list shows the
    selection: the notice when nothing is selected, otherwise one row per
    selected file, in order, with the escaped name, the printed size and the
    position as [data-idx]; so the remove button of a row takes out exactly
    the file of that row. *)
Theorem file_list_shows_selection (reread : jsstring -> jsstring)
    (evs : list PageEvent) (pg0 : Page) (H0 : shows_selection pg0) :
  let pg := fold_left (page_step reread) evs pg0 in
  shows_selection pg /\
  forall rows, fileList pg = Some (FileRows rows) ->
    length rows = length (selected pg) /\
    forall i f, selected pg !! i = Some f ->
      rows !! i =
        Some (mkRow (escapeHtml (file_name f)) (bytesToSize (file_size f)) i) /\
      selected (remove_clicked reread i pg) = delete i (selected pg).
Proof.
  intros pg.
  assert (H : shows_selection pg).
  { subst pg. revert pg0 H0. induction evs as [|ev evs IH]; intros pg0 H0;
      simpl; [done |]. apply IH. by apply page_step_shows. }
  split; [done |]. intros rows Hrows.
  unfold shows_selection in H. rewrite Hrows in H. subst rows.
  split; [unfold rows_of; by rewrite length_imap |].
  intros i f Hf. split; [by rewrite rows_of_lookup, Hf |].
  unfold remove_clicked. rewrite Hrows, rows_of_has_idx.
  apply lookup_lt_Some in Hf as Hlt. rewrite bool_decide_eq_true_2 by done.
  apply renderFileList_selected.
Qed.

Lemma file_list_shows_selection_witness :
  let pg := fold_left (page_step (fun text => text))
              [PgAddFiles two_files; PgRemove 0] console_page in
  shows_selection console_page /\ shows_selection pg.
Proof.
  intros pg. split; [reflexivity |].
  exact (proj1 (file_list_shows_selection (fun text => text)
                  [PgAddFiles two_files; PgRemove 0] console_page eq_refl)).
Defined.

Lemma addFiles_facts (reread : jsstring -> jsstring)
    (fileListLike : list File) (pg : Page) :
  let pg' := addFiles reread fileListLike pg in
  exists new,
    selected pg' = selected pg ++ new /\
    new `sublist_of` List.filter isSupportedFile fileListLike /\
    (forall f, f ∈ new -> fileKey f ∉ map fileKey (selected pg)) /\
    (NoDup (map fileKey (selected pg)) -> NoDup (map fileKey (selected pg'))) /\
    (forall f, f ∈ fileListLike -> isSupportedFile f = true ->
               fileKey f ∈ map fileKey (selected pg')) /\
    statusText pg' =
      (fun _ =>
         if negb (existsb isSupportedFile fileListLike) then
           str "Please select PDF files only."
         else if (length new =? 0)%nat then
           str "These Files are already added."
         else
           str "Added " ++ decimal (N.of_nat (length new)) ++ str " File" ++
           (if (length new =? 1)%nat then [] else str "s") ++ str ".")
      <$> statusText pg.
Proof.
  intros pg'. subst pg'.
  destruct (existsb isSupportedFile fileListLike) eqn:Hany; cbn [negb].
  - destruct (addFiles_loop_spec (List.filter isSupportedFile fileListLike)
                (selected pg) (map fileKey (selected pg)) 0)
      as (new & H1 & H2 & H3 & H4 & H5); [done |].
    destruct (addFiles_supported reread fileListLike pg Hany)
      as (new' & H1' & ->).
    assert (new' = new) as ->.
    { rewrite H1 in H1'. injection H1' as H1' _.
      by apply app_inv_head in H1'. }
    assert (Hsel : forall t m q,
      selected (setStatus t m
        (let pg1 := updateFileCount
                      (renderFileList reread
                         (set_selected (selected pg ++ new) pg)) in
         setMetrics (decimal (N.of_nat (length (selected pg1))))
           (metric_of reread (mChunks pg1)) (metric_of reread (mSkipped pg1))
           pg1)) = q -> q = selected pg ++ new).
    { intros t m q <-. cbv zeta.
      change (selected (renderFileList reread
                (set_selected (selected pg ++ new) pg)) = selected pg ++ new).
      by rewrite renderFileList_selected. }
    exists new. rewrite (Hsel _ _ _ eq_refl).
    split; [done |]. split; [done |]. split; [done |]. split; [done |].
    split.
    { intros f Hf Hs. apply H4. apply list_elem_of_In, filter_In.
      split; [by apply list_elem_of_In | done]. }
    cbv zeta.
    change (statusText (setStatus ?t ?m ?q)) with ((fun _ => t) <$> statusText q).
    change (statusText (setMetrics ?a ?b ?c ?q)) with (statusText q).
    change (statusText (updateFileCount ?q)) with (statusText q).
    rewrite renderFileList_statusText. done.
  - rewrite (addFiles_unsupported reread fileListLike pg Hany).
    exists []. rewrite app_nil_r.
    split; [done |]. split; [apply sublist_nil_l |].
    split; [by intros ? ?%elem_of_nil |]. split; [done |]. split; [|done].
    intros f Hf Hs. exfalso.
    assert (existsb isSupportedFile fileListLike = true); [|congruence].
    apply existsb_exists. exists f. split; [by apply list_elem_of_In | done].
Qed.

(** addFiles appends to [selectedFiles], in their order, those supported
    incoming files whose key is not there yet, each once; keys that were
    distinct stay distinct, every supported incoming file has its key among
    the selected files afterwards, and the status tells how many files were
    appended.  With no supported file among the incoming ones nothing is
    selected and the status asks for PDF files. *)
Theorem addFiles_appends_new_keys (reread : jsstring -> jsstring)
    (fileListLike : list File) (pg : Page) :
  let pg' := addFiles reread fileListLike pg in
  exists new,
    selected pg' = selected pg ++ new /\
    new `sublist_of` List.filter isSupportedFile fileListLike /\
    (forall f, f ∈ new -> fileKey f ∉ map fileKey (selected pg)) /\
    (NoDup (map fileKey (selected pg)) -> NoDup (map fileKey (selected pg'))) /\
    (forall f, f ∈ fileListLike -> isSupportedFile f = true ->
               fileKey f ∈ map fileKey (selected pg')) /\
    statusText pg' =
      (fun _ =>
         if negb (existsb isSupportedFile fileListLike) then
           str "Please select PDF files only."
         else if (length new =? 0)%nat then
           str "These Files are already added."
         else
           str "Added " ++ decimal (N.of_nat (length new)) ++ str " File" ++
           (if (length new =? 1)%nat then [] else str "s") ++ str ".")
      <$> statusText pg.
Proof. apply addFiles_facts. Qed.

(** addFiles with the same files a second time selects nothing more and
    says so. *)
Theorem addFiles_again (reread : jsstring -> jsstring)
    (fileListLike : list File) (pg : Page) :
  let pg1 := addFiles reread fileListLike pg in
  let pg2 := addFiles reread fileListLike pg1 in
  selected pg2 = selected pg1 /\
  statusText pg2 =
    (fun _ =>
       if existsb isSupportedFile fileListLike then
         str "These Files are already added."
       else str "Please select PDF files only.") <$> statusText pg.
Proof.
  intros pg1 pg2.
  destruct (addFiles_facts reread fileListLike pg)
    as (new & H1 & _ & _ & _ & H5 & H6). fold pg1 in H1, H5, H6.
  destruct (addFiles_facts reread fileListLike pg1)
    as (new2 & G1 & _ & _ & _ & _ & G6). fold pg2 in G1, G6.
  destruct (existsb isSupportedFile fileListLike) eqn:Hany; cbn [negb] in *.
  - destruct (addFiles_supported reread fileListLike pg1 Hany)
      as (new3 & L1 & _).
    rewrite addFiles_loop_present in L1; last first.
    { intros f Hf. apply list_elem_of_In, filter_In in Hf as [Hf Hs].
      apply H5; [by apply list_elem_of_In | done]. }
    injection L1 as L1 L2.
    assert (new3 = []) as -> by (by destruct new3).
    assert (new2 = []) as ->.
    { destruct (addFiles_supported reread fileListLike pg1 Hany)
        as (new4 & M1 & M2).
      rewrite addFiles_loop_present in M1; last first.
      { intros f Hf. apply list_elem_of_In, filter_In in Hf as [Hf Hs].
        apply H5; [by apply list_elem_of_In | done]. }
      injection M1 as M1 M3. destruct new4; [|done].
      fold pg2 in M2. rewrite M2 in G1. cbv zeta in G1.
      change (selected (renderFileList reread
                (set_selected (selected pg1 ++ []) pg1)) = selected pg1 ++ new2)
        in G1.
      rewrite renderFileList_selected in G1. simpl in G1.
      by apply app_inv_head in G1. }
    rewrite app_nil_r in G1. split; [done |].
    rewrite G6, H6. simpl. by destruct (statusText pg).
  - rewrite app_nil_r in G1 || idtac.
    subst pg2 pg1. rewrite !(addFiles_unsupported reread _ _ Hany).
    split; [done |]. simpl. by destruct (statusText pg).
Qed.

(** renderFileList writes the count label only while files are selected.
    So when the only selected file is removed with its button, or a training
    has succeeded, the list shows the notice and nothing is selected, but
    the count label keeps its old text and the files metric is only read
    back; clearFiles does set the label to 0 files. *)
Theorem file_count_is_stale_when_last_file_goes
    (reread : jsstring -> jsstring) (pg : Page) (f : File)
    (Hsel : selected pg = [f]) (Hshow : shows_selection pg)
    (Hlist : is_Some (fileList pg)) :
  let removed := remove_clicked reread 0 pg in
  let succeeded := clearFilesAfterSuccess_page reread pg in
  selected removed = [] /\
  fileList removed = Some NoFilesNotice /\
  fileCount removed = fileCount pg /\
  mFiles removed = reread <$> mFiles pg /\
  selected succeeded = [] /\
  fileList succeeded = Some NoFilesNotice /\
  fileCount succeeded = fileCount pg /\
  fileCount (clearFiles reread pg) = (fun _ => count_label 0) <$> fileCount pg.
Proof.
  intros removed succeeded.
  assert (Hv : fileList pg = Some (FileRows (rows_of [f]))).
  { unfold shows_selection in Hshow. destruct Hlist as [v Hv].
    rewrite Hv, Hsel in Hshow. destruct v; [done | by subst]. }
  assert (Hempty : forall q, selected q = [] -> is_Some (fileList q) ->
    selected (renderFileList reread q) = [] /\
    fileList (renderFileList reread q) = Some NoFilesNotice /\
    fileCount (renderFileList reread q) = fileCount q /\
    mFiles (renderFileList reread q) = reread <$> mFiles q).
  { intros q Hq Hl. rewrite (renderFileList_present reread q Hl), Hq.
    cbn. split; [done |]. split; [done |]. split; [done |].
    by destruct (mFiles q). }
  assert (Hr : removed = renderFileList reread (set_selected [] pg)).
  { subst removed. unfold remove_clicked. rewrite Hv, Hsel. reflexivity. }
  destruct (Hempty (set_selected [] pg) eq_refl Hlist) as (E1 & E2 & E3 & E4).
  rewrite Hr. split; [done |]. split; [done |]. split; [done |].
  split; [done |]. split; [done |]. split; [done |]. split; [done |].
  unfold clearFiles. cbv zeta.
  change (fileCount (updateFileCount (renderFileList reread (set_selected [] pg)))
          = (fun _ => count_label 0) <$> fileCount pg).
  unfold updateFileCount. cbn [fileCount set_fileCount].
  rewrite renderFileList_selected, E3. done.
Qed.

Lemma file_count_is_stale_when_last_file_goes_witness :
  let pg := addFiles (fun text => text)
              [mkFile (str "notes.txt") 12 1700000000001 (str "text/plain")]
              console_page in
  fileCount pg = Some (str "1 file") /\
  fileCount (remove_clicked (fun text => text) 0 pg) = Some (str "1 file").
Proof.
  intros pg. split; [vm_compute; reflexivity |].
  pose proof (file_count_is_stale_when_last_file_goes (fun text => text) pg
                (mkFile (str "notes.txt") 12 1700000000001 (str "text/plain"))
                ltac:(vm_compute; reflexivity)
                ltac:(vm_compute; reflexivity)
                ltac:(vm_compute; eexists; reflexivity)) as H.
  cbv zeta in H. destruct H as (_ & _ & H & _). rewrite H.
  vm_compute. reflexivity.
Defined.

(** ** Training: lemmas *)

Lemma renderFileList_controls reread pg :
  controls (renderFileList reread pg) = controls pg.
Proof.
  unfold renderFileList. destruct (fileList pg); [|done].
  by destruct (length (selected pg) =? 0)%nat.
Qed.

Lemma renderFileList_progress reread pg :
  progress (renderFileList reread pg) = progress pg.
Proof.
  unfold renderFileList. destruct (fileList pg); [|done].
  by destruct (length (selected pg) =? 0)%nat.
Qed.

Lemma renderFileList_fileList reread pg :
  fileList (renderFileList reread pg) =
    (fun _ => if (length (selected pg) =? 0)%nat then NoFilesNotice
              else FileRows (rows_of (selected pg))) <$> fileList pg.
Proof.
  unfold renderFileList. destruct (fileList pg) eqn:Hv; [|by rewrite Hv].
  by destruct (length (selected pg) =? 0)%nat.
Qed.

Lemma addFiles_cases reread l pg :
  exists sel status,
    addFiles reread l pg = setStatus status.1 status.2 pg \/
    addFiles reread l pg =
      setStatus status.1 status.2
        (let pg := updateFileCount
                     (renderFileList reread (set_selected sel pg)) in
         setMetrics (decimal (N.of_nat (length (selected pg))))
           (metric_of reread (mChunks pg)) (metric_of reread (mSkipped pg)) pg).
Proof.
  destruct (existsb isSupportedFile l) eqn:Hany.
  - destruct (addFiles_supported reread l pg Hany) as (new & _ & ->).
    eexists _, (_, _). right. reflexivity.
  - rewrite (addFiles_unsupported reread l pg Hany).
    eexists [], (_, _). left. reflexivity.
Qed.

(** An event of the page leaves the controls alone and sets the progress
    bar to 0 at most; what it does to the selection and to the list is
    settled by the two. *)
Lemma page_step_controls reread pg ev :
  controls (page_step reread pg ev) = controls pg.
Proof.
  destruct ev as [l|i| |]; simpl.
  - destruct (addFiles_cases reread l pg) as (sel & st & [-> | ->]); [done|].
    cbn. apply (renderFileList_controls reread (set_selected sel pg)).
  - unfold remove_clicked. destruct (fileList pg) as [[|rows]|]; try done.
    destruct (existsb _ rows); [|done].
    apply (renderFileList_controls reread (set_selected _ pg)).
  - apply (renderFileList_controls reread (set_selected [] pg)).
  - apply (renderFileList_controls reread (set_selected [] pg)).
Qed.

Lemma page_step_progress reread pg ev :
  progress (page_step reread pg ev) = progress pg \/
  progress (page_step reread pg ev) = setProgress 0 (progress pg).
Proof.
  destruct ev as [l|i| |]; simpl.
  - left. destruct (addFiles_cases reread l pg) as (sel & st & [-> | ->]); [done|].
    cbn. apply (renderFileList_progress reread (set_selected sel pg)).
  - left. unfold remove_clicked. destruct (fileList pg) as [[|rows]|]; try done.
    destruct (existsb _ rows); [|done].
    apply (renderFileList_progress reread (set_selected _ pg)).
  - right. cbn. f_equal. apply (renderFileList_progress reread (set_selected [] pg)).
  - left. apply (renderFileList_progress reread (set_selected [] pg)).
Qed.

Lemma page_step_selection reread pg pg' ev :
  selected pg = selected pg' -> fileList pg = fileList pg' ->
  selected (page_step reread pg ev) = selected (page_step reread pg' ev) /\
  fileList (page_step reread pg ev) = fileList (page_step reread pg' ev).
Proof.
  intros Hs Hf. destruct ev as [l|i| |]; simpl.
  - destruct (existsb isSupportedFile l) eqn:Hany.
    + destruct (addFiles_supported reread l pg Hany) as (new & H1 & ->).
      destruct (addFiles_supported reread l pg' Hany) as (new' & H1' & ->).
      rewrite Hs, H1' in H1. injection H1 as Hn _. apply app_inv_head in Hn.
      subst new'. cbn.
      rewrite !renderFileList_selected, !renderFileList_fileList. cbn.
      by rewrite Hs, Hf.
    + by rewrite !(addFiles_unsupported reread l _ Hany).
  - unfold remove_clicked. rewrite <- Hf, <- Hs.
    destruct (fileList pg) as [[|rows]|] eqn:Hv; [by rewrite Hv | | by rewrite Hv].
    destruct (existsb _ rows); [|by rewrite Hv].
    rewrite !renderFileList_selected, !renderFileList_fileList. cbn.
    by rewrite Hv, <- Hf.
  - cbn. rewrite !renderFileList_selected, !renderFileList_fileList. cbn.
    by rewrite Hf.
  - unfold clearFilesAfterSuccess_page.
    rewrite !renderFileList_selected, !renderFileList_fileList. cbn.
    by rewrite Hf.
Qed.

(** *** The console while a function waits *)

Lemma enabled_controls_same pg pg' :
  controls pg = controls pg' -> enabled_controls pg = enabled_controls pg'.
Proof. unfold controls, enabled_controls. by intros [= -> -> -> ->]. Qed.

Lemma enabled_setDisabled d pg :
  enabled_controls (setDisabled d pg) = enabled_controls pg.
Proof.
  unfold enabled_controls, setDisabled. simpl.
  by destruct (uploadBtn pg), (clearBtn pg), (fileInput pg), (dropzone pg).
Qed.

Lemma console_step_controls reread c ev :
  controls (page (console_step reread c ev)) = controls (page c).
Proof. destruct ev; simpl; [apply page_step_controls | done | done]. Qed.

Lemma console_step_calls reread c ev :
  calls (console_step reread c ev) = calls c.
Proof. by destruct ev. Qed.

Lemma console_step_progress reread c ev :
  exists evs,
    progress (page (console_step reread c ev)) =
      fold_left progress_step evs (progress (page c)) /\
    Forall (fun e => match e with PvSet _ | PvInterval _ => True | _ => False end)
      evs.
Proof.
  destruct ev as [e|id|t]; simpl.
  - destruct (page_step_progress reread (page c) e) as [-> | ->].
    + by exists [].
    + exists [PvSet 0%float]. by repeat constructor.
  - exists [PvInterval id]. by repeat constructor.
  - by exists [].
Qed.

Lemma quiet_progress evs st :
  Forall (fun e => match e with PvSet _ | PvInterval _ => True | _ => False end)
    evs ->
  one_interval st ->
  one_interval (fold_left progress_step evs st) /\
  progressTimer (fold_left progress_step evs st) = progressTimer st.
Proof.
  intros Hq. revert st. induction Hq as [|e evs He _ IH]; intros st H; [done|].
  simpl. destruct (IH (progress_step st e)) as [I1 I2];
    [by apply one_interval_step|].
  split; [done|]. rewrite I2.
  destruct e as [|v|v|id]; try done. simpl. unfold interval_fires.
  by destruct (List.find _ _) as [[? ?]|].
Qed.

Lemma console_step_one_interval reread c ev :
  one_interval (progress (page c)) ->
  one_interval (progress (page (console_step reread c ev))) /\
  progressTimer (progress (page (console_step reread c ev))) =
    progressTimer (progress (page c)).
Proof.
  intros H. destruct (console_step_progress reread c ev) as (evs & -> & Hq).
  by apply quiet_progress.
Qed.

Lemma stop_one_interval v st :
  one_interval st ->
  one_interval (stopSimulatedProgress v st) /\
  progressTimer (stopSimulatedProgress v st) = None.
Proof.
  intros H. split; [apply (one_interval_step st (PvStop v) H)|done].
Qed.

Lemma one_interval_stopped st :
  one_interval st -> progressTimer st = None -> intervals st = [].
Proof. unfold one_interval. intros H E. by rewrite E in H. Qed.

Lemma console_step_choice reread a b ev :
  same_choice a b ->
  same_choice (console_step reread a ev) (console_step reread b ev).
Proof.
  intros (Hs & Hf & Ht & He & Hd). destruct ev as [e|id|t]; simpl.
  - destruct (page_step_selection reread (page a) (page b) e Hs Hf).
    by repeat split.
  - by repeat split.
  - unfold same_choice, type_chosen. simpl. by rewrite He, Hd.
Qed.

(** *** A training from its first await to its end *)

Lemma runs_None reread resume c hs c' :
  runs reread resume c None hs c' -> hs = [] /\ c' = c.
Proof. by inversion 1. Qed.

Lemma upload_failed_ends err c :
  one_interval (progress (page c)) ->
  let c' := fst (upload_failed err c) in
  snd (upload_failed err c) = None /\
  controls (page c') = enabled_controls (page c) /\
  progressTimer (progress (page c')) = None /\
  intervals (progress (page c')) = [] /\
  calls c' =
    calls c ++
    [CHideProcessingOverlay; CAlert (str "Training failed: " ++ err)] /\
  (forall bar, progressBar (progress (page c')) = Some bar -> bar = 0%float) /\
  same_choice c' c.
Proof.
  intros H.
  destruct (stop_one_interval (Some 0%float) (progress (page c)) H)
    as [I1 I2].
  split; [done|]. split; [done|]. split; [exact I2|].
  split; [by apply one_interval_stopped|].
  split; [simpl; by rewrite <- app_assoc|].
  split; [|done].
  simpl. unfold stopSimulatedProgress, setProgress. simpl.
  destruct (progressBar _); [|done]. simpl. intros bar [= <-].
  vm_compute. reflexivity.
Qed.

Section Runs.

Variable reread : jsstring -> jsstring.

Lemma announced_ends typed c :
  let c' :=
    fst (uploadAndIngest_resume AwSuccess (Announced typed)
           (settled_effect reread (Announced typed) c)) in
  controls (page c') = enabled_controls (page c) /\
  progress (page c') = progress (page c) /\
  calls c' = calls c.
Proof.
  pose proof (renderFileList_progress reread (set_selected [] (page c)))
    as E1.
  pose proof (renderFileList_controls reread (set_selected [] (page c)))
    as E2.
  apply enabled_controls_same in E2.
  destruct typed; [|done]. split; [exact E2|done].
Qed.

Lemma upload_failed_ended base k err c c' hs :
  one_interval (progress (page c)) ->
  upload_waits base (Some k) c ->
  runs reread uploadAndIngest_resume (fst (upload_failed err c))
    (snd (upload_failed err c)) hs c' ->
  (forall typed, Settled (Announced typed) ∉ hs) /\
  upload_ended (enabled_controls (page c)) base hs c'.
Proof.
  intros H1 Hw Hr.
  destruct (upload_failed_ends err c H1) as (F0 & F1 & F2 & F3 & F4 & F5 & _).
  rewrite F0 in Hr. apply runs_None in Hr as [-> ->].
  split; [intros typed; apply not_elem_of_nil|].
  split; [done|]. split; [done|]. split; [done|]. right.
  destruct k; simpl in Hw.
  4: { destruct Hw as [_ Hw]. exists err, [CShowProcessingSuccess].
       rewrite F4, Hw, <- app_assoc.
       repeat split; auto. intros typed. apply not_elem_of_nil. }
  all: exists err, []; rewrite F4, Hw; repeat split; auto;
    intros typed; apply not_elem_of_nil.
Qed.

Lemma upload_runs c k hs c' :
  runs reread uploadAndIngest_resume c k hs c' ->
  forall base,
    one_interval (progress (page c)) -> upload_waits base k c ->
    upload_ended (enabled_controls (page c)) base hs c'.
Proof.
  induction 1 as [c|c k ev hs c' Hr IH|c k o hs c' Hs Hr IH];
    intros base H1 Hw.
  - destruct Hw.
  - destruct (console_step_one_interval reread c ev H1) as [I1 I2].
    rewrite <- (enabled_controls_same _ _ (console_step_controls reread c ev)).
    assert (Hw' : upload_waits base (Some k) (console_step reread c ev)).
    { destruct k; simpl in *; rewrite ?console_step_calls, ?I2; done. }
    destruct (IH base I1 Hw') as (P1 & P2 & P3 & P4).
    split; [done|]. split; [done|]. split; [done|].
    destruct P4 as [P4 | (err & shown & Q1 & Q2 & Q3 & Q4)]; [by left|].
    right. exists err, shown. repeat split; try done.
    intros typed [?|?]%elem_of_cons; [done | by eapply Q4].
  - assert (Hcons : forall P : Prop,
      (forall typed, Settled (Announced typed) ∉ hs) ->
      (forall typed, o <> Announced typed) ->
      forall typed, Settled (Announced typed) ∉ Settled o :: hs).
    { intros _ Q1 Q2 typed [[= ?]|?]%elem_of_cons;
        [by eapply Q2 | by eapply Q1]. }
    assert (Hlift : forall E,
      (forall typed, o <> Announced typed) ->
      upload_ended E base hs c' -> upload_ended E base (Settled o :: hs) c').
    { intros E Ho (P1 & P2 & P3 & P4).
      split; [done|]. split; [done|]. split; [done|].
      destruct P4 as [P4 | (err & shown & Q1 & Q2 & Q3 & Q4)]; [by left|].
      right. exists err, shown. repeat split; try done.
      by apply (Hcons True). }
    assert (Hchecked : forall res data,
      k <> AwSuccess ->
      (forall typed, o <> Announced typed) ->
      runs reread uploadAndIngest_resume (fst (upload_checked res data c))
        (snd (upload_checked res data c)) hs c' ->
      (forall base,
         one_interval (progress (page (fst (upload_checked res data c)))) ->
         upload_waits base (snd (upload_checked res data c))
           (fst (upload_checked res data c)) ->
         upload_ended
           (enabled_controls (page (fst (upload_checked res data c))))
           base hs c') ->
      upload_ended (enabled_controls (page c)) base (Settled o :: hs) c').
    { intros res data Hk Ho Hr' IH'. apply Hlift; [done|].
      unfold upload_checked in *. destruct (negb (res_ok res)).
      - by destruct (upload_failed_ended base k _ c c' hs H1 Hw Hr').
      - simpl in *.
        destruct (stop_one_interval (Some 100%float) (progress (page c)) H1)
          as [I1 I2].
        apply IH'; [exact I1|]. split; [exact I2|].
        destruct k; try done; simpl in Hw |- *; by rewrite Hw. }
    destruct o as [err|res|data|text|typed].
    + assert (Hr' :
        runs reread uploadAndIngest_resume (fst (upload_failed err c))
          (snd (upload_failed err c)) hs c') by (by destruct k).
      destruct (upload_failed_ended base k err c c' hs H1 Hw Hr') as [Q P].
      by apply Hlift.
    + destruct k; try done. simpl in Hr, IH. apply Hlift; [done|].
      apply IH; [done|]. simpl in Hw. unfold read_body.
      by destruct (includes _ _).
    + destruct k as [|res| |]; try done. by apply (Hchecked res data).
    + destruct k as [| |res|]; try done.
      by apply (Hchecked res (text_data text)).
    + destruct k; try done. destruct Hw as [W1 W2].
      apply runs_None in Hr as [-> ->].
      destruct (announced_ends typed c) as (E1 & E2 & E3).
      split; [done|]. rewrite E2. split; [done|].
      split; [by apply one_interval_stopped|]. left. by rewrite E3.
Qed.

End Runs.

Lemma run_to_end_runs reread resume hs : forall c k c',
  run_to_end reread resume c k hs = Some c' -> runs reread resume c k hs c'.
Proof.
  induction hs as [|[ev|o] hs IH]; intros c [k|] c' H; simpl in H; try done.
  - injection H as <-. constructor.
  - constructor. by apply IH.
  - destruct (settles k o) eqn:Hs; [|done]. constructor; [done|]. by apply IH.
Qed.

Lemma uploadAndIngest_starts c :
  selected (page c) <> [] ->
  let c1 := fst (uploadAndIngest c) in
  snd (uploadAndIngest c) = Some AwFetch /\
  enabled_controls (page c1) = enabled_controls (page c) /\
  (one_interval (progress (page c)) -> one_interval (progress (page c1))) /\
  is_Some (progressTimer (progress (page c1))) /\
  calls c1 =
    calls c ++
    [CShowProcessingOverlay (length (selected (page c)));
     CFetchIngest (selected (page c)) (trainType c)] /\
  same_choice c1 c.
Proof.
  intros Hsel. unfold uploadAndIngest.
  destruct (Nat.eqb_spec (length (selected (page c))) 0) as [H0|_].
  { by destruct (selected (page c)). }
  split; [done|]. split.
  { change (enabled_controls (setDisabled true (page c)) =
            enabled_controls (page c)).
    apply enabled_setDisabled. }
  split; [intros H; apply (one_interval_step _ PvStart H)|].
  split; [by eexists|]. split; [simpl; by rewrite <- app_assoc|done].
Qed.

Lemma same_choice_trans a b c :
  same_choice a b -> same_choice b c -> same_choice a c.
Proof.
  intros (A1 & A2 & A3 & A4 & A5) (B1 & B2 & B3 & B4 & B5).
  unfold same_choice. by rewrite A1, A2, A3, A4, A5.
Qed.

Lemma upload_resume_choice k o c :
  same_choice (fst (uploadAndIngest_resume k o c)) c.
Proof.
  assert (Hf : forall err, same_choice (fst (upload_failed err c)) c) by done.
  assert (Hc : forall res data, same_choice (fst (upload_checked res data c)) c).
  { intros res data. unfold upload_checked. by destruct (negb (res_ok res)). }
  destruct k, o; simpl; try done; apply Hc.
Qed.

Lemma crawl_resume_choice k o c :
  same_choice (fst (runCrawl_resume k o c)) c.
Proof.
  assert (Hf : forall err, same_choice (fst (crawl_failed err c)) c) by done.
  assert (Hc : forall res data, same_choice (fst (crawl_checked res data c)) c).
  { intros res data. unfold crawl_checked. by destruct (negb (res_ok res)). }
  destruct k, o; simpl; try done; apply Hc.
Qed.

(** Unless an announcement has been typed, a function that leaves the
    choice alone ends with the choice as the console's own events made it. *)
Lemma runs_choice reread resume
    (Hres : forall k o c, same_choice (fst (resume k o c)) c) c k hs c' :
  runs reread resume c k hs c' ->
  Settled (Announced true) ∉ hs ->
  forall d, same_choice c d ->
    same_choice c' (fold_left (console_step reread) (meanwhile hs) d).
Proof.
  induction 1 as [c|c k ev hs c' Hr IH|c k o hs c' Hs Hr IH]; intros Hno d Hd.
  - done.
  - simpl. apply IH.
    + intros Hin. apply Hno. by right.
    + by apply console_step_choice.
  - assert (Ho : o <> Announced true) by (intros ->; apply Hno; left).
    assert (He : settled_effect reread o c = c) by (by destruct o as [| | | |[]]).
    rewrite He in IH.
    assert (Hm : meanwhile (Settled o :: hs) = meanwhile hs) by done.
    rewrite Hm. apply IH.
    + intros Hin. apply Hno. by right.
    + eapply same_choice_trans; [apply Hres | exact Hd].
Qed.

Lemma announced_clears reread c k hs c' :
  runs reread uploadAndIngest_resume c k hs c' ->
  Settled (Announced true) ∈ hs ->
  selected (page c') = [] /\ trainType c' = [] /\
  trainingTypeDropdown c' =
    (fun _ => str "Select Type") <$> trainingTypeDropdown c' /\
  fileList (page c') = (fun _ => NoFilesNotice) <$> fileList (page c').
Proof.
  induction 1 as [c|c k ev hs c' Hr IH|c k o hs c' Hs Hr IH]; intros Hin.
  - by apply elem_of_nil in Hin.
  - apply elem_of_cons in Hin as [?|Hin]; [done | by apply IH].
  - apply elem_of_cons in Hin as [[= <-]|Hin]; [|by apply IH].
    destruct k; try done. apply runs_None in Hr as [-> ->].
    simpl. unfold clearFilesAfterSuccess_page.
    rewrite renderFileList_selected, renderFileList_fileList. simpl.
    split; [done|]. split; [done|].
    by destruct (trainingTypeDropdown c), (fileList (page c)).
Qed.

Lemma quiet_timer evs st :
  Forall (fun e => match e with PvSet _ | PvInterval _ => True | _ => False end)
    evs ->
  progressTimer (fold_left progress_step evs st) = progressTimer st.
Proof.
  intros Hq. revert st. induction Hq as [|e evs He _ IH]; intros st; [done|].
  simpl. rewrite IH. destruct e as [|v|v|id]; try done. simpl.
  unfold interval_fires. by destruct (List.find _ _) as [[? ?]|].
Qed.

Lemma console_step_timer reread c ev :
  progressTimer (progress (page (console_step reread c ev))) =
    progressTimer (progress (page c)).
Proof.
  destruct (console_step_progress reread c ev) as (evs & -> & Hq).
  by apply quiet_timer.
Qed.

Lemma crawl_never_announced reread c k hs c' :
  runs reread runCrawl_resume c k hs c' ->
  k <> Some AwSuccess ->
  forall typed, Settled (Announced typed) ∉ hs.
Proof.
  induction 1 as [c|c k ev hs c' Hr IH|c k o hs c' Hs Hr IH];
    intros Hk typed.
  - apply not_elem_of_nil.
  - intros [?|?]%elem_of_cons; [done | by eapply IH].
  - intros [[= <-]|Hin]%elem_of_cons.
    + by destruct k.
    + revert Hin. apply IH.
      destruct k, o; simpl in *; try done;
        unfold read_body, crawl_checked; repeat case_match; done.
Qed.

Lemma runCrawl_starts c :
  let c1 := fst (runCrawl c) in
  enabled_controls (page c1) = enabled_controls (page c) /\
  progressTimer (progress (page c1)) = progressTimer (progress (page c)) /\
  calls c1 = calls c ++ [CFetchCrawl].
Proof.
  split; [|done].
  change (enabled_controls (setDisabled true (page c)) =
          enabled_controls (page c)).
  apply enabled_setDisabled.
Qed.

Lemma crawl_runs reread c k hs c' :
  runs reread runCrawl_resume c k hs c' ->
  forall base,
    k <> Some AwSuccess -> k <> None -> calls c = base ->
    controls (page c') = enabled_controls (page c) /\
    progressTimer (progress (page c')) = progressTimer (progress (page c)) /\
    (calls c' = base \/
     exists err,
       calls c' =
         base ++ [CAlert (str "Auto Download and Training stopped: " ++ err)]).
Proof.
  induction 1 as [c|c k ev hs c' Hr IH|c k o hs c' Hs Hr IH];
    intros base Hk1 Hk2 Hc.
  - done.
  - rewrite <- (enabled_controls_same _ _ (console_step_controls reread c ev)).
    rewrite <- (console_step_timer reread c ev).
    apply IH; try done. by rewrite console_step_calls.
  - assert (Hf : forall err,
      runs reread runCrawl_resume (fst (crawl_failed err c))
        (snd (crawl_failed err c)) hs c' ->
      controls (page c') = enabled_controls (page c) /\
      progressTimer (progress (page c')) = progressTimer (progress (page c)) /\
      (calls c' = base \/
       exists err,
         calls c' =
           base ++
           [CAlert (str "Auto Download and Training stopped: " ++ err)])).
    { intros err [-> ->]%runs_None. split; [done|]. split; [done|].
      right. exists err. simpl. by rewrite Hc. }
    assert (Hch : forall res data,
      runs reread runCrawl_resume (fst (crawl_checked res data c))
        (snd (crawl_checked res data c)) hs c' ->
      controls (page c') = enabled_controls (page c) /\
      progressTimer (progress (page c')) = progressTimer (progress (page c)) /\
      (calls c' = base \/
       exists err,
         calls c' =
           base ++
           [CAlert (str "Auto Download and Training stopped: " ++ err)])).
    { intros res data. unfold crawl_checked.
      destruct (negb (res_ok res)).
      - intros [-> ->]%runs_None. split; [done|]. split; [done|].
        right. eexists. simpl. by rewrite Hc.
      - intros [-> ->]%runs_None. split; [done|]. split; [done|].
        left. simpl. by rewrite Hc. }
    destruct o as [err|res|data|text|typed].
    + apply (Hf err). by destruct k.
    + destruct k; try done. simpl in Hr, IH.
      destruct (IH base) as (I1 & I2 & I3); try done.
      unfold read_body. by destruct (includes _ _).
    + destruct k as [|res| |]; try done. by apply (Hch res data).
    + destruct k as [| |res|]; try done. by apply (Hch res (text_data text)).
    + by destruct k.
Qed.



(** Unless the announcement has been typed, a training that ends leaves the
    selection, the file list and the chosen type as the events of the
    console alone would have left them: a failed training takes nothing out
    of the selection and keeps the type. *)
Theorem unannounced_training_leaves_the_choice (reread : jsstring -> jsstring)
    (c c' : Console) (hs : list Happening)
    (Hrun : runs reread uploadAndIngest_resume (fst (uploadAndIngest c))
              (snd (uploadAndIngest c)) hs c')
    (Hno : Settled (Announced true) ∉ hs) :
  let d := fold_left (console_step reread) (meanwhile hs) c in
  selected (page c') = selected (page d) /\
  fileList (page c') = fileList (page d) /\
  trainType c' = trainType d /\
  trainTypeError c' = trainTypeError d /\
  trainingTypeDropdown c' = trainingTypeDropdown d.
Proof.
  intros d.
  apply (runs_choice reread uploadAndIngest_resume upload_resume_choice
           _ _ _ _ Hrun Hno c).
  unfold uploadAndIngest.
  by destruct (length (selected (page c)) =? 0)%nat.
Qed.

Lemma unannounced_training_leaves_the_choice_witness :
  let c' :=
    ended (fun text => text) uploadAndIngest_resume
      (uploadAndIngest training_console) training_refused in
  length (selected (page c')) = 3%nat /\ trainType c' = str "pharma".
Proof.
  intros c'.
  pose proof (unannounced_training_leaves_the_choice (fun text => text)
                training_console c' training_refused
                ltac:(apply run_to_end_runs; vm_compute; reflexivity)
                ltac:(vm_compute; intros H; by repeat
                        (apply elem_of_cons in H as [H|H]; [discriminate|]);
                      apply elem_of_nil in H)) as H.
  cbv zeta in H. destruct H as (H1 & _ & H3 & _). rewrite H1, H3.
  vm_compute. by split.
Defined.

(** A training whose announcement has been typed ends with nothing
    selected and no type chosen, also when files were added while it ran:
    only the selection it started with has been posted.  The next click on
    Train only shows the message that asks for a type. *)
Theorem announced_training_clears_the_choice (reread : jsstring -> jsstring)
    (c c' : Console) (hs : list Happening)
    (Hone : one_interval (progress (page c)))
    (Hrun : runs reread uploadAndIngest_resume (fst (uploadAndIngest c))
              (snd (uploadAndIngest c)) hs c')
    (Hyes : Settled (Announced true) ∈ hs) :
  selected (page c') = [] /\ trainType c' = [] /\
  trainingTypeDropdown c' =
    (fun _ => str "Select Type") <$> trainingTypeDropdown c' /\
  fileList (page c') = (fun _ => NoFilesNotice) <$> fileList (page c') /\
  calls c' =
    calls c ++
    [CShowProcessingOverlay (length (selected (page c)));
     CFetchIngest (selected (page c)) (trainType c);
     CShowProcessingSuccess] /\
  train_clicked c' = (showTrainTypeError c', None).
Proof.
  destruct (announced_clears reread _ _ _ _ Hrun Hyes) as (A1 & A2 & A3 & A4).
  split; [done|]. split; [done|]. split; [done|]. split; [done|].
  split; [|unfold train_clicked; by rewrite A2].
  assert (Hsel : selected (page c) <> []).
  { intros He. unfold uploadAndIngest in Hrun. rewrite He in Hrun.
    simpl in Hrun. apply runs_None in Hrun as [-> _].
    by apply elem_of_nil in Hyes. }
  destruct (uploadAndIngest_starts c Hsel) as (S1 & S2 & S3 & _ & S5 & _).
  rewrite S1 in Hrun.
  destruct (upload_runs reread _ _ _ _ Hrun _ (S3 Hone) S5)
    as (_ & _ & _ & [P4 | (err & shown & _ & _ & _ & Q4)]).
  - by rewrite P4, <- app_assoc.
  - by destruct (Q4 true).
Qed.

Lemma announced_training_clears_the_choice_witness :
  let c' :=
    ended (fun text => text) uploadAndIngest_resume
      (uploadAndIngest training_console) training_succeeds in
  selected (page c') = [] /\
  fileCount (page c') = Some (str "3 files").
Proof.
  intros c'.
  pose proof (announced_training_clears_the_choice (fun text => text)
                training_console c' training_succeeds
                ltac:(vm_compute; reflexivity)
                ltac:(apply run_to_end_runs; vm_compute; reflexivity)
                ltac:(unfold training_succeeds; do 4 right; left)) as H.
  destruct H as (H1 & _). split; [exact H1 | vm_compute; reflexivity].
Defined.

(** Every crawl that comes to its end, while files are added or removed,
    intervals fire and types are chosen, ends with the controls enabled.  It
    asks nothing of the overlay: it has posted once, and alerted if it
    failed.  It leaves the timer of the simulated progress as it is, and the
    selection and the type as the events of the console alone would have
    left them. *)
Theorem crawl_ends_with_controls_enabled (reread : jsstring -> jsstring)
    (c c' : Console) (hs : list Happening)
    (Hrun : runs reread runCrawl_resume (fst (runCrawl c)) (snd (runCrawl c))
              hs c') :
  let d := fold_left (console_step reread) (meanwhile hs) c in
  controls (page c') = enabled_controls (page c) /\
  progressTimer (progress (page c')) = progressTimer (progress (page c)) /\
  (calls c' = calls c ++ [CFetchCrawl] \/
   exists err,
     calls c' =
       calls c ++
       [CFetchCrawl;
        CAlert (str "Auto Download and Training stopped: " ++ err)]) /\
  selected (page c') = selected (page d) /\ trainType c' = trainType d.
Proof.
  intros d.
  destruct (runCrawl_starts c) as (R1 & R2 & R3).
  destruct (crawl_runs reread _ _ _ _ Hrun (calls c ++ [CFetchCrawl]))
    as (P1 & P2 & P3); try done.
  split; [by rewrite P1|]. split; [by rewrite P2|]. split.
  - destruct P3 as [P3 | [err P3]]; [by left|].
    right. exists err. by rewrite P3, <- app_assoc.
  - pose proof (crawl_never_announced reread _ _ _ _ Hrun
                  ltac:(done) true) as Hno.
    destruct (runs_choice reread runCrawl_resume crawl_resume_choice
                _ _ _ _ Hrun Hno c) as (C1 & _ & C3 & _); [done|].
    by split.
Qed.

Lemma crawl_ends_with_controls_enabled_witness :
  let c' :=
    ended (fun text => text) runCrawl_resume (runCrawl training_console)
      crawl_refused in
  controls (page c') = enabled_controls (page training_console) /\
  list.last (calls c') =
    Some (CAlert (str "Auto Download and Training stopped: busy")).
Proof.
  intros c'.
  pose proof (crawl_ends_with_controls_enabled (fun text => text)
                training_console c' crawl_refused
                ltac:(apply run_to_end_runs; vm_compute; reflexivity)) as H.
  cbv zeta in H. destruct H as (H1 & _).
  split; [exact H1 | vm_compute; reflexivity].
Defined.

(** A crawl that starts while a training waits for the server and comes to
    its end enables the controls although the training has not ended: its
    simulated progress is still running, and a click on Train starts a
    second training if a type and a file are still chosen. *)
Theorem crawl_enables_controls_during_training (reread : jsstring -> jsstring)
    (c c' : Console) (hs : list Happening)
    (Hsel : selected (page c) <> [])
    (Hrun : runs reread runCrawl_resume
              (fst (runCrawl (fst (uploadAndIngest c))))
              (snd (runCrawl (fst (uploadAndIngest c)))) hs c') :
  snd (uploadAndIngest c) = Some AwFetch /\
  controls (page c') = enabled_controls (page c) /\
  is_Some (progressTimer (progress (page c'))) /\
  CFetchIngest (selected (page c)) (trainType c) ∈ calls c' /\
  (trainType c' <> [] -> selected (page c') <> [] ->
   snd (train_clicked c') = Some AwFetch /\
   list.last (calls (fst (train_clicked c'))) =
     Some (CFetchIngest (selected (page c')) (trainType c'))).
Proof.
  destruct (uploadAndIngest_starts c Hsel) as (S1 & S2 & _ & S4 & S5 & _).
  destruct (runCrawl_starts (fst (uploadAndIngest c))) as (R1 & R2 & R3).
  destruct (crawl_runs reread _ _ _ _ Hrun
              (calls (fst (uploadAndIngest c)) ++ [CFetchCrawl]))
    as (P1 & P2 & P3); try done.
  split; [done|]. split; [by rewrite P1, R1|].
  split; [by rewrite P2, R2|]. split.
  - assert (Hin : CFetchIngest (selected (page c)) (trainType c) ∈
                  calls (fst (uploadAndIngest c)) ++ [CFetchCrawl]).
    { rewrite S5. apply elem_of_app. left. apply elem_of_app. right.
      right. left. }
    destruct P3 as [-> | [err ->]]; [done|]. apply elem_of_app. by left.
  - intros Ht Hs. unfold train_clicked.
    destruct (trainType c') as [|x t] eqn:Et; [done|]. rewrite <- Et.
    destruct (uploadAndIngest_starts c' Hs) as (T1 & _ & _ & _ & T5 & _).
    split; [done|]. rewrite T5.
    by rewrite (last_app_cons _ [_]).
Qed.

Lemma crawl_enables_controls_during_training_witness :
  let c' :=
    ended (fun text => text) runCrawl_resume
      (runCrawl (fst (uploadAndIngest training_console))) crawl_refused in
  uploadBtn (page (fst (uploadAndIngest training_console))) = Some true /\
  uploadBtn (page c') = Some false.
Proof.
  intros c'.
  pose proof (crawl_enables_controls_during_training (fun text => text)
                training_console c' crawl_refused
                ltac:(vm_compute; discriminate)
                ltac:(apply run_to_end_runs; vm_compute; reflexivity)) as H.
  destruct H as (_ & H & _). split; [vm_compute; reflexivity|].
  exact (f_equal (fun x => fst (fst (fst x))) H).
Defined.

(** A click on Train starts a training only if a type is chosen and a file
    is selected.  Otherwise nothing is asked of the overlay or of the
    server, the controls stay as they are and no simulated progress is
    started; without a type not even the status changes, only the message
    under the button is shown. *)
Theorem train_click_needs_type_and_files (c : Console) :
  let c' := fst (train_clicked c) in
  (snd (train_clicked c) = Some AwFetch <->
   trainType c <> [] /\ selected (page c) <> []) /\
  (snd (train_clicked c) <> Some AwFetch ->
   snd (train_clicked c) = None /\ calls c' = calls c /\
   controls (page c') = controls (page c) /\
   progress (page c') = progress (page c) /\
   selected (page c') = selected (page c) /\ trainType c' = trainType c) /\
  (trainType c = [] ->
   page c' = page c /\
   trainTypeError c' = class_remove "d-none" <$> trainTypeError c).
Proof.
  intros c'. subst c'. unfold train_clicked.
  destruct (trainType c) as [|x t] eqn:Et.
  - simpl. split; [split; [done | by intros [? _]]|]. by split.
  - rewrite <- Et.
    assert (Ht : trainType c <> []) by (by rewrite Et).
    destruct (selected (page c)) as [|f l] eqn:Es.
    + unfold uploadAndIngest. rewrite Es. simpl.
      split; [split; [done | by intros [_ ?]]|]. split; [|done].
      intros _. by rewrite Es.
    + assert (Hs : selected (page c) <> []) by (by rewrite Es).
      destruct (uploadAndIngest_starts c Hs) as (S1 & _).
      rewrite S1. rewrite <- Es. split; [done|]. by split.
Qed.
